(** * Feed-monitoring scheduler: a shallow embedding of [src/command/monitor.py]

    The development follows the module top to bottom: the statistics
    counters ([MonitoringCounter], [MonitoringStat]), the task-state bitset
    ([TaskState]), the scheduler itself ([Monitor]), the update detector
    ([_do_monitor_a_feed]) and the delivery helpers ([__send],
    [__locked_unsub_all_and_leave_chat]).

    Conventions.
    - Python [int] is [Z]; [IntFlag] values are [Z] bitsets.
    - [dict]/[Counter]/[defaultdict] are [gmap]s; what a read does to a
      missing key ([Counter] answers 0 and stores nothing, [defaultdict]
      stores the default) is written out.
    - An event-loop clock reading ([env.loop.time()], a float) is given by
      its exact value in [Q]; the difference of two readings is rounded as
      IEEE 754 binary64 subtraction rounds it, and [round] is Python's
      round-half-to-even.
    - [datetime] values are [Z] microseconds on the UTC time line and
      [timedelta] is a [Z] number of microseconds; where the code forms a
      [timedelta] or a date from a value of the feed, the [OverflowError]
      of the bounded types is written out.
    - [str] is [string]; [isdecimal] and [int] are given on ASCII text, and
      what they do beyond it is a parameter.
    - Every [await] is a point where other coroutines run.  A coroutine is
      therefore embedded as its synchronous segments; what the awaited
      collaborator answers is an argument of the following segment.
    - [logger] calls append to an explicit list of records. *)

From Stdlib Require Import ZArith QArith Lia.
From stdpp Require Import gmap strings list fin_maps.

Local Open Scope string_scope.
Local Open Scope list_scope.
Local Open Scope Z_scope.

(** ** Logging *)

Module logging.
Definition DEBUG : Z := 10.
Definition INFO : Z := 20.
Definition WARNING : Z := 30.
Definition ERROR : Z := 40.
End logging.

(** The text of a record is kept structured: the constant part of the
    format string and the values spliced into it. *)
Record LogRecord := mkLog {
  levelno : Z;
  msg : string;
  args : list Z
}.

(** ** [TIMEOUT] *)

Definition TIMEOUT : Z := 10 * 60.

(** ** [Counter] *)

(** [Counter.__getitem__]: a missing key reads as 0 and is not stored. *)
Definition counter_get `{Countable K} (c : gmap K Z) (key : K) : Z :=
  default 0 (c !! key).

(** [c[key] += 1]. *)
Definition counter_incr `{Countable K} (key : K) (c : gmap K Z) : gmap K Z :=
  <[key := counter_get c key + 1]> c.

(** [Counter.__iadd__]: add the counts of [other] into [c], then keep only
    the positive counts. *)
Definition counter_iadd `{Countable K} (c other : gmap K Z) : gmap K Z :=
  filter (λ kv, 0 < kv.2) (union_with (λ a b, Some (a + b)) c other).

(** [bool(n)] for an [int]. *)
Definition truthy (n : Z) : bool := negb (n =? 0).

(** ** [MonitoringStat] *)

Record MonitoringStat := mkStat {
  _counter_tier1 : gmap string Z;
  _counter_tier2 : gmap string Z;
  _tier1_last_summary_time : option Q;
  _tier2_last_summary_time : option Q;
  _tier1_summary_period : Z
}.

Module Stat.

(** [MonitoringStat.__init__]. *)
Definition init : MonitoringStat :=
  mkStat ∅ ∅ None None TIMEOUT.

Definition with_tier2 (f : gmap string Z → gmap string Z) (s : MonitoringStat)
  : MonitoringStat :=
  mkStat (_counter_tier1 s) (f (_counter_tier2 s))
         (_tier1_last_summary_time s) (_tier2_last_summary_time s)
         (_tier1_summary_period s).

Definition _sum : MonitoringStat → MonitoringStat :=
  with_tier2 (counter_incr "SUM").

Definition not_updated (s : MonitoringStat) : MonitoringStat :=
  _sum (with_tier2 (counter_incr "not_updated") s).

Definition cached (s : MonitoringStat) : MonitoringStat :=
  not_updated (with_tier2 (counter_incr "cached") s).

Definition empty (s : MonitoringStat) : MonitoringStat :=
  not_updated (with_tier2 (counter_incr "empty") s).

Definition failed (s : MonitoringStat) : MonitoringStat :=
  _sum (with_tier2 (counter_incr "failed") s).

Definition updated (s : MonitoringStat) : MonitoringStat :=
  _sum (with_tier2 (counter_incr "updated") s).

Definition skipped (s : MonitoringStat) : MonitoringStat :=
  _sum (with_tier2 (counter_incr "skipped") s).

Definition timeout (s : MonitoringStat) : MonitoringStat :=
  _sum (with_tier2 (counter_incr "timeout") s).

Definition cancelled (s : MonitoringStat) : MonitoringStat :=
  _sum (with_tier2 (counter_incr "cancelled") s).

Definition unknown_error (s : MonitoringStat) : MonitoringStat :=
  _sum (with_tier2 (counter_incr "unknown_error") s).

Definition timeout_unknown_error (s : MonitoringStat) : MonitoringStat :=
  _sum (with_tier2 (counter_incr "timeout_unknown_error") s).

Definition deferred (s : MonitoringStat) : MonitoringStat :=
  _sum (with_tier2 (counter_incr "deferred") s).

Definition resubmitted (s : MonitoringStat) : MonitoringStat :=
  _sum (with_tier2 (counter_incr "resubmitted") s).

(** [_stat]: the segments of the summary line, each with the numbers it
    shows; a segment guarded by [if counter.x] is left out when the
    count is 0 ([filter(None, ...)] drops the empty strings). *)
Definition segment (label key : string) (c : gmap string Z)
  : list (string * list Z) :=
  if truthy (counter_get c key) then [(label, [counter_get c key])] else [].

Definition _stat (c : gmap string Z) : list (string * list Z) :=
  [("updated", [counter_get c "updated"]);
   ("not updated", [counter_get c "not_updated"; counter_get c "cached";
                    counter_get c "empty"])]
  ++ segment "fetch failed" "failed" c
  ++ segment "skipped" "skipped" c
  ++ segment "cancelled" "cancelled" c
  ++ segment "unknown error" "unknown_error" c
  ++ segment "timeout" "timeout" c
  ++ segment "timeout w/ unknown error" "timeout_unknown_error" c
  ++ segment "deferred" "deferred" c
  ++ segment "resubmitted" "resubmitted" c.

(** What one summary line carries. *)
Record Summary := mkSummary {
  sum_level : Z;
  sum_task_count : Z;
  sum_time_diff : Z;
  sum_stat : list (string * list Z)
}.

Inductive Emitted :=
| SummaryLine (s : Summary)
| NoTaskLine (time_diff : Z).

Definition _summarize (c : gmap string Z) (default_log_level time_diff : Z)
  : Emitted :=
  let task_count := counter_get c "SUM" in
  if truthy task_count then
    SummaryLine
      (mkSummary
         (if truthy (counter_get c "cancelled")
             || truthy (counter_get c "unknown_error")
             || truthy (counter_get c "timeout")
             || truthy (counter_get c "timeout_unknown_error")
          then logging.WARNING else default_log_level)
         task_count time_diff (_stat c))
  else NoTaskLine time_diff.

(** Python's [round(x)] on a clock difference: nearest integer, a tie
    goes to the even neighbour. *)
Definition py_round (x : Q) : Z :=
  let n := Qnum x in
  let d := Zpos (Qden x) in
  let fl := n / d in
  match (2 * (n mod d)) ?= d with
  | Lt => fl
  | Gt => fl + 1
  | Eq => if Z.even fl then fl else fl + 1
  end.

(** [env.loop.time()] is a [float].  A reading is given by its exact
    value, and [a - b] on two readings is what IEEE 754 binary64
    subtraction computes: the exact difference rounded to 53 significant
    bits, a tie going to the even neighbour.  (Clock readings are finite
    and not negative, so their difference does not overflow; where a
    difference of two doubles falls below the normal range it is a double
    itself, and rounding to 53 bits leaves it alone.) *)

(** The exponent of the leading bit of a rational other than 0:
    [2 ^ e <= |x| < 2 ^ (e + 1)]. *)
Definition leading_exponent (x : Q) : Z :=
  let n := Z.abs (Qnum x) in
  let d := Zpos (Qden x) in
  let e := Z.log2 n - Z.log2 d in
  if (if 0 <=? e then 2 ^ e * d <=? n else d <=? n * 2 ^ (- e)) then e
  else e - 1.

Definition float_round (x : Q) : Q :=
  if Qeq_bool x 0 then 0%Q
  else
    let ulp := Qpower 2 (leading_exponent x - 52) in
    (inject_Z (py_round (x / ulp)) * ulp)%Q.

Definition float_sub (a b : Q) : Q := float_round (a - b).

(** [print_summary], with [now = env.loop.time()] passed in.  Returns
    the new state and the lines emitted, oldest first; [None] is the
    [TypeError] of [now - None], raised before anything is changed. *)
Definition print_summary (now : Q) (s : MonitoringStat)
  : option (MonitoringStat * list Emitted) :=
  match _tier1_last_summary_time s with
  | None =>
      Some (mkStat (_counter_tier1 s) (_counter_tier2 s) (Some now) (Some now)
                   (_tier1_summary_period s), [])
  | Some t1 =>
      match _tier2_last_summary_time s with
      | None => None
      | Some t2 =>
          let tier2_time_diff := py_round (float_sub now t2) in
          let line2 :=
            _summarize (_counter_tier2 s) logging.DEBUG tier2_time_diff in
          let tier1 := counter_iadd (_counter_tier1 s) (_counter_tier2 s) in
          let tier1_time_diff := py_round (float_sub now t1) in
          if tier1_time_diff <? _tier1_summary_period s then
            Some (mkStat tier1 ∅ (Some t1) (Some now) (_tier1_summary_period s),
                  [line2])
          else
            let line1 := _summarize tier1 logging.INFO tier1_time_diff in
            Some (mkStat ∅ ∅ (Some now) (Some now) (_tier1_summary_period s),
                  [line2; line1])
      end
  end.

End Stat.

(** ** [TaskState] *)

Module TaskState.
Definition EMPTY : Z := 0.
Definition LOCKED : Z := Z.shiftl 1 0.
Definition IN_PROGRESS : Z := Z.shiftl 1 1.
Definition DEFERRED : Z := Z.shiftl 1 2.
End TaskState.

(** ** The feed record of the store ([db.Feed]) *)

Module db.
Record Feed := mkFeed {
  id : Z;
  link : string;
  title : string;
  etag : option string;
  last_modified : option Z;
  updated_at : Z;
  entry_hashes : option (list string);
  error_count : Z;
  next_check_time : option Z;
  interval : option Z
}.

Record Sub := mkSub {
  user_id : Z;
  sub_title : option string;
  notify : bool
}.
End db.

Inductive FEED_OR_ID :=
| of_Feed (feed : db.Feed)
| of_id (feed_id : Z).

(** ** [Monitor] *)

(** A callback registered with [env.loop.call_later]:
    [_erase_state_for_feed_id(feed_id, flag)] after [delay] seconds. *)
Record Timer := mkTimer {
  delay : Z;
  timer_feed_id : Z;
  timer_flag : Z
}.

(** The instance attributes of [Monitor], together with the two pieces of
    the environment its synchronous methods write to: the timers handed to
    the event loop and the module logger. *)
Record Monitor := mkMonitor {
  _stat : MonitoringStat;
  _queue : list FEED_OR_ID;
  _task_defer_map : gmap Z Z;
  loop_timers : list Timer;
  logger : list LogRecord
}.

(** Exceptions as the [except] clauses of the module tell them apart. *)
Inductive Exc :=
| CancelledError      (* asyncio.CancelledError *)
| Exception_          (* any other subclass of Exception *)
| BaseException_.     (* a BaseException that is neither *)

(** What [await task] gives. *)
Inductive Awaited :=
| Returns
| Raises (e : Exc).

(** What [await asyncio.wait((task,), timeout=TIMEOUT)] gives for the one
    detector task: it is in [done], or it is in [pending] because the
    timeout elapsed first ([unwind] is what awaiting it gives once it has
    been cancelled), or the call itself fails. *)
Inductive WaitOutcome :=
| Done (result : Awaited)
| Pending (unwind : Awaited)
| WaitFails (e : Exc).

Module Mon.

Definition set_stat (f : MonitoringStat → MonitoringStat) (m : Monitor) : Monitor :=
  mkMonitor (f (_stat m)) (_queue m) (_task_defer_map m) (loop_timers m) (logger m).

Definition set_map (dm : gmap Z Z) (m : Monitor) : Monitor :=
  mkMonitor (_stat m) (_queue m) dm (loop_timers m) (logger m).

(** [self._queue.put_nowait(item)] on the unbounded queue. *)
Definition put_nowait (item : FEED_OR_ID) (m : Monitor) : Monitor :=
  mkMonitor (_stat m) (_queue m ++ [item]) (_task_defer_map m) (loop_timers m)
            (logger m).

Definition call_later (t : Timer) (m : Monitor) : Monitor :=
  mkMonitor (_stat m) (_queue m) (_task_defer_map m) (loop_timers m ++ [t])
            (logger m).

Definition log (level : Z) (text : string) (values : list Z) (m : Monitor)
  : Monitor :=
  mkMonitor (_stat m) (_queue m) (_task_defer_map m) (loop_timers m)
            (logger m ++ [mkLog level text values]).

(** [Monitor.__init__]. *)
Definition init : Monitor := mkMonitor Stat.init [] ∅ [] [].

(** Reading [self._task_defer_map[feed_id]]: the [defaultdict] stores
    [TaskState.EMPTY] under a key it does not have. *)
Definition defer_map_get (dm : gmap Z Z) (feed_id : Z) : Z * gmap Z Z :=
  match dm !! feed_id with
  | Some task_state => (task_state, dm)
  | None => (TaskState.EMPTY, <[feed_id := TaskState.EMPTY]> dm)
  end.

(** The state of a feed as any later read sees it. *)
Definition state_of (m : Monitor) (feed_id : Z) : Z :=
  default TaskState.EMPTY (_task_defer_map m !! feed_id).

Section WithOptions.

(** [db.EffectiveOptions.minimal_interval], in minutes. *)
Variable minimal_interval : Z.

Definition _lock_feed_id (feed_id : Z) (m : Monitor) : Monitor :=
  if minimal_interval <=? 1 then m
  else
    call_later (mkTimer (minimal_interval * 60) feed_id TaskState.LOCKED)
      (set_map (<[feed_id := TaskState.LOCKED]> (_task_defer_map m)) m).

Definition submit_feed (feed : db.Feed) (m : Monitor) : Monitor :=
  let '(task_state, dm) := defer_map_get (_task_defer_map m) (db.id feed) in
  let m := set_map dm m in
  if task_state =? TaskState.DEFERRED then
    let m := log logging.WARNING "A deferred task was never resubmitted"
                 [task_state; db.id feed] m in
    put_nowait (of_Feed feed) (_lock_feed_id (db.id feed) m)
  else if truthy task_state then
    let m := set_map (<[db.id feed := Z.lor task_state TaskState.DEFERRED]> dm) m in
    let m := set_stat Stat.deferred m in
    log logging.DEBUG "Deferred" [task_state; db.id feed] m
  else
    put_nowait (of_Feed feed) (_lock_feed_id (db.id feed) m).

Definition _erase_state_for_feed_id (feed_id flag_to_erase : Z) (m : Monitor)
  : Monitor :=
  let '(task_state, dm) := defer_map_get (_task_defer_map m) feed_id in
  let m := set_map dm m in
  if negb (truthy task_state) then
    log logging.WARNING "Unexpected empty state" [task_state; feed_id] m
  else
    let erased_state := Z.land task_state (Z.lnot flag_to_erase) in
    if erased_state =? TaskState.DEFERRED then
      let m := _lock_feed_id feed_id m in
      let m := put_nowait (of_id feed_id) m in
      let m := set_stat Stat.resubmitted m in
      log logging.DEBUG "Resubmitted a deferred task" [task_state; feed_id] m
    else
      set_map (<[feed_id := erased_state]> (_task_defer_map m)) m.

(** A timer of the event loop comes due: it leaves the loop and its
    callback runs. *)
Definition fire_timer (n : nat) (m : Monitor) : Monitor :=
  match loop_timers m !! n with
  | None => m
  | Some t =>
      _erase_state_for_feed_id (timer_feed_id t) (timer_flag t)
        (mkMonitor (_stat m) (_queue m) (_task_defer_map m)
                   (delete n (loop_timers m)) (logger m))
  end.

(** *** [_do_monitor_task], segment by segment *)

(** [self._task_defer_map[feed_id] |= TaskState.IN_PROGRESS]. *)
Definition mark_in_progress (feed_id : Z) (m : Monitor) : Monitor :=
  let '(task_state, dm) := defer_map_get (_task_defer_map m) feed_id in
  set_map (<[feed_id := Z.lor task_state TaskState.IN_PROGRESS]> dm) m.

(** Where the first segment suspends. *)
Inductive Suspended :=
| AwaitFeed (feed_id : Z)                       (* db.Feed.get_or_none(id=feed_id) *)
| AwaitDetector (feed_id : Z) (timeout : Z).    (* asyncio.wait((task,), timeout=...) *)

(** Up to the first [await]. *)
Definition _do_monitor_task_enter (feed : FEED_OR_ID) (m : Monitor)
  : Monitor * Suspended :=
  match feed with
  | of_Feed feed =>
      (mark_in_progress (db.id feed) m, AwaitDetector (db.id feed) TIMEOUT)
  | of_id feed_id => (mark_in_progress feed_id m, AwaitFeed feed_id)
  end.

(** What [await db.Feed.get_or_none(id=feed_id)] gives: the record or
    [None], or an exception, of the store or the [CancelledError] of a
    worker cancelled while it waits. *)
Inductive Lookup :=
| Answered (feed : option db.Feed)
| LookupRaises (e : Exc).

(** How a segment of the coroutine ends. *)
Inductive Resumed :=
| Suspends (s : Suspended)
| Returned
| Propagates (e : Exc).

(** From the end of that [await], for a submitted id, to the next
    suspension.  The [await] stands before the [try] statement: an
    exception out of it leaves the coroutine at once, past the [finally]
    clause, with the table as the first segment left it. *)
Definition _do_monitor_task_resolved (feed_id : Z) (answer : Lookup)
    (m : Monitor) : Monitor * Resumed :=
  match answer with
  | Answered None =>
      let m := log logging.ERROR
                 "Feed not found, but it was submitted to the monitor queue"
                 [feed_id] m in
      (set_map (<[feed_id := TaskState.EMPTY]> (_task_defer_map m)) m, Returned)
  | Answered (Some feed) => (m, Suspends (AwaitDetector feed_id TIMEOUT))
  | LookupRaises e => (m, Propagates e)
  end.

(** What the [try] statement leaves behind. *)
Record Finished := mkFinished {
  monitor : Monitor;
  cancel_called : bool;          (* task.cancel() was called *)
  propagated : option Exc        (* the exception leaving the coroutine *)
}.

(** [for task in pending: ...], the loop body for the detector task
    after [task.cancel()]. *)
Definition on_pending (unwind : Awaited) (m : Monitor) : Monitor * option Exc :=
  match unwind with
  | Returns => (m, None)
  | Raises CancelledError =>
      (log logging.ERROR "Monitoring task timed out" [TIMEOUT]
           (set_stat Stat.timeout m), None)
  | Raises Exception_ =>
      (log logging.ERROR "Monitoring task timed out and caused an unknown error"
           [TIMEOUT] (set_stat Stat.timeout_unknown_error m), None)
  | Raises BaseException_ => (m, Some BaseException_)
  end.

(** [for task in done: ...], the loop body for the detector task. *)
Definition on_done (result : Awaited) (m : Monitor) : Monitor * option Exc :=
  match result with
  | Returns => (m, None)
  | Raises CancelledError =>
      (log logging.ERROR "Monitoring task failed due to CancelledError" []
           (set_stat Stat.cancelled m), None)
  | Raises Exception_ =>
      (log logging.ERROR "Monitoring task failed due to an unknown error" []
           (set_stat Stat.unknown_error m), None)
  | Raises BaseException_ => (m, Some BaseException_)
  end.

(** The outer [except Exception] clause. *)
Definition outer_except (r : Monitor * option Exc) : Monitor * option Exc :=
  match r with
  | (m, Some Exception_) =>
      (log logging.ERROR "Monitoring task failed due to an internal error" []
           (set_stat Stat.unknown_error m), None)
  | _ => r
  end.

(** From the return of [asyncio.wait] to the end of the coroutine. *)
Definition _do_monitor_task_finish (feed_id : Z) (w : WaitOutcome) (m : Monitor)
  : Finished :=
  let body :=
    match w with
    | WaitFails e => (m, Some e)
    | Pending unwind => on_pending unwind m
    | Done result => on_done result m
    end in
  let '(m, exc) := outer_except body in
  mkFinished (_erase_state_for_feed_id feed_id TaskState.IN_PROGRESS m)
             (match w with Pending _ => true | _ => false end)
             exc.

(** [_create_bg_task]: one turn of the dispatcher loop takes the oldest
    item and spawns a worker for it. *)
Definition dispatch (m : Monitor) : option (FEED_OR_ID * Monitor) :=
  match _queue m with
  | [] => None
  | feed :: rest =>
      Some (feed, mkMonitor (_stat m) rest (_task_defer_map m) (loop_timers m)
                            (logger m))
  end.

End WithOptions.

End Mon.


(** ** The fetcher's answer ([web.WebFeed]) *)

Module web.
Record WebResponse := mkWebResponse {
  etag : option string;
  expires : option Z;
  now : Z;
  last_modified : option Z;
  max_age : option Z
}.

(** The parsed document: feed-level fields and the entries, each a
    mapping. *)
Record RssD := mkRssD {
  feed : gmap string string;
  entries : list (gmap string string)
}.

Record WebFeed := mkWebFeed {
  status : Z;
  rss_d : option RssD;
  web_response : option WebResponse;
  url : string;
  error : option string;
  headers : gmap string string
}.

Definition set_now (t : Z) (wr : WebResponse) : WebResponse :=
  mkWebResponse (etag wr) (expires wr) t (last_modified wr) (max_age wr).

Definition set_web_response (wr : WebResponse) (wf : WebFeed) : WebFeed :=
  mkWebFeed (status wf) (rss_d wf) (Some wr) (url wf) (error wf) (headers wf).
End web.

(** ** [datetime] arithmetic and [str] helpers *)

Definition timedelta_seconds (n : Z) : Z := n * 1000000.
Definition timedelta_minutes (n : Z) : Z := timedelta_seconds (n * 60).

Definition is_digit (a : Ascii.ascii) : bool :=
  let n := Z.of_nat (Ascii.nat_of_ascii a) in (48 <=? n) && (n <=? 57).

Fixpoint all_digits (s : string) : bool :=
  match s with
  | EmptyString => true
  | String a rest => is_digit a && all_digits rest
  end.

(** [str.isdecimal()] on ASCII text: non-empty and digits only. *)
Definition isdecimal (s : string) : bool :=
  match s with
  | EmptyString => false
  | _ => all_digits s
  end.

Fixpoint int_of_digits (acc : Z) (s : string) : Z :=
  match s with
  | EmptyString => acc
  | String a rest => int_of_digits (10 * acc + (Z.of_nat (Ascii.nat_of_ascii a) - 48)) rest
  end.

(** [int(s)] for ASCII text that [isdecimal]. *)
Definition int (s : string) : Z := int_of_digits 0 s.

Fixpoint is_ascii (s : string) : bool :=
  match s with
  | EmptyString => true
  | String a rest => (Ascii.nat_of_ascii a <? 128)%nat && is_ascii rest
  end.

(** What [s.isdecimal()] and [int(s)] give together: the text is not
    decimal, or it is and [int] gives its value, or it is and [int] raises
    [ValueError] because the text has more digits than the interpreter
    converts. *)
Inductive Decimal :=
| NotDecimal
| DecimalValue (n : Z)
| IntRaises.

(** The least limit an interpreter can put on the digits [int] converts
    ([sys.int_info.str_digits_check_threshold]). *)
Definition str_digits_check_threshold : Z := 640.

(** A [timedelta] is a number of microseconds.  [timedelta(seconds=n)]
    for an [int]: the days of the normalised duration are [n // 86400],
    and [None] is the [OverflowError] of more than 999999999 days either
    way. *)
Definition timedelta_of_seconds (n : Z) : option Z :=
  if (-999999999 <=? n / 86400) && (n / 86400 <=? 999999999)
  then Some (timedelta_seconds n) else None.

(** An aware [datetime] in a time zone of fixed offset, as a date text
    of RFC 2822 or ISO 8601 carries it: the instant, in microseconds
    since the epoch, and the utcoffset of its [tzinfo], in microseconds.
    Where only the instant matters (comparisons, the times the store
    keeps) a [datetime] is the instant alone. *)
Record AwareDatetime := mkAware {
  instant : Z;
  utcoffset : Z
}.

(** [datetime.min] and [datetime.max] as wall-clock microseconds. *)
Definition datetime_min : Z := -62135596800000000.
Definition datetime_max : Z := 253402300799999999.

(** [d + delta]: the sum is formed on the wall clock of [d], and [None] is
    the [OverflowError] of a year outside 1..9999 there. *)
Definition datetime_add (d : AwareDatetime) (delta : Z) : option Z :=
  let wall_clock := instant d + utcoffset d + delta in
  if (datetime_min <=? wall_clock) && (wall_clock <=? datetime_max)
  then Some (instant d + delta) else None.

(** [bool(s)] for a [str]. *)
Definition nonempty (s : string) : bool :=
  match s with
  | EmptyString => false
  | _ => true
  end.

(** [a or b] for an optional [int]. *)
Definition int_or (a : option Z) (b : Z) : Z :=
  match a with
  | Some n => if truthy n then n else b
  | None => b
  end.

(** ** The update detector *)

Section Detector.

(** Collaborators the detector calls without this module defining them. *)
Variable rfc_2822_8601_to_datetime : string → option AwareDatetime.
(** [isdecimal] and [int] on text that has characters outside ASCII or
    more than 640 digits: the answer depends on the interpreter, on its
    Unicode database and on its limit for [int] conversions. *)
Variable interpreter_decimal : string → Decimal.
Variable format_datetime : Z → string.
Variable html_space_stripper : string → string.
Variable calculate_update :
  option (list string) → list (gmap string string)
  → list string * list (gmap string string).
(** [inner.sub.migrate_to_new_url]: [Some] when the answer is a [db.Feed]. *)
Variable migrate_to_new_url : db.Feed → string → option db.Feed.
(** [db.EffectiveOptions.default_interval], in minutes. *)
Variable default_interval : Z.

Definition cf_cache_statuses : list string :=
  ["HIT"; "MISS"; "EXPIRED"; "REVALIDATED"].

(** The Cloudflare test of [_defer_next_check_as_per_server_side_cache]. *)
Definition cloudflare_expires (wr : web.WebResponse) (hdrs : gmap string string)
  : option Z :=
  match web.expires wr, hdrs !! "cf-cache-status" with
  | Some expires, Some cf =>
      if bool_decide (cf ∈ cf_cache_statuses) && (web.now wr <? expires)
      then Some expires else None
  | _, _ => None
  end.

(** [s.isdecimal()] and, for decimal text, [int(s)]. *)
Definition decimal (s : string) : Decimal :=
  if is_ascii s then
    if isdecimal s then
      if Z.of_nat (String.length s) <=? str_digits_check_threshold
      then DecimalValue (int s) else interpreter_decimal s
    else NotDecimal
  else interpreter_decimal s.

(** The RSSHub test.  [ttl_in_second] is [int(ttl) * 60] when the [ttl]
    string is decimal and the response [max_age] otherwise; the outer
    [None] is the [ValueError] of [int]. *)
Definition ttl_in_second (feed : gmap string string) (wr : web.WebResponse)
  : option (option Z) :=
  let ttl_in_minute_str := default "" (feed !! "ttl") in
  match decimal ttl_in_minute_str with
  | DecimalValue n => Some (Some (n * 60))
  | NotDecimal => Some (web.max_age wr)
  | IntRaises => None
  end.

(** The outer [None] is an exception: the [ValueError] of [int], or the
    [OverflowError] of [timedelta(seconds=...)] or of the addition. *)
Definition rsshub_next_check (feed : gmap string string) (wr : web.WebResponse)
  : option (option Z) :=
  match feed !! "updated" with
  | Some updated_str =>
      if bool_decide (feed !! "generator" = Some "RSSHub") && nonempty updated_str
      then
        match ttl_in_second feed wr with
        | Some (Some ttl) =>
            if truthy ttl && (300 <? ttl) then
              match rfc_2822_8601_to_datetime updated_str with
              | Some updated =>
                  match timedelta_of_seconds ttl with
                  | Some delta =>
                      match datetime_add updated delta with
                      | Some next_check_time =>
                          if web.now wr <? next_check_time
                          then Some (Some next_check_time) else Some None
                      | None => None
                      end
                  | None => None
                  end
              | None => Some None
              end
            else Some None
        | Some None => Some None
        | None => None
        end
      else Some None
  | None => Some None
  end.

(** The outer [None] is an exception: the [assert wr is not None], the
    [AttributeError] of [rss_d.feed] on a missing document, or one out of
    the RSSHub test. *)
Definition _defer_next_check_as_per_server_side_cache (wf : web.WebFeed)
  : option (option Z) :=
  match web.web_response wf with
  | None => None
  | Some wr =>
      match cloudflare_expires wr (web.headers wf) with
      | Some expires => Some (Some expires)
      | None =>
          match web.rss_d wf with
          | None => None
          | Some rss_d => rsshub_next_check (web.feed rss_d) wr
          end
      end
  end.

(** What the detector asks of its collaborators, in order. *)
Inductive Effect :=
| UpdateInterval (feed : db.Feed)
| FeedGet (link : string) (headers : list (string * string))
| DeactivateAndNotifyAll (feed : db.Feed) (subs : list db.Sub) (reason : option string)
| MigrateToNewUrl (feed : db.Feed) (url : string)
| Save (feed : db.Feed) (update_fields : gset string)
| NotifyAll (feed : db.Feed) (subs : list db.Sub) (entry : gmap string string)
| LogLine (level : Z) (text : string).

(** The local variables the [finally] block reads, and what has happened
    so far. *)
Record Locals := mkLocals {
  l_feed : db.Feed;
  no_error : bool;
  new_next_check_time : option Z;
  feed_updated_fields : gset string;
  l_stat : MonitoringStat;
  l_effects : list Effect
}.

(** How the [try] suite is left. *)
Inductive Control :=
| Return_
| FallThrough (updated_entries : list (gmap string string))
| Raise (e : Exc).

Definition set_error_count (n : Z) (f : db.Feed) : db.Feed :=
  db.mkFeed (db.id f) (db.link f) (db.title f) (db.etag f) (db.last_modified f)
            (db.updated_at f) (db.entry_hashes f) n (db.next_check_time f)
            (db.interval f).

Definition set_etag (e : option string) (f : db.Feed) : db.Feed :=
  db.mkFeed (db.id f) (db.link f) (db.title f) e (db.last_modified f)
            (db.updated_at f) (db.entry_hashes f) (db.error_count f)
            (db.next_check_time f) (db.interval f).

Definition set_title (t : string) (f : db.Feed) : db.Feed :=
  db.mkFeed (db.id f) (db.link f) t (db.etag f) (db.last_modified f)
            (db.updated_at f) (db.entry_hashes f) (db.error_count f)
            (db.next_check_time f) (db.interval f).

Definition set_next_check_time (t : option Z) (f : db.Feed) : db.Feed :=
  db.mkFeed (db.id f) (db.link f) (db.title f) (db.etag f) (db.last_modified f)
            (db.updated_at f) (db.entry_hashes f) (db.error_count f) t
            (db.interval f).

Definition set_last_modified_and_hashes (lm : option Z) (hs : option (list string))
    (f : db.Feed) : db.Feed :=
  db.mkFeed (db.id f) (db.link f) (db.title f) (db.etag f) lm
            (db.updated_at f) hs (db.error_count f) (db.next_check_time f)
            (db.interval f).

(** The back-off of a failed fetch, in minutes, when there is one. *)
Definition next_check_interval (feed : db.Feed) : option Z :=
  if 10 <=? db.error_count feed then
    let interval := int_or (db.interval feed) default_interval in
    let next_check_interval :=
      Z.min interval 15 * Z.min (db.error_count feed / 10 + 1) 5 in
    if interval <? next_check_interval then Some next_check_interval else None
  else None.

(** [list(islice(new_hashes, n)) or None]. *)
Definition islice_or_none (new_hashes : list string) (n : Z)
  : option (list string) :=
  match take (Z.to_nat n) new_hashes with
  | [] => None
  | hs => Some hs
  end.

(** *** The [try] suite of [_do_monitor_a_feed] *)

(** [if rss_d is None:], the suite of a failed fetch.  [deactivation] is
    what [await __deactivate_feed_and_notify_all(...)] gives, if the suite
    gets there: an exception out of it leaves the suite before
    [stat.failed()]. *)
Definition on_fetch_failed (now : Z) (feed : db.Feed) (subs : list db.Sub)
    (wf : web.WebFeed) (deactivation : Awaited) (stat : MonitoringStat)
  : Locals * Control :=
  let feed := set_error_count (db.error_count feed + 1) feed in
  let fields : gset string := {["error_count"]} in
  let effects :=
    if db.error_count feed mod 20 =? 0
    then [LogLine logging.WARNING "Fetch failed"] else [] in
  if 100 <=? db.error_count feed then
    let effects :=
      effects ++ [LogLine logging.ERROR "Deactivated due to too many errors";
                  DeactivateAndNotifyAll feed subs (web.error wf)] in
    match deactivation with
    | Returns =>
        (mkLocals feed false None fields (Stat.failed stat) effects, Return_)
    | Raises e => (mkLocals feed false None fields stat effects, Raise e)
    end
  else
    (mkLocals feed false
       (match next_check_interval feed with
        | Some minutes => Some (now + timedelta_minutes minutes)
        | None => None
        end)
       fields (Stat.failed stat)
       (effects ++ [LogLine logging.DEBUG "Fetched (failed)"]),
     Return_).

(** The rest of the suite, for a parsed document [rss_d]. *)
Definition on_fetched (now : Z) (feed : db.Feed) (wf : web.WebFeed)
    (rss_d : web.RssD) (stat : MonitoringStat) : Locals * Control :=
  match web.web_response wf with
  | None => (mkLocals feed true None ∅ stat [], Raise Exception_)
  | Some wr =>
      let wr := web.set_now now wr in
      let wf := web.set_web_response wr wf in
      let '(feed, fields) :=
        match web.etag wr with
        | Some etag =>
            if nonempty etag && negb (bool_decide (Some etag = db.etag feed))
            then (set_etag (Some etag) feed, ({["etag"]} : gset string))
            else (feed, ∅)
        | None => (feed, ∅)
        end in
      match _defer_next_check_as_per_server_side_cache wf with
      | None => (mkLocals feed true None fields stat [], Raise Exception_)
      | Some new_next_check_time =>
          match web.entries rss_d with
          | [] =>
              (mkLocals feed true new_next_check_time fields (Stat.empty stat)
                 [LogLine logging.DEBUG "Fetched (not updated, empty)"],
               Return_)
          | _ =>
              match web.feed rss_d !! "title" with
              | None =>
                  (mkLocals feed true new_next_check_time fields stat [],
                   Raise Exception_)
              | Some title =>
                  let title :=
                    if nonempty title then html_space_stripper title else "" in
                  let '(feed, fields, effects) :=
                    if bool_decide (title = db.title feed) then (feed, fields, [])
                    else (set_title title feed, fields ∪ {["title"]},
                          [LogLine logging.DEBUG "Feed title changed"]) in
                  let '(new_hashes, updated_entries) :=
                    calculate_update (db.entry_hashes feed) (web.entries rss_d) in
                  match updated_entries with
                  | [] =>
                      (mkLocals feed true new_next_check_time fields
                         (Stat.not_updated stat)
                         (effects ++ [LogLine logging.DEBUG "Fetched (not updated)"]),
                       Return_)
                  | _ =>
                      let feed :=
                        set_last_modified_and_hashes (web.last_modified wr)
                          (islice_or_none new_hashes
                             (Z.max (Z.of_nat (length (web.entries rss_d)) * 2) 100))
                          feed in
                      (mkLocals feed true new_next_check_time
                         (fields ∪ {["last_modified"; "entry_hashes"]}) stat
                         (effects ++ [LogLine logging.DEBUG "Updated"]),
                       FallThrough updated_entries)
                  end
              end
          end
      end
  end.

Definition try_suite (now : Z) (feed : db.Feed) (subs : list db.Sub)
    (wf : web.WebFeed) (deactivation : Awaited) (stat : MonitoringStat)
  : Locals * Control :=
  if web.status wf =? 304 then
    (mkLocals feed true None ∅ (Stat.cached stat)
       [LogLine logging.DEBUG "Fetched (not updated, cached)"],
     Return_)
  else
    match web.rss_d wf with
    | None => on_fetch_failed now feed subs wf deactivation stat
    | Some rss_d => on_fetched now feed wf rss_d stat
    end.

(** *** The [finally] suite *)

(** The two awaits of the suite, [migrate_to_new_url] and [feed.save],
    are taken to return: what the suite does is given for the check in
    which they do. *)
Definition finally_suite (wf : web.WebFeed) (l : Locals) : Locals :=
  let feed := l_feed l in
  let fields := feed_updated_fields l in
  let effects := l_effects l in
  let '(feed, fields, effects) :=
    if no_error l then
      let '(feed, fields) :=
        if 0 <? db.error_count feed
        then (set_error_count 0 feed, fields ∪ {["error_count"]})
        else (feed, fields) in
      if negb (bool_decide (web.url wf = db.link feed)) then
        (default feed (migrate_to_new_url feed (web.url wf)), fields,
         effects ++ [MigrateToNewUrl feed (web.url wf)])
      else (feed, fields, effects)
    else (feed, fields, effects) in
  let '(feed, fields) :=
    if negb (bool_decide (new_next_check_time l = db.next_check_time feed))
    then (set_next_check_time (new_next_check_time l) feed,
          fields ∪ {["next_check_time"]})
    else (feed, fields) in
  let effects :=
    if bool_decide (fields = ∅) then effects
    else effects ++ [Save feed fields] in
  mkLocals feed (no_error l) (new_next_check_time l) fields (l_stat l) effects.

(** *** [_do_monitor_a_feed] *)

(** The request headers of the conditional fetch. *)
Definition request_headers (feed : db.Feed) : list (string * string) :=
  ("If-Modified-Since",
   format_datetime (default (db.updated_at feed) (db.last_modified feed)))
  :: match db.etag feed with
     | Some etag => if nonempty etag then [("If-None-Match", etag)] else []
     | None => []
     end.

Record Checked := mkChecked {
  feed_after : db.Feed;
  stat_after : MonitoringStat;
  effects : list Effect;
  raised : option Exc
}.

(** One feed check.  [now] is [datetime.now(timezone.utc)]; [subs] is what
    [feed.subs.filter(state=1)] answers, [flood_locked] what
    [locks.user_flood_lock(user_id).locked()] answers, [wf] what
    [web.feed_get] answers and [fanout] what the one await of the check
    that sends to the subscribers gives: the gathered [__notify_all]
    calls after an update, [__deactivate_feed_and_notify_all] at the
    hundredth failure (a check reaches at most one of the two).  Each is
    consulted only if the check gets that far. *)
Definition _do_monitor_a_feed (now : Z) (subs : list db.Sub)
    (flood_locked : Z → bool) (wf : web.WebFeed) (fanout : Awaited)
    (feed : db.Feed) (stat : MonitoringStat) : Checked :=
  if match db.next_check_time feed with
     | Some next_check_time => now <? next_check_time
     | None => false
     end
  then mkChecked feed (Stat.skipped stat) [] None
  else
    match subs with
    | [] =>
        mkChecked feed (Stat.skipped stat)
          [LogLine logging.WARNING "Feed has no active subscribers";
           UpdateInterval feed] None
    | _ =>
        if forallb (λ sub, flood_locked (db.user_id sub)) subs
        then mkChecked feed (Stat.skipped stat) [] None
        else
          let '(l, control) := try_suite now feed subs wf fanout stat in
          let l := finally_suite wf l in
          let fetched := FeedGet (db.link feed) (request_headers feed) in
          match control with
          | Return_ =>
              mkChecked (l_feed l) (l_stat l) (fetched :: l_effects l) None
          | Raise e =>
              mkChecked (l_feed l) (l_stat l) (fetched :: l_effects l) (Some e)
          | FallThrough updated_entries =>
              let sent :=
                (λ entry, NotifyAll (l_feed l) subs entry) <$> reverse updated_entries in
              match fanout with
              | Returns =>
                  mkChecked (l_feed l) (Stat.updated (l_stat l))
                    (fetched :: l_effects l ++ sent) None
              | Raises e =>
                  mkChecked (l_feed l) (l_stat l)
                    (fetched :: l_effects l ++ sent) (Some e)
              end
          end
    end.

End Detector.


(** ** Delivery: [__send] and [__locked_unsub_all_and_leave_chat] *)

(** The two module-level tables, the calls made to the external
    [unsub_all_and_leave_chat], and the error log. *)
Record Delivery := mkDelivery {
  __user_unsub_all_lock_bucket : gmap Z bool;   (* user_id -> lock.locked() *)
  __user_blocked_counter : gmap Z Z;
  unsub_calls : list Z;
  delivery_log : list LogRecord
}.

Module Deliver.

Definition init : Delivery := mkDelivery ∅ ∅ [] [].

(** [__user_unsub_all_lock_bucket[user_id].locked()]; the [defaultdict]
    makes a fresh, free lock for a user it has not seen. *)
Definition lock_get (bucket : gmap Z bool) (user_id : Z) : bool * gmap Z bool :=
  match bucket !! user_id with
  | Some locked => (locked, bucket)
  | None => (false, <[user_id := false]> bucket)
  end.

(** [__locked_unsub_all_and_leave_chat] up to its only suspension point,
    [await unsub_all_and_leave_chat(user_id)].  The flag tells whether the
    coroutine is suspended there, holding the user's lock; otherwise it
    has returned. *)
Definition locked_unsub_enter (user_id : Z) (d : Delivery) : Delivery * bool :=
  let '(locked, bucket) := lock_get (__user_unsub_all_lock_bucket d) user_id in
  if locked then
    (mkDelivery bucket (__user_blocked_counter d) (unsub_calls d) (delivery_log d),
     false)
  else if counter_get (__user_blocked_counter d) user_id <? 5 then
    (mkDelivery bucket (counter_incr user_id (__user_blocked_counter d))
                (unsub_calls d) (delivery_log d),
     false)
  else
    (mkDelivery (<[user_id := true]> bucket)
                (delete user_id (__user_blocked_counter d))
                (unsub_calls d ++ [user_id])
                (delivery_log d ++ [mkLog logging.ERROR "User blocked" [user_id]]),
     true).

(** The external call has finished (or raised): [async with] releases the
    lock. *)
Definition locked_unsub_exit (user_id : Z) (d : Delivery) : Delivery :=
  mkDelivery (<[user_id := false]> (__user_unsub_all_lock_bucket d))
             (__user_blocked_counter d) (unsub_calls d) (delivery_log d).

(** The coroutine run without anything else scheduled in between. *)
Definition __locked_unsub_all_and_leave_chat (user_id : Z) (d : Delivery)
  : Delivery :=
  let '(d, suspended) := locked_unsub_enter user_id d in
  if suspended then locked_unsub_exit user_id d else d.

(** What the transport does for one [__send].  The tables and the log
    after it are [__send]; whether an exception leaves it is
    [__send_raises]. *)
Inductive SendOutcome :=
| EntityNotFound              (* get_input_entity raised ValueError *)
| Sent                        (* the message went out *)
| UserBlocked                 (* one of UserBlockedErrors *)
| BadRequest (message : string)
| SendFailed.                 (* any other Exception *)

(** [post] is either a plain [str] or a [Post]. *)
Inductive PostKind := PlainText | FormattedPost.

Definition __send (sub : db.Sub) (post : PostKind) (outcome : SendOutcome)
    (d : Delivery) : Delivery :=
  let user_id := db.user_id sub in
  match outcome with
  | EntityNotFound => __locked_unsub_all_and_leave_chat user_id d
  | Sent =>
      match post with
      | PlainText => d
      | FormattedPost =>
          if truthy (counter_get (__user_blocked_counter d) user_id) then
            mkDelivery (__user_unsub_all_lock_bucket d)
                       (delete user_id (__user_blocked_counter d))
                       (unsub_calls d) (delivery_log d)
          else d
      end
  | UserBlocked => __locked_unsub_all_and_leave_chat user_id d
  | BadRequest message =>
      if bool_decide (message = "TOPIC_CLOSED")
      then __locked_unsub_all_and_leave_chat user_id d
      else d
  | SendFailed =>
      match post with
      | PlainText => d
      | FormattedPost =>
          mkDelivery (__user_unsub_all_lock_bucket d) (__user_blocked_counter d)
                     (unsub_calls d)
                     (delivery_log d
                      ++ [mkLog logging.ERROR "Failed to send" [user_id]])
      end
  end.

(** The exception that leaves [__send], if one does.  The handler of a
    failed send formats its log line from [post.link]: on a plain [str]
    that raises [AttributeError] before anything is logged, and the
    exception leaves [__send].  (For a [Post] the error report the
    handler goes on to send is taken to be delivered.) *)
Definition __send_raises (post : PostKind) (outcome : SendOutcome)
  : option Exc :=
  match outcome, post with
  | SendFailed, PlainText => Some Exception_
  | _, _ => None
  end.

(** [n] deliveries to the same subscriber in a row, each failing the way
    a blocked user makes them fail. *)
Fixpoint blocked_failures (n : nat) (sub : db.Sub) (d : Delivery) : Delivery :=
  match n with
  | O => d
  | S n => __send sub FormattedPost UserBlocked (blocked_failures n sub d)
  end.

End Deliver.


(** ** Runs of the statistics object *)

(** The outcome tags, one per tag method of [MonitoringStat]. *)
Inductive Tag :=
| not_updated | cached | empty | failed | updated | skipped | timeout
| cancelled | unknown_error | timeout_unknown_error | deferred | resubmitted.

Definition tag_key (t : Tag) : string :=
  match t with
  | not_updated => "not_updated"
  | cached => "cached"
  | empty => "empty"
  | failed => "failed"
  | updated => "updated"
  | skipped => "skipped"
  | timeout => "timeout"
  | cancelled => "cancelled"
  | unknown_error => "unknown_error"
  | timeout_unknown_error => "timeout_unknown_error"
  | deferred => "deferred"
  | resubmitted => "resubmitted"
  end.

Definition tag_method (t : Tag) : MonitoringStat → MonitoringStat :=
  match t with
  | not_updated => Stat.not_updated
  | cached => Stat.cached
  | empty => Stat.empty
  | failed => Stat.failed
  | updated => Stat.updated
  | skipped => Stat.skipped
  | timeout => Stat.timeout
  | cancelled => Stat.cancelled
  | unknown_error => Stat.unknown_error
  | timeout_unknown_error => Stat.timeout_unknown_error
  | deferred => Stat.deferred
  | resubmitted => Stat.resubmitted
  end.

(** A tag method touches its own key, [SUM], and for [cached] and [empty]
    also [not_updated]. *)
Definition also_not_updated (t : Tag) : bool :=
  match t with
  | cached | empty => true
  | _ => false
  end.

(** A call made on the statistics object: a tag method, or
    [print_summary] at a clock reading. *)
Inductive StatCall :=
| CallTag (t : Tag)
| CallPrintSummary (now : Q).

Definition stat_call (s : MonitoringStat) (c : StatCall) : MonitoringStat :=
  match c with
  | CallTag t => tag_method t s
  | CallPrintSummary now =>
      match Stat.print_summary now s with
      | Some (s', _) => s'
      | None => s
      end
  end.

(** The object after a history of calls, oldest first. *)
Definition stat_after_calls (calls : list StatCall) : MonitoringStat :=
  foldl stat_call Stat.init calls.

Definition is_tag_call (c : StatCall) : Prop :=
  match c with
  | CallTag _ => True
  | CallPrintSummary _ => False
  end.

(** Reading a tier-2 count. *)
Definition tier2 (s : MonitoringStat) (key : string) : Z :=
  counter_get (_counter_tier2 s) key.

Definition tier1 (s : MonitoringStat) (key : string) : Z :=
  counter_get (_counter_tier1 s) key.

(** [SUM] against the ten tags that feed it. *)
Definition sum_of_tags (c : gmap string Z) : Z :=
  counter_get c "not_updated" + counter_get c "failed" + counter_get c "updated"
  + counter_get c "skipped" + counter_get c "timeout" + counter_get c "cancelled"
  + counter_get c "unknown_error" + counter_get c "timeout_unknown_error"
  + counter_get c "deferred" + counter_get c "resubmitted".


(** The keys a tag method adds 1 to. *)
Definition touched_keys (t : Tag) : list string :=
  tag_key t :: "SUM" :: (if also_not_updated t then ["not_updated"] else []).

(** What every history of calls preserves. *)
Record stat_inv (s : MonitoringStat) : Prop := mkStatInv {
  inv_sum2 : tier2 s "SUM" = sum_of_tags (_counter_tier2 s);
  inv_sum1 : tier1 s "SUM" = sum_of_tags (_counter_tier1 s);
  inv_nonneg2 : ∀ k, 0 ≤ tier2 s k;
  inv_nonneg1 : ∀ k, 0 ≤ tier1 s k;
  inv_period : _tier1_summary_period s = TIMEOUT;
  inv_times :
    is_Some (_tier1_last_summary_time s) ↔ is_Some (_tier2_last_summary_time s)
}.


(** ** Runs of the scheduler *)




(** What the worker adds to the statistics for an outcome of the wait. *)
Definition worker_tag (w : WaitOutcome) : option Tag :=
  match w with
  | Pending (Raises CancelledError) => Some timeout
  | Pending (Raises Exception_) => Some timeout_unknown_error
  | Done (Raises CancelledError) => Some cancelled
  | Done (Raises Exception_) => Some unknown_error
  | WaitFails Exception_ => Some unknown_error
  | _ => None
  end.

(** A feed record with a given id, for examples. *)
Definition feed_with_id (feed_id : Z) : db.Feed :=
  db.mkFeed feed_id "https://example.org/feed" "Example" None None 0 None 0
            None None.




(** The run behind the resubmission loop, with locking switched off
    ([minimal_interval = 1]): feed 7 is submitted, dispatched and started,
    and submitted once more while its worker runs. *)
Definition deferred_while_in_progress : Monitor :=
  let feed := feed_with_id 7 in
  let m := Mon.submit_feed 1 feed Mon.init in
  let m := default m (snd <$> Mon.dispatch m) in
  let m := (Mon._do_monitor_task_enter (of_Feed feed) m).1 in
  Mon.submit_feed 1 feed m.



(** ** The cache rules in the words of the specification *)

(** The Cloudflare rule applies and yields [expires]: the response has an
    [expires] time, its [cf-cache-status] header is one of the four
    values, and [expires] is later than [now]. *)
Definition cloudflare_applies (wr : web.WebResponse) (hdrs : gmap string string)
    (expires : Z) : Prop :=
  web.expires wr = Some expires
  ∧ (hdrs !! "cf-cache-status" = Some "HIT"
     ∨ hdrs !! "cf-cache-status" = Some "MISS"
     ∨ hdrs !! "cf-cache-status" = Some "EXPIRED"
     ∨ hdrs !! "cf-cache-status" = Some "REVALIDATED")
  ∧ web.now wr < expires.

(** The ttl in seconds: the feed's decimal [ttl] string as minutes times
    60, or, when the feed has no decimal [ttl], the response [max-age]. *)
Definition specified_ttl (dec : string → Decimal) (feed : gmap string string)
    (wr : web.WebResponse) (ttl : Z) : Prop :=
  (∃ minutes, decimal dec (default "" (feed !! "ttl")) = DecimalValue minutes
              ∧ ttl = minutes * 60)
  ∨ (decimal dec (default "" (feed !! "ttl")) = NotDecimal
     ∧ web.max_age wr = Some ttl).

(** The RSSHub rule is tried and gets as far as the addition: the
    generator is RSSHub, a non-empty [updated] field is present and
    parses, and the ttl is above 300 seconds. *)
Definition rsshub_tried (parse : string → option AwareDatetime)
    (dec : string → Decimal) (feed : gmap string string) (wr : web.WebResponse)
    (updated : AwareDatetime) (ttl : Z) : Prop :=
  feed !! "generator" = Some "RSSHub"
  ∧ ∃ updated_str,
      feed !! "updated" = Some updated_str
      ∧ updated_str ≠ ""
      ∧ specified_ttl dec feed wr ttl
      ∧ 300 < ttl
      ∧ parse updated_str = Some updated.

(** [updated + ttl] can be formed: the ttl is a duration of at most
    999999999 days and the sum is a date of the years 1 to 9999 on the
    wall clock of [updated]. *)
Definition in_range (updated : AwareDatetime) (ttl : Z) : Prop :=
  ttl / 86400 ≤ 999999999
  ∧ -62135596800000000 ≤ instant updated + utcoffset updated + ttl * 1000000
    ≤ 253402300799999999.

#[global] Instance in_range_dec updated ttl : Decision (in_range updated ttl).
Proof. unfold in_range. apply _. Defined.

(** The RSSHub rule applies and yields [t]: it is tried, the sum can be
    formed, and [t = updated + ttl] is later than [now]. *)
Definition rsshub_applies (parse : string → option AwareDatetime)
    (dec : string → Decimal) (feed : gmap string string) (wr : web.WebResponse)
    (t : Z) : Prop :=
  ∃ updated ttl,
    rsshub_tried parse dec feed wr updated ttl
    ∧ in_range updated ttl
    ∧ t = instant updated + ttl * 1000000
    ∧ web.now wr < t.



(** ** Example inputs for the detector *)

(** Stand-ins for the collaborators: dates are decimal microsecond
    strings, titles are left alone, every entry is new, and a moved feed
    is answered with the same record under the new link. *)
Definition example_parse (s : string) : option AwareDatetime :=
  if isdecimal s then Some (mkAware (int s) 0) else None.

(** An interpreter that converts any number of digits and knows no
    decimal characters outside ASCII. *)
Definition example_decimal (s : string) : Decimal :=
  if isdecimal s then DecimalValue (int s) else NotDecimal.

Definition example_calculate_update (hashes : option (list string))
    (entries : list (gmap string string))
  : list string * list (gmap string string) :=
  (default "" <$> ((λ e : gmap string string, e !! "link") <$> entries), entries).

Definition example_migrate (feed : db.Feed) (url : string) : option db.Feed :=
  Some (db.mkFeed (db.id feed) url (db.title feed) (db.etag feed)
          (db.last_modified feed) (db.updated_at feed) (db.entry_hashes feed)
          (db.error_count feed) (db.next_check_time feed) (db.interval feed)).

(** An RSSHub document with a 10-minute ttl, last updated at second 1000. *)
Definition example_rsshub_response : web.WebFeed :=
  web.mkWebFeed 200
    (Some (web.mkRssD
             {["generator" := "RSSHub"; "updated" := "1000000000"; "ttl" := "10"]}
             []))
    (Some (web.mkWebResponse None None 0 None None))
    "https://example.org/feed" None ∅.




(** The check gets as far as the fetch: it is not skipped by schedule,
    there are active subscribers, and not all of them are in flood
    wait. *)
Definition fetch_reached (now : Z) (subs : list db.Sub) (flood_locked : Z → bool)
    (feed : db.Feed) : Prop :=
  (∀ t, db.next_check_time feed = Some t → t ≤ now)
  ∧ subs ≠ []
  ∧ forallb (λ sub, flood_locked (db.user_id sub)) subs = false.

(** A feed with a given failure count, interval and next check time, and
    one active subscriber, for examples. *)
Definition example_feed (error_count : Z) (interval next_check_time : option Z)
  : db.Feed :=
  db.mkFeed 3 "https://example.org/feed" "Example" None None 0 None error_count
            next_check_time interval.

Definition example_subs : list db.Sub := [db.mkSub 42 None true].

Definition nobody_flood_locked (user_id : Z) : bool := false.

(** The fetcher's answer for a failed fetch and for a 304. *)
Definition example_failed_response : web.WebFeed :=
  web.mkWebFeed (-1) None None "https://example.org/feed" (Some "timed out") ∅.

Definition example_cached_response (url : string) : web.WebFeed :=
  web.mkWebFeed 304 None None url None ∅.


(** ** Histories of the scheduler *)

(** [run_periodic_task] after its [await db.Feed.filter(...)]: the debug
    line, then one [submit_feed] per record the store answered with. *)
Definition submit_all (minimal_interval : Z) (feeds : list db.Feed) (m : Monitor)
  : Monitor :=
  foldl (λ m feed, Mon.submit_feed minimal_interval feed m)
        (Mon.log logging.DEBUG "Started a periodic monitoring task." [] m) feeds.

(** [run_periodic_task], with [now = env.loop.time()], the ids
    [EffectiveTasks.get_tasks()] gives and the records the store answers
    with.  [None] is the [TypeError] of [print_summary]. *)
Definition run_periodic_task (minimal_interval : Z) (now : Q)
    (feed_id_to_monitor : list Z) (feeds : list db.Feed) (m : Monitor)
  : option (Monitor * list Stat.Emitted) :=
  match Stat.print_summary now (_stat m) with
  | None => None
  | Some (stat, lines) =>
      let m := Mon.set_stat (λ _, stat) m in
      match feed_id_to_monitor with
      | [] => Some (m, lines)
      | _ => Some (submit_all minimal_interval feeds m, lines)
      end
  end.

(** Whatever touches a [Monitor]: the producer submits, the dispatcher
    takes an item, a worker passes one of its segments, a timer comes due,
    a detector records its outcome. *)
Inductive MonitorStep :=
| StepSubmit (feed : db.Feed)
| StepDispatch
| StepEnter (item : FEED_OR_ID)
| StepResolved (feed_id : Z) (answer : Mon.Lookup)
| StepFinish (feed_id : Z) (w : WaitOutcome)
| StepTimer (n : nat)
| StepTag (t : Tag).

Definition monitor_step (minimal_interval : Z) (m : Monitor) (step : MonitorStep)
  : Monitor :=
  match step with
  | StepSubmit feed => Mon.submit_feed minimal_interval feed m
  | StepDispatch => default m (snd <$> Mon.dispatch m)
  | StepEnter item => (Mon._do_monitor_task_enter item m).1
  | StepResolved feed_id answer =>
      (Mon._do_monitor_task_resolved feed_id answer m).1
  | StepFinish feed_id w =>
      Mon.monitor (Mon._do_monitor_task_finish minimal_interval feed_id w m)
  | StepTimer n => Mon.fire_timer minimal_interval n m
  | StepTag t => Mon.set_stat (tag_method t) m
  end.

Definition monitor_steps (minimal_interval : Z) (steps : list MonitorStep)
    (m : Monitor) : Monitor :=
  foldl (monitor_step minimal_interval) m steps.

(** The feed id whose table entry a step works on, if any. *)
Definition step_feed_id (m : Monitor) (step : MonitorStep) : option Z :=
  match step with
  | StepSubmit feed => Some (db.id feed)
  | StepEnter (of_Feed feed) => Some (db.id feed)
  | StepEnter (of_id feed_id) => Some feed_id
  | StepResolved feed_id _ => Some feed_id
  | StepFinish feed_id _ => Some feed_id
  | StepTimer n => timer_feed_id <$> loop_timers m !! n
  | StepDispatch | StepTag _ => None
  end.

(** The three flags together. *)
Definition all_flags : Z :=
  Z.lor TaskState.LOCKED (Z.lor TaskState.IN_PROGRESS TaskState.DEFERRED).

(** The next state of the entry an erase works on. *)
Definition erased_state (minimal_interval st flag : Z) : Z :=
  if st =? TaskState.EMPTY then TaskState.EMPTY
  else if Z.land st (Z.lnot flag) =? TaskState.DEFERRED then
    if minimal_interval <=? 1 then st else TaskState.LOCKED
  else Z.land st (Z.lnot flag).

(** The next state of the entry a submit works on. *)
Definition submitted_state (minimal_interval st : Z) : Z :=
  if (st =? TaskState.DEFERRED) || (st =? TaskState.EMPTY) then
    if minimal_interval <=? 1 then st else TaskState.LOCKED
  else Z.lor st TaskState.DEFERRED.

(** What every history keeps true of the table and the timers. *)
Record monitor_inv (minimal_interval : Z) (m : Monitor) : Prop := mkMonitorInv {
  inv_flags : ∀ feed_id, Z.land (Mon.state_of m feed_id) all_flags
                         = Mon.state_of m feed_id;
  inv_not_lone_deferred : ∀ feed_id, Mon.state_of m feed_id ≠ TaskState.DEFERRED;
  inv_timers :
    Forall (λ t, timer_flag t = TaskState.LOCKED
                 ∧ delay t = minimal_interval * 60 ∧ 1 < minimal_interval)
           (loop_timers m);
  inv_unlocked :
    minimal_interval ≤ 1 →
    ∀ feed_id, Z.testbit (Mon.state_of m feed_id) 0 = false
}.


(** The state a step leaves in the entry it works on. *)
Definition stepped_state (minimal_interval : Z) (m : Monitor) (step : MonitorStep)
    (st : Z) : Z :=
  match step with
  | StepSubmit _ => submitted_state minimal_interval st
  | StepEnter _ => Z.lor st TaskState.IN_PROGRESS
  | StepResolved _ (Mon.Answered None) => TaskState.EMPTY
  | StepResolved _ _ => st
  | StepFinish _ _ => erased_state minimal_interval st TaskState.IN_PROGRESS
  | StepTimer n =>
      match loop_timers m !! n with
      | Some t => erased_state minimal_interval st (timer_flag t)
      | None => st
      end
  | StepDispatch | StepTag _ => st
  end.


(** What a single table entry keeps true. *)
Definition entry_inv (minimal_interval st : Z) : Prop :=
  Z.land st all_flags = st
  ∧ st ≠ TaskState.DEFERRED
  ∧ (minimal_interval ≤ 1 → Z.testbit st 0 = false).


(** A timer as [_lock_feed_id] registers it. *)
Definition lock_timer (minimal_interval : Z) (t : Timer) : Prop :=
  timer_flag t = TaskState.LOCKED
  ∧ delay t = minimal_interval * 60 ∧ 1 < minimal_interval.

(** The items a history has put into the queue and not yet dispatched,
    counted together with the deferrals it has recorded. *)
Definition submissions (m : Monitor) : Z :=
  Z.of_nat (length (_queue m)) + tier2 (_stat m) "deferred".


(** An erase of [flag] on state [st] takes the resubmission path. *)
Definition resubmits (st flag : Z) : bool :=
  negb (st =? TaskState.EMPTY)
  && (Z.land st (Z.lnot flag) =? TaskState.DEFERRED).

(** A submit on state [st] enqueues the feed. *)
Definition enqueues (st : Z) : bool :=
  (st =? TaskState.DEFERRED) || (st =? TaskState.EMPTY).

(** The timer [_lock_feed_id] registers, if locking is on. *)
Definition lock_timers (minimal_interval feed_id : Z) : list Timer :=
  if minimal_interval <=? 1 then []
  else [mkTimer (minimal_interval * 60) feed_id TaskState.LOCKED].


(** The feed id an item of the queue stands for. *)
Definition item_id (item : FEED_OR_ID) : Z :=
  match item with
  | of_Feed feed => db.id feed
  | of_id feed_id => feed_id
  end.


(** ** Windows of the statistics *)

(** How many of the recorded tags add to a key. *)
Definition recorded (key : string) (tags : list Tag) : Z :=
  Z.of_nat (length (filter (λ t, key ∈ touched_keys t) tags)).

(** The four outcomes that raise a summary line to a warning. *)
Definition abnormal (t : Tag) : bool :=
  match t with
  | cancelled | unknown_error | timeout | timeout_unknown_error => true
  | _ => false
  end.

(** [cached] and [empty] never outnumber [not_updated]. *)
Definition breakdown_covered (c : gmap string Z) : Prop :=
  counter_get c "cached" + counter_get c "empty" ≤ counter_get c "not_updated".


(** ** Reading the effects of a check *)

Definition saved (e : Effect) : option (db.Feed * gset string) :=
  match e with
  | Save feed update_fields => Some (feed, update_fields)
  | _ => None
  end.

Definition notified (e : Effect) : option (db.Feed * list db.Sub * gmap string string) :=
  match e with
  | NotifyAll feed subs entry => Some (feed, subs, entry)
  | _ => None
  end.

Definition migrated (e : Effect) : option (db.Feed * string) :=
  match e with
  | MigrateToNewUrl feed url => Some (feed, url)
  | _ => None
  end.

Definition deactivated (e : Effect) : option (db.Feed * list db.Sub * option string) :=
  match e with
  | DeactivateAndNotifyAll feed subs reason => Some (feed, subs, reason)
  | _ => None
  end.

(** The names of the fields a check may mark as changed. *)
Definition writable_fields : gset string :=
  {["error_count"; "etag"; "title"; "last_modified"; "entry_hashes";
    "next_check_time"]}.

(** The outcomes a detector records itself. *)
Definition detector_tags : list Tag :=
  [skipped; cached; empty; not_updated; failed; updated].


(** The fetch failed: the answer is not a 304 and carries no document. *)
Definition fetch_failed (wf : web.WebFeed) : bool :=
  negb (web.status wf =? 304) && bool_decide (web.rss_d wf = None).


(** The fetcher's answer for a document with a title and two entries. *)
Definition example_updated_response : web.WebFeed :=
  web.mkWebFeed 200
    (Some (web.mkRssD {["title" := "Example"]}
             [{["link" := "https://example.org/1"]};
              {["link" := "https://example.org/2"]}]))
    (Some (web.mkWebResponse None None 0 (Some 5000000) None))
    "https://example.org/feed" None ∅.



(** ** Histories of the delivery tables *)

(** The outcomes of the transport on which [__send] goes on to
    [__locked_unsub_all_and_leave_chat]. *)
Definition unsubscribing (outcome : Deliver.SendOutcome) : bool :=
  match outcome with
  | Deliver.EntityNotFound | Deliver.UserBlocked => true
  | Deliver.BadRequest message => bool_decide (message = "TOPIC_CLOSED")
  | Deliver.Sent | Deliver.SendFailed => false
  end.

(** [__send] from the answer of the transport up to where the coroutine
    next gives up control: its end, or the pending
    [await unsub_all_and_leave_chat(user_id)] with the user's lock
    held. *)
Definition send_enter (sub : db.Sub) (post : Deliver.PostKind)
    (outcome : Deliver.SendOutcome) (d : Delivery) : Delivery * bool :=
  if unsubscribing outcome then Deliver.locked_unsub_enter (db.user_id sub) d
  else (Deliver.__send sub post outcome d, false).

(** [lock.locked()] for a user, without creating the lock. *)
Definition lock_held (d : Delivery) (user_id : Z) : bool :=
  default false (__user_unsub_all_lock_bucket d !! user_id).

(** The rest of a [__send] whose [unsub_all_and_leave_chat] was pending:
    [async with] releases the lock, and an [Exception] out of the call is
    caught by the outer handler of [__send]. *)
Definition send_resume (sub : db.Sub) (post : Deliver.PostKind)
    (result : Awaited) (d : Delivery) : Delivery :=
  let d := Deliver.locked_unsub_exit (db.user_id sub) d in
  match result with
  | Raises Exception_ => Deliver.__send sub post Deliver.SendFailed d
  | _ => d
  end.

(** What the event loop can run on the tables: the part of a [__send]
    after the transport has answered, and the resumption of a [__send]
    whose unsubscription was pending.  The lock of a user is held exactly
    while such a call is pending, so a resumption for a user whose lock is
    free stands for no coroutine and does nothing. *)
Inductive DeliveryStep :=
| SendRuns (sub : db.Sub) (post : Deliver.PostKind) (outcome : Deliver.SendOutcome)
| UnsubEnds (sub : db.Sub) (post : Deliver.PostKind) (result : Awaited).

Definition delivery_step (d : Delivery) (step : DeliveryStep) : Delivery :=
  match step with
  | SendRuns sub post outcome => (send_enter sub post outcome d).1
  | UnsubEnds sub post result =>
      if lock_held d (db.user_id sub) then send_resume sub post result d else d
  end.

Definition delivery_steps (steps : list DeliveryStep) (d : Delivery) : Delivery :=
  foldl delivery_step d steps.

Definition step_user (step : DeliveryStep) : Z :=
  match step with
  | SendRuns sub _ _ | UnsubEnds sub _ _ => db.user_id sub
  end.

(** The calls of [unsub_all_and_leave_chat] made for a user. *)
Definition unsubs (d : Delivery) (user_id : Z) : Z :=
  Z.of_nat (length (filter (λ u, u = user_id) (unsub_calls d))).

(** The sends to a user in a history that ended in one of the
    unsubscribing outcomes. *)
Definition is_failure (user_id : Z) (step : DeliveryStep) : bool :=
  match step with
  | SendRuns sub _ outcome =>
      bool_decide (db.user_id sub = user_id) && unsubscribing outcome
  | UnsubEnds _ _ _ => false
  end.

Definition failures (user_id : Z) (steps : list DeliveryStep) : Z :=
  Z.of_nat (length (filter (λ step, is_failure user_id step = true) steps)).

(** The pending unsubscriptions of a user that a history has seen end. *)
Definition is_end (user_id : Z) (step : DeliveryStep) : bool :=
  match step with
  | SendRuns _ _ _ => false
  | UnsubEnds sub _ _ => bool_decide (db.user_id sub = user_id)
  end.

Definition unsub_ends (user_id : Z) (steps : list DeliveryStep) : Z :=
  Z.of_nat (length (filter (λ step, is_end user_id step = true) steps)).

(** What the tables hold for one user. *)
Definition user_view (d : Delivery) (user_id : Z) : option bool * option Z * Z :=
  (__user_unsub_all_lock_bucket d !! user_id,
   __user_blocked_counter d !! user_id,
   unsubs d user_id).

(** [delivery_step] as seen from one user's entries: what a step of that
    user does to them. *)
Definition view_step (view : option bool * option Z * Z) (step : DeliveryStep)
  : option bool * option Z * Z :=
  let '(lock, count, calls) := view in
  match step with
  | SendRuns _ post outcome =>
      if unsubscribing outcome then
        if default false lock then (lock, count, calls)
        else if default 0 count <? 5
             then (Some false, Some (default 0 count + 1), calls)
             else (Some true, None, calls + 1)
      else
        match outcome, post with
        | Deliver.Sent, Deliver.FormattedPost =>
            if truthy (default 0 count) then (lock, None, calls)
            else (lock, count, calls)
        | _, _ => (lock, count, calls)
        end
  | UnsubEnds _ _ _ =>
      if default false lock then (Some false, count, calls)
      else (lock, count, calls)
  end.

(** The invariant of one user's entries, with the failures and the ended
    unsubscriptions of the history so far: a counter entry is between 1
    and 5, a user whose lock is held has no counter entry, every
    unsubscription took six failures, and there are no more
    unsubscriptions than ended ones plus the pending one. *)
Definition view_inv (view : option bool * option Z * Z) (failed ended : Z)
  : Prop :=
  let '(lock, count, calls) := view in
  (∀ n, count = Some n → 1 ≤ n ≤ 5)
  ∧ (default false lock = true → count = None)
  ∧ 6 * calls + default 0 count ≤ failed
  ∧ calls ≤ ended + (if default false lock then 1 else 0).

Definition delivery_inv (steps : list DeliveryStep) (d : Delivery) : Prop :=
  ∀ user_id,
    view_inv (user_view d user_id) (failures user_id steps)
             (unsub_ends user_id steps).



(** ** What happens to a feed while nothing works on it *)

(** No step of a history works on the entry of [feed_id]: each step is
    judged on the [Monitor] it runs on. *)
Fixpoint leaves_alone (minimal_interval feed_id : Z) (steps : list MonitorStep)
    (m : Monitor) : Prop :=
  match steps with
  | [] => True
  | step :: steps =>
      step_feed_id m step ≠ Some feed_id
      ∧ leaves_alone minimal_interval feed_id steps
          (monitor_step minimal_interval m step)
  end.

(** The timers pending for a feed. *)
Definition feed_timers (feed_id : Z) (m : Monitor) : list Timer :=
  filter (λ t, timer_feed_id t = feed_id) (loop_timers m).

(** A worker for the resubmitted id 3 has just found its record gone,
    with locking on ([minimal_interval = 5]): feed 3 was submitted,
    dispatched and started, submitted again while its worker ran, its lock
    expired, and the end of the worker resubmitted the id, locking it
    again; the worker of the resubmission started and the store answered
    [None]. *)
Definition record_gone : Monitor :=
  let feed := feed_with_id 3 in
  monitor_steps 5
    [StepSubmit feed; StepDispatch; StepEnter (of_Feed feed); StepSubmit feed;
     StepTimer 0; StepFinish 3 (Done Returns); StepDispatch;
     StepEnter (of_id 3); StepResolved 3 (Mon.Answered None)]
    Mon.init.


(** * Properties *)

(** ** Counters *)

Section CounterFacts.
Context `{Countable K}.
Implicit Types (c : gmap K Z) (k : K).

Lemma counter_get_incr c k k' :
  counter_get (counter_incr k c) k'
  = if decide (k = k') then counter_get c k + 1 else counter_get c k'.
Proof.
  unfold counter_incr, counter_get at 1.
  rewrite lookup_insert. case_decide; subst; reflexivity.
Qed.

Lemma counter_get_incr_eq c k :
  counter_get (counter_incr k c) k = counter_get c k + 1.
Proof. rewrite counter_get_incr. case_decide; congruence. Qed.

Lemma counter_get_incr_ne c k k' :
  k ≠ k' → counter_get (counter_incr k c) k' = counter_get c k'.
Proof. intros Hne. rewrite counter_get_incr. case_decide; congruence. Qed.

Lemma counter_get_empty k : counter_get (∅ : gmap K Z) k = 0.
Proof. unfold counter_get. rewrite lookup_empty. reflexivity. Qed.

Lemma counter_get_delete c k k' :
  counter_get (delete k c) k'
  = if decide (k = k') then 0 else counter_get c k'.
Proof.
  unfold counter_get. rewrite lookup_delete. case_decide; reflexivity.
Qed.

(** Adding counters adds the counts, as long as no count is negative: a
    sum that is not positive is dropped and then reads as 0. *)
Lemma counter_get_iadd c other k :
  0 ≤ counter_get c k → 0 ≤ counter_get other k →
  counter_get (counter_iadd c other) k = counter_get c k + counter_get other k.
Proof.
  unfold counter_iadd, counter_get.
  rewrite map_lookup_filter, lookup_union_with.
  destruct (c !! k) as [x|], (other !! k) as [y|]; simpl; intros Hx Hy;
    try case_guard; simpl in *; lia.
Qed.

End CounterFacts.

(** ** Statistics *)

Lemma tier2_with_tier2 s key k :
  tier2 (Stat.with_tier2 (counter_incr key) s) k
  = if decide (key = k) then tier2 s key + 1 else tier2 s k.
Proof. unfold tier2. simpl. apply counter_get_incr. Qed.

Lemma tier1_with_tier2 f s k : tier1 (Stat.with_tier2 f s) k = tier1 s k.
Proof. reflexivity. Qed.

(** Unfold a tag method down to the counter reads it changes. *)
Ltac tag_method_reads :=
  unfold tag_method, Stat.cached, Stat.empty, Stat.not_updated, Stat.failed,
    Stat.updated, Stat.skipped, Stat.timeout, Stat.cancelled,
    Stat.unknown_error, Stat.timeout_unknown_error, Stat.deferred,
    Stat.resubmitted, Stat._sum;
  rewrite ?tier2_with_tier2;
  repeat (case_decide; try discriminate; try congruence).

Lemma tag_method_own t s :
  tier2 (tag_method t s) (tag_key t) = tier2 s (tag_key t) + 1.
Proof. destruct t; simpl tag_key; tag_method_reads. Qed.

Lemma tag_method_SUM t s :
  tier2 (tag_method t s) "SUM" = tier2 s "SUM" + 1.
Proof. destruct t; tag_method_reads. Qed.

Lemma tag_method_not_updated t s :
  also_not_updated t = true →
  tier2 (tag_method t s) "not_updated" = tier2 s "not_updated" + 1.
Proof. destruct t; try discriminate; intros _; tag_method_reads. Qed.

Lemma tag_method_frame t s k :
  k ≠ tag_key t → k ≠ "SUM" →
  (also_not_updated t = true → k ≠ "not_updated") →
  tier2 (tag_method t s) k = tier2 s k.
Proof.
  destruct t; simpl; intros H1 H2 H3; try specialize (H3 eq_refl);
    tag_method_reads.
Qed.

Lemma tag_method_sum_of_tags t s :
  sum_of_tags (_counter_tier2 (tag_method t s))
  = sum_of_tags (_counter_tier2 s) + 1.
Proof.
  unfold sum_of_tags.
  repeat match goal with
         | |- context [counter_get (_counter_tier2 ?x) ?k] =>
             change (counter_get (_counter_tier2 x) k) with (tier2 x k)
         end.
  destruct t; tag_method_reads; lia.
Qed.

Lemma tag_method_tier2 t s k :
  tier2 (tag_method t s) k
  = tier2 s k + (if bool_decide (k ∈ touched_keys t) then 1 else 0).
Proof.
  destruct t; unfold touched_keys; simpl tag_key; simpl also_not_updated;
    unfold tag_method, Stat.cached, Stat.empty, Stat.not_updated, Stat.failed,
      Stat.updated, Stat.skipped, Stat.timeout, Stat.cancelled,
      Stat.unknown_error, Stat.timeout_unknown_error, Stat.deferred,
      Stat.resubmitted, Stat._sum;
    rewrite ?tier2_with_tier2;
    case_bool_decide as Hin;
    rewrite ?elem_of_cons, ?not_elem_of_cons, ?elem_of_nil in Hin;
    repeat match goal with
           | |- context [decide (?a = ?b)] =>
               let Heq := fresh "Heq" in
               destruct (decide (a = b)) as [Heq|?];
               [first [discriminate Heq | subst b | clear Heq] |]
           end;
    solve [lia | intuition congruence].
Qed.

Lemma tag_method_tier1 t s k : tier1 (tag_method t s) k = tier1 s k.
Proof. destruct t; reflexivity. Qed.

Lemma tag_method_times t s :
  _tier1_last_summary_time (tag_method t s) = _tier1_last_summary_time s
  ∧ _tier2_last_summary_time (tag_method t s) = _tier2_last_summary_time s
  ∧ _tier1_summary_period (tag_method t s) = _tier1_summary_period s
  ∧ _counter_tier1 (tag_method t s) = _counter_tier1 s.
Proof. destruct t; repeat split; reflexivity. Qed.

Lemma sum_of_tags_empty : sum_of_tags ∅ = 0.
Proof. reflexivity. Qed.

Lemma sum_of_tags_iadd (c other : gmap string Z) :
  (∀ k, 0 ≤ counter_get c k) → (∀ k, 0 ≤ counter_get other k) →
  sum_of_tags (counter_iadd c other) = sum_of_tags c + sum_of_tags other.
Proof.
  intros Hc Ho. unfold sum_of_tags.
  rewrite !counter_get_iadd by auto. lia.
Qed.

Lemma stat_inv_init : stat_inv Stat.init.
Proof.
  split; simpl; reflexivity.
Qed.

Lemma stat_inv_tag t s : stat_inv s → stat_inv (tag_method t s).
Proof.
  intros [H2 H1 N2 N1 P T].
  destruct (tag_method_times t s) as (E1 & E2 & E3 & E4).
  split.
  - rewrite tag_method_sum_of_tags, tag_method_SUM. lia.
  - unfold tier1. rewrite E4. exact H1.
  - intros k. rewrite tag_method_tier2. specialize (N2 k).
    destruct (bool_decide _); lia.
  - intros k. rewrite tag_method_tier1. apply N1.
  - congruence.
  - rewrite E1, E2. exact T.
Qed.

Lemma stat_inv_print_summary now s s' lines :
  stat_inv s → Stat.print_summary now s = Some (s', lines) → stat_inv s'.
Proof.
  intros [H2 H1 N2 N1 P T]. unfold Stat.print_summary.
  destruct (_tier1_last_summary_time s) as [t1|].
  - destruct (_tier2_last_summary_time s) as [t2|]; [|discriminate].
    assert (Hadd : ∀ k, counter_get
                     (counter_iadd (_counter_tier1 s) (_counter_tier2 s)) k
                   = tier1 s k + tier2 s k).
    { intros k. apply counter_get_iadd; [apply N1 | apply N2]. }
    destruct (_ <? _); intros [= <- <-]; split; simpl;
      unfold tier1, tier2; simpl;
      rewrite ?counter_get_empty, ?sum_of_tags_empty; try done;
      try (intros k; rewrite ?counter_get_empty; try lia);
      try (split; intros _; eauto).
    + rewrite Hadd. rewrite sum_of_tags_iadd by (first [apply N1 | apply N2]).
      unfold tier1, tier2 in *. lia.
    + rewrite Hadd. specialize (N1 k). specialize (N2 k). lia.
  - intros [= <- <-]. split; simpl; done.
Qed.

Lemma stat_inv_call s c : stat_inv s → stat_inv (stat_call s c).
Proof.
  intros Hs. destruct c as [t|now]; simpl.
  - by apply stat_inv_tag.
  - destruct (Stat.print_summary now s) as [[s' lines]|] eqn:E; [|done].
    by eapply stat_inv_print_summary.
Qed.

Lemma stat_inv_after_calls calls : stat_inv (stat_after_calls calls).
Proof.
  unfold stat_after_calls.
  induction calls as [|c calls IH] using rev_ind; simpl.
  - apply stat_inv_init.
  - rewrite foldl_app. simpl. by apply stat_inv_call.
Qed.

(** C8.  Each tag method adds exactly 1 to the tier-2 counts of its
    touched keys and leaves every other tier-2 count alone: [cached] and
    [empty] touch their own key, [not_updated] and [SUM]; every other tag
    method, [deferred] and [resubmitted] included, touches its own key and
    [SUM].  Hence, after any history of calls on a fresh object, tier-2
    [SUM] is the sum of the ten tags [not_updated], [failed], [updated],
    [skipped], [timeout], [cancelled], [unknown_error],
    [timeout_unknown_error], [deferred] and [resubmitted]. *)
Theorem tag_methods_count_once :
  (∀ s, tier2 (Stat.cached s) "cached" = tier2 s "cached" + 1
        ∧ tier2 (Stat.cached s) "not_updated" = tier2 s "not_updated" + 1
        ∧ tier2 (Stat.cached s) "SUM" = tier2 s "SUM" + 1)
  ∧ (∀ s, tier2 (Stat.empty s) "empty" = tier2 s "empty" + 1
          ∧ tier2 (Stat.empty s) "not_updated" = tier2 s "not_updated" + 1
          ∧ tier2 (Stat.empty s) "SUM" = tier2 s "SUM" + 1)
  ∧ (∀ t s k,
       tier2 (tag_method t s) k
       = tier2 s k + (if bool_decide (k ∈ touched_keys t) then 1 else 0))
  ∧ (∀ t, touched_keys t
          = if also_not_updated t then [tag_key t; "SUM"; "not_updated"]
            else [tag_key t; "SUM"])
  ∧ (∀ calls,
       tier2 (stat_after_calls calls) "SUM"
       = sum_of_tags (_counter_tier2 (stat_after_calls calls))).
Proof.
  split; [|split; [|split; [|split]]].
  - intros s. repeat split.
    + apply (tag_method_own cached).
    + by apply (tag_method_not_updated cached).
    + apply (tag_method_SUM cached).
  - intros s. repeat split.
    + apply (tag_method_own empty).
    + by apply (tag_method_not_updated empty).
    + apply (tag_method_SUM empty).
  - apply tag_method_tier2.
  - by intros [].
  - intros calls. apply (inv_sum2 _ (stat_inv_after_calls calls)).
Qed.

(** [round] reaches the ten-minute period exactly from 599.5 seconds on:
    the tie at 599.5 goes to the even neighbour 600. *)
Lemma py_round_reaches_TIMEOUT (x : Q) :
  TIMEOUT ≤ Stat.py_round x ↔ (1199 # 2 <= x)%Q.
Proof.
  destruct x as [p q]. unfold Stat.py_round, Qle, TIMEOUT. simpl.
  pose proof (Z.div_mod p (Z.pos q) ltac:(lia)) as Hdm.
  pose proof (Z.mod_pos_bound p (Z.pos q) ltac:(lia)) as Hr.
  set (fl := p / Z.pos q) in *. set (r := p mod Z.pos q) in *.
  destruct (Z.compare_spec (2 * r) (Z.pos q)) as [He|Hl|Hg].
  - destruct (Z.even fl) eqn:Ev.
    + split; intros Hle; [nia|].
      destruct (decide (fl = 599)) as [->|]; [discriminate|]. nia.
    + split; intros Hle; nia.
  - split; intros Hle; nia.
  - split; intros Hle; nia.
Qed.

Lemma print_summary_sets_baseline now s s' lines :
  Stat.print_summary now s = Some (s', lines) →
  is_Some (_tier1_last_summary_time s').
Proof.
  unfold Stat.print_summary.
  destruct (_tier1_last_summary_time s) as [t1|];
    [destruct (_tier2_last_summary_time s) as [t2|]; [|discriminate];
     destruct (_ <? _)|];
    intros [= <- <-]; simpl; eauto.
Qed.

Lemma print_summary_total now s :
  stat_inv s → is_Some (Stat.print_summary now s).
Proof.
  intros Hs. unfold Stat.print_summary.
  destruct (_tier1_last_summary_time s) as [t1|] eqn:E1; [|eauto].
  destruct (proj1 (inv_times _ Hs)) as [t2 E2]; [rewrite E1; eauto|].
  rewrite E2. destruct (_ <? _); eauto.
Qed.

(** No baseline is recorded exactly as long as [print_summary] has not
    been called. *)
Lemma no_baseline_iff_never_printed calls :
  _tier1_last_summary_time (stat_after_calls calls) = None
  ↔ Forall is_tag_call calls.
Proof.
  unfold stat_after_calls.
  induction calls as [|c calls IH] using rev_ind; simpl.
  - split; [constructor | reflexivity].
  - rewrite foldl_app, Forall_app, Forall_singleton. simpl.
    destruct c as [t|now]; simpl.
    + destruct (tag_method_times t (foldl stat_call Stat.init calls)) as [-> _].
      rewrite IH. tauto.
    + destruct (print_summary_total now _ (stat_inv_after_calls calls))
        as [[s' lines] E].
      unfold stat_after_calls in E. rewrite E.
      destruct (print_summary_sets_baseline _ _ _ _ E) as [t Et].
      rewrite Et. split; [discriminate | tauto].
Qed.

(** C9, as the code has it.  On an object that has seen any history of
    calls: if [print_summary] was never called before, the call records
    [now] as both baselines, emits nothing and leaves both counters as
    they are.  Otherwise it emits the tier-2 line (the window summary, or
    the no-task line when tier-2 [SUM] is 0), adds every tier-2 count to
    its tier-1 count, clears tier-2 and moves the tier-2 baseline to
    [now]; and it then emits the tier-1 line and clears tier-1 exactly
    when [round(now - last tier-1 emit)] reaches 600, that is exactly
    when the difference of the two readings, as float subtraction
    computes it, is at least 599.5. *)
Theorem print_summary_two_tiers (calls : list StatCall) (now : Q) :
  let s := stat_after_calls calls in
  (Forall is_tag_call calls ↔ _tier1_last_summary_time s = None)
  ∧ match _tier1_last_summary_time s with
    | None =>
        Stat.print_summary now s
        = Some (mkStat (_counter_tier1 s) (_counter_tier2 s)
                       (Some now) (Some now) TIMEOUT, [])
    | Some t1 =>
        ∃ t2 folded,
          _tier2_last_summary_time s = Some t2
          ∧ (∀ key, counter_get folded key = tier1 s key + tier2 s key)
          ∧ Stat.print_summary now s
            = Some
                (let line2 :=
                   Stat._summarize (_counter_tier2 s) logging.DEBUG
                     (Stat.py_round (Stat.float_sub now t2)) in
                 if Qle_bool (1199 # 2) (Stat.float_sub now t1) then
                   (mkStat ∅ ∅ (Some now) (Some now) TIMEOUT,
                    [line2;
                     Stat._summarize folded logging.INFO
                       (Stat.py_round (Stat.float_sub now t1))])
                 else
                   (mkStat folded ∅ (Some t1) (Some now) TIMEOUT, [line2]))
    end.
Proof.
  intros s. split; [symmetry; apply no_baseline_iff_never_printed|].
  pose proof (stat_inv_after_calls calls) as Hs. fold s in Hs.
  unfold Stat.print_summary.
  destruct (_tier1_last_summary_time s) as [t1|] eqn:E1.
  - destruct (proj1 (inv_times _ Hs)) as [t2 E2]; [rewrite E1; eauto|].
    exists t2, (counter_iadd (_counter_tier1 s) (_counter_tier2 s)).
    split; [exact E2|]. split.
    + intros key. apply counter_get_iadd; [apply (inv_nonneg1 _ Hs) | apply (inv_nonneg2 _ Hs)].
    + rewrite E2, (inv_period _ Hs). simpl.
      destruct (Qle_bool (1199 # 2) (Stat.float_sub now t1)) eqn:Hq.
      * apply Qle_bool_iff, py_round_reaches_TIMEOUT in Hq.
        destruct (Z.ltb_spec (Stat.py_round (Stat.float_sub now t1)) TIMEOUT); [lia|done].
      * destruct (Z.ltb_spec (Stat.py_round (Stat.float_sub now t1)) TIMEOUT); [done|].
        assert (Qle_bool (1199 # 2) (Stat.float_sub now t1) = true) as Hq'; [|congruence].
        by apply Qle_bool_iff, py_round_reaches_TIMEOUT.
  - by rewrite (inv_period _ Hs).
Qed.

(** C9 as stated fails half a second early.  The baseline is recorded at
    clock reading 0 and one update is counted; at reading 599.5, less
    than 600 seconds later, [print_summary] emits the tier-1 line and
    resets tier-1.  The difference that counts is the computed one: for
    the doubles nearest to 0.001 and 599.501 the exact difference is
    below 599.5, the computed one is 599.5, and the tier-1 line is
    emitted as well. *)
Lemma print_summary_emits_tier1_before_600s :
  let s := stat_after_calls [CallPrintSummary 0; CallTag updated] in
  let t := (1152921504606847 # 1152921504606846976)%Q in
  let now := (2636633281453359 # 4398046511104)%Q in
  let s' := stat_after_calls [CallPrintSummary t; CallTag updated] in
  _tier1_last_summary_time s = Some 0%Q
  ∧ ((1199 # 2) - 0 < 600)%Q
  ∧ (∃ line2 stat1,
       Stat.print_summary (1199 # 2) s
       = Some (mkStat ∅ ∅ (Some (1199 # 2)) (Some (1199 # 2)) TIMEOUT,
               [line2;
                Stat.SummaryLine (Stat.mkSummary logging.INFO 1 600 stat1)]))
  ∧ _tier1_last_summary_time s' = Some t
  ∧ (now - t < 1199 # 2)%Q
  ∧ ∃ line2 stat1,
      Stat.print_summary now s'
      = Some (mkStat ∅ ∅ (Some now) (Some now) TIMEOUT,
              [line2;
               Stat.SummaryLine (Stat.mkSummary logging.INFO 1 600 stat1)]).
Proof.
  split; [reflexivity|]. split; [reflexivity|].
  split; [eexists _, _; vm_compute; reflexivity|].
  split; [reflexivity|]. split; [reflexivity|].
  eexists _, _. vm_compute. reflexivity.
Qed.

(** ** The task-state table *)

Lemma defer_map_get_state dm feed_id :
  (Mon.defer_map_get dm feed_id).1 = default TaskState.EMPTY (dm !! feed_id).
Proof. unfold Mon.defer_map_get. by destruct (dm !! feed_id). Qed.

Lemma defer_map_get_lookup dm feed_id :
  (Mon.defer_map_get dm feed_id).2 !! feed_id
  = Some (default TaskState.EMPTY (dm !! feed_id)).
Proof.
  unfold Mon.defer_map_get. destruct (dm !! feed_id) eqn:E; simpl.
  - exact E.
  - apply lookup_insert_eq.
Qed.

Lemma defer_map_get_insert dm feed_id x :
  <[feed_id := x]> (Mon.defer_map_get dm feed_id).2 = <[feed_id := x]> dm.
Proof.
  unfold Mon.defer_map_get. destruct (dm !! feed_id); simpl; [done|].
  apply insert_insert_eq.
Qed.

Lemma defer_map_get_present dm feed_id :
  default TaskState.EMPTY (dm !! feed_id) ≠ TaskState.EMPTY →
  (Mon.defer_map_get dm feed_id).2 = dm.
Proof. unfold Mon.defer_map_get. by destruct (dm !! feed_id). Qed.

Lemma state_of_insert m dm feed_id x :
  Mon.state_of (Mon.set_map (<[feed_id := x]> dm) m) feed_id = x.
Proof. unfold Mon.state_of. simpl. by rewrite lookup_insert_eq. Qed.


Lemma lock_feed_id_on mi feed_id m :
  1 < mi →
  Mon._lock_feed_id mi feed_id m
  = Mon.call_later (mkTimer (mi * 60) feed_id TaskState.LOCKED)
      (Mon.set_map (<[feed_id := TaskState.LOCKED]> (_task_defer_map m)) m).
Proof. intros. unfold Mon._lock_feed_id. by rewrite (proj2 (Z.leb_gt _ _)). Qed.

Lemma truthy_true n : n ≠ 0 → truthy n = true.
Proof. intros. unfold truthy. by rewrite (proj2 (Z.eqb_neq _ _)). Qed.

(** [submit_feed] on a feed that has some flag besides a lone [DEFERRED]. *)
Lemma submit_feed_busy mi feed m :
  Mon.state_of m (db.id feed) ≠ TaskState.EMPTY →
  Mon.state_of m (db.id feed) ≠ TaskState.DEFERRED →
  Mon.submit_feed mi feed m
  = Mon.log logging.DEBUG "Deferred" [Mon.state_of m (db.id feed); db.id feed]
      (Mon.set_stat Stat.deferred
         (Mon.set_map
            (<[db.id feed := Z.lor (Mon.state_of m (db.id feed)) TaskState.DEFERRED]>
               (_task_defer_map m)) m)).
Proof.
  intros Hne Hnd. unfold Mon.submit_feed, Mon.state_of in *.
  pose proof (defer_map_get_state (_task_defer_map m) (db.id feed)) as E1.
  pose proof (defer_map_get_insert (_task_defer_map m) (db.id feed)) as E2.
  destruct (Mon.defer_map_get _ _) as [st dm']. simpl in *. subst st.
  rewrite (proj2 (Z.eqb_neq _ _) Hnd), truthy_true by done.
  by rewrite E2.
Qed.

(** [submit_feed] on a feed whose state is a lone [DEFERRED]. *)
Lemma submit_feed_lone_deferred mi feed m :
  Mon.state_of m (db.id feed) = TaskState.DEFERRED →
  Mon.submit_feed mi feed m
  = Mon.put_nowait (of_Feed feed)
      (Mon._lock_feed_id mi (db.id feed)
         (Mon.log logging.WARNING "A deferred task was never resubmitted"
            [TaskState.DEFERRED; db.id feed] m)).
Proof.
  intros Hd. unfold Mon.submit_feed, Mon.state_of in *.
  pose proof (defer_map_get_state (_task_defer_map m) (db.id feed)) as E1.
  pose proof (defer_map_get_present (_task_defer_map m) (db.id feed)) as E2.
  destruct (Mon.defer_map_get _ _) as [st dm']. simpl in *. subst st.
  rewrite Hd in *. rewrite E2 by done. simpl. by destruct m.
Qed.




(** [task_state & ~flag_to_erase].  Older interpreters give [~flag] as
    the integer complement, newer ones as the complement within the three
    named flags; on a state made of those flags the two agree. *)
Lemma erase_mask_within_flags st flag :
  0 ≤ st < 8 →
  Z.land st (Z.lnot flag) = Z.land st (Z.land 7 (Z.lnot flag)).
Proof.
  intros Hst. rewrite Z.land_assoc. f_equal.
  change 7 with (Z.ones 3). rewrite Z.land_ones by lia.
  symmetry. apply Z.mod_small. lia.
Qed.

(** The defer-and-resubmit scenario with a five-minute minimal interval:
    a submit locks and enqueues; a second submit while the worker runs
    only sets [DEFERRED]; the unlock timer leaves [IN_PROGRESS | DEFERRED];
    the worker's end re-locks, enqueues the id and counts a
    resubmission. *)
Example defer_and_resubmit_scenario :
  let feed := feed_with_id 5 in
  let m1 := Mon.submit_feed 5 feed Mon.init in
  let m2 := (Mon._do_monitor_task_enter (of_Feed feed)
               (default m1 (snd <$> Mon.dispatch m1))).1 in
  let m3 := Mon.submit_feed 5 feed m2 in
  let m4 := Mon.fire_timer 5 0 m3 in
  let m5 := Mon.monitor (Mon._do_monitor_task_finish 5 5 (Done Returns) m4) in
  (Mon.state_of m1 5 = TaskState.LOCKED ∧ _queue m1 = [of_Feed feed])
  ∧ Mon.state_of m2 5 = Z.lor TaskState.LOCKED TaskState.IN_PROGRESS
  ∧ (Mon.state_of m3 5 = 7 ∧ _queue m3 = [] ∧ tier2 (_stat m3) "deferred" = 1)
  ∧ Mon.state_of m4 5 = Z.lor TaskState.IN_PROGRESS TaskState.DEFERRED
  ∧ (Mon.state_of m5 5 = TaskState.LOCKED ∧ _queue m5 = [of_id 5]
     ∧ tier2 (_stat m5) "resubmitted" = 1
     ∧ loop_timers m5 = [mkTimer 300 5 TaskState.LOCKED]).
Proof. vm_compute. repeat split. Qed.

(** [_erase_state_for_feed_id], branch by branch. *)
Lemma erase_on_empty mi feed_id flag m :
  Mon.state_of m feed_id = TaskState.EMPTY →
  Mon._erase_state_for_feed_id mi feed_id flag m
  = Mon.log logging.WARNING "Unexpected empty state" [TaskState.EMPTY; feed_id]
      (Mon.set_map (Mon.defer_map_get (_task_defer_map m) feed_id).2 m).
Proof.
  intros He. unfold Mon._erase_state_for_feed_id, Mon.state_of in *.
  pose proof (defer_map_get_state (_task_defer_map m) feed_id) as E1.
  destruct (Mon.defer_map_get _ _) as [st dm']. simpl in *. subst st.
  by rewrite He.
Qed.

Lemma erase_resubmits mi feed_id flag m :
  Mon.state_of m feed_id ≠ TaskState.EMPTY →
  Z.land (Mon.state_of m feed_id) (Z.lnot flag) = TaskState.DEFERRED →
  Mon._erase_state_for_feed_id mi feed_id flag m
  = Mon.log logging.DEBUG "Resubmitted a deferred task"
      [Mon.state_of m feed_id; feed_id]
      (Mon.set_stat Stat.resubmitted
         (Mon.put_nowait (of_id feed_id) (Mon._lock_feed_id mi feed_id m))).
Proof.
  intros Hne Hd. unfold Mon._erase_state_for_feed_id, Mon.state_of in *.
  pose proof (defer_map_get_state (_task_defer_map m) feed_id) as E1.
  pose proof (defer_map_get_present (_task_defer_map m) feed_id Hne) as E2.
  destruct (Mon.defer_map_get _ _) as [st dm']. simpl in *. subst st dm'.
  rewrite truthy_true by done. simpl. rewrite Hd. simpl. by destruct m.
Qed.

Lemma erase_writes_back mi feed_id flag m :
  Mon.state_of m feed_id ≠ TaskState.EMPTY →
  Z.land (Mon.state_of m feed_id) (Z.lnot flag) ≠ TaskState.DEFERRED →
  Mon._erase_state_for_feed_id mi feed_id flag m
  = Mon.set_map
      (<[feed_id := Z.land (Mon.state_of m feed_id) (Z.lnot flag)]>
         (_task_defer_map m)) m.
Proof.
  intros Hne Hd. unfold Mon._erase_state_for_feed_id, Mon.state_of in *.
  pose proof (defer_map_get_state (_task_defer_map m) feed_id) as E1.
  pose proof (defer_map_get_present (_task_defer_map m) feed_id Hne) as E2.
  destruct (Mon.defer_map_get _ _) as [st dm']. simpl in *. subst st dm'.
  rewrite truthy_true by done. simpl.
  by rewrite (proj2 (Z.eqb_neq _ _) Hd).
Qed.

Lemma state_of_defer_map_get m feed_id g :
  Mon.state_of (Mon.set_map (Mon.defer_map_get (_task_defer_map m) feed_id).2 m) g
  = Mon.state_of m g.
Proof.
  unfold Mon.state_of, Mon.defer_map_get. simpl.
  destruct (_task_defer_map m !! feed_id) eqn:E; simpl; [done|].
  destruct (decide (feed_id = g)) as [->|Hne].
  - by rewrite lookup_insert_eq, E.
  - by rewrite lookup_insert_ne.
Qed.


Lemma mark_in_progress_spec feed_id m :
  Mon.mark_in_progress feed_id m
  = Mon.set_map
      (<[feed_id := Z.lor (Mon.state_of m feed_id) TaskState.IN_PROGRESS]>
         (_task_defer_map m)) m.
Proof.
  unfold Mon.mark_in_progress, Mon.state_of.
  pose proof (defer_map_get_state (_task_defer_map m) feed_id) as E1.
  pose proof (defer_map_get_insert (_task_defer_map m) feed_id) as E2.
  destruct (Mon.defer_map_get _ _) as [st dm']. simpl in *. subst st.
  by rewrite E2.
Qed.

(** The statistics a worker is left with before its final erase. *)
Lemma finish_before_erase mi feed_id w m :
  ∃ m1,
    Mon.monitor (Mon._do_monitor_task_finish mi feed_id w m)
    = Mon._erase_state_for_feed_id mi feed_id TaskState.IN_PROGRESS m1
    ∧ _stat m1 = from_option tag_method (λ s, s) (worker_tag w) (_stat m)
    ∧ _queue m1 = _queue m
    ∧ _task_defer_map m1 = _task_defer_map m
    ∧ loop_timers m1 = loop_timers m.
Proof.
  unfold Mon._do_monitor_task_finish.
  destruct w as [[|[]]|[|[]]|[]]; simpl; eexists; (split; [reflexivity|]);
    simpl; done.
Qed.







(** After the final erase the [IN_PROGRESS] bit is gone whenever locking
    is on. *)
Lemma erase_in_progress_clears_bit mi feed_id m :
  1 < mi →
  Z.testbit
    (Mon.state_of
       (Mon._erase_state_for_feed_id mi feed_id TaskState.IN_PROGRESS m) feed_id)
    1 = false.
Proof.
  intros Hon.
  destruct (decide (Mon.state_of m feed_id = TaskState.EMPTY)) as [He|Hne].
  - rewrite erase_on_empty by done.
    change (Z.testbit
              (Mon.state_of
                 (Mon.set_map (Mon.defer_map_get (_task_defer_map m) feed_id).2 m)
                 feed_id) 1 = false).
    by rewrite state_of_defer_map_get, He.
  - destruct (decide (Z.land (Mon.state_of m feed_id)
                        (Z.lnot TaskState.IN_PROGRESS) = TaskState.DEFERRED))
      as [Hd|Hd].
    + rewrite erase_resubmits, lock_feed_id_on by done.
      unfold Mon.state_of. simpl. by rewrite lookup_insert_eq.
    + rewrite erase_writes_back by done.
      rewrite state_of_insert, Z.land_spec. apply andb_false_r.
Qed.

(** ** The update detector *)

Example int_of_decimal_string : isdecimal "90" = true ∧ int "90" = 90.
Proof. split; reflexivity. Qed.

Example isdecimal_rejects : isdecimal "" = false ∧ isdecimal "1.5" = false.
Proof. split; reflexivity. Qed.

Lemma nonempty_true s : nonempty s = true ↔ s ≠ "".
Proof. destruct s; simpl; split; congruence. Qed.

Lemma cloudflare_expires_spec wr hdrs e :
  cloudflare_expires wr hdrs = Some e ↔ cloudflare_applies wr hdrs e.
Proof.
  unfold cloudflare_expires, cloudflare_applies, cf_cache_statuses.
  destruct (web.expires wr) as [x|]; [|split; [done | by intros [? _]]].
  destruct (hdrs !! "cf-cache-status") as [cf|];
    [|split; [done | by intros (_ & [?|[?|[?|?]]] & _)]].
  case_bool_decide as Hin;
    rewrite ?elem_of_cons, ?not_elem_of_cons, ?elem_of_nil in Hin; simpl.
  - destruct (Z.ltb_spec (web.now wr) x).
    + split; [|by intros ([= <-] & _ & _)].
      intros [= <-]. split; [done|]. split; [|done].
      destruct Hin as [->|[->|[->|[->|[]]]]]; auto.
    + split; [done|]. intros ([= <-] & _ & ?). lia.
  - split; [done|].
    intros (_ & [[= ->]|[[= ->]|[[= ->]|[= ->]]]] & _); tauto.
Qed.

Lemma ttl_in_second_spec dec feed wr ttl :
  ttl_in_second dec feed wr = Some (Some ttl) ↔ specified_ttl dec feed wr ttl.
Proof.
  unfold ttl_in_second, specified_ttl.
  destruct (decimal dec _) as [|n|]; split.
  - intros [= Hm]. by right.
  - intros [(n & ? & _)|[_ ->]]; done.
  - intros [= <-]. left. by exists n.
  - intros [(n' & [= <-] & ->)|[? _]]; done.
  - done.
  - intros [(n & ? & _)|[? _]]; done.
Qed.

Lemma ttl_in_second_raises dec feed wr :
  ttl_in_second dec feed wr = None
  ↔ decimal dec (default "" (feed !! "ttl")) = IntRaises.
Proof. unfold ttl_in_second. by destruct (decimal dec _). Qed.

(** [updated + timedelta(seconds=ttl)] for a ttl above 300. *)
Lemma updated_plus_ttl updated ttl :
  300 < ttl →
  match timedelta_of_seconds ttl with
  | Some delta => datetime_add updated delta
  | None => None
  end
  = if decide (in_range updated ttl)
    then Some (instant updated + ttl * 1000000) else None.
Proof.
  intros Httl. unfold timedelta_of_seconds, datetime_add, in_range,
    timedelta_seconds, datetime_min, datetime_max.
  assert (0 ≤ ttl / 86400) by (apply Z.div_pos; lia).
  rewrite (proj2 (Z.leb_le (-999999999) (ttl / 86400))) by lia.
  cbn [andb].
  destruct (Z.leb_spec (ttl / 86400) 999999999) as [Hd|Hd].
  - destruct (Z.leb_spec (-62135596800000000)
                (instant updated + utcoffset updated + ttl * 1000000)) as [Hl|Hl];
      cbn [andb].
    + destruct (Z.leb_spec (instant updated + utcoffset updated + ttl * 1000000)
                  253402300799999999) as [Hu|Hu].
      * by rewrite decide_True.
      * rewrite decide_False; [done|]. intros (_ & _ & ?). lia.
    + rewrite decide_False; [done|]. intros (_ & ? & _). lia.
  - rewrite decide_False; [done|]. intros (? & _). lia.
Qed.

Lemma rsshub_tried_unique parse dec feed wr u1 ttl1 u2 ttl2 :
  rsshub_tried parse dec feed wr u1 ttl1 →
  rsshub_tried parse dec feed wr u2 ttl2 →
  u1 = u2 ∧ ttl1 = ttl2.
Proof.
  intros (_ & s1 & Hs1 & _ & Ht1 & _ & Hp1) (_ & s2 & Hs2 & _ & Ht2 & _ & Hp2).
  apply ttl_in_second_spec in Ht1, Ht2. simplify_eq. done.
Qed.

(** The RSSHub test, when it gets as far as the addition. *)
Lemma rsshub_next_check_tried parse dec feed wr updated ttl :
  rsshub_tried parse dec feed wr updated ttl →
  rsshub_next_check parse dec feed wr
  = if decide (in_range updated ttl)
    then if web.now wr <? instant updated + ttl * 1000000
         then Some (Some (instant updated + ttl * 1000000)) else Some None
    else None.
Proof.
  intros (Hg & u & Hu & Hne & Ht & Hgt & Hp).
  apply ttl_in_second_spec in Ht. apply nonempty_true in Hne.
  unfold rsshub_next_check.
  rewrite Hu, bool_decide_eq_true_2, Hne, Ht by done. cbn [andb].
  rewrite truthy_true by lia. rewrite (proj2 (Z.ltb_lt _ _) Hgt), Hp.
  cbn [andb].
  pose proof (updated_plus_ttl updated ttl Hgt) as Hsum.
  destruct (timedelta_of_seconds ttl) as [delta|].
  - rewrite Hsum. by destruct (decide _).
  - by destruct (decide _).
Qed.

(** The RSSHub test, when it does not get that far: it raises on the
    conversion of the [ttl] string, or gives none. *)
Lemma rsshub_next_check_not_tried parse dec feed wr :
  (∀ updated ttl, ¬ rsshub_tried parse dec feed wr updated ttl) →
  let raises :=
    feed !! "generator" = Some "RSSHub"
    ∧ (∃ updated_str, feed !! "updated" = Some updated_str ∧ updated_str ≠ "")
    ∧ decimal dec (default "" (feed !! "ttl")) = IntRaises in
  (raises ∧ rsshub_next_check parse dec feed wr = None)
  ∨ (¬ raises ∧ rsshub_next_check parse dec feed wr = Some None).
Proof.
  intros Hnot raises. subst raises. unfold rsshub_next_check.
  destruct (feed !! "updated") as [u|] eqn:Hu.
  2:{ right. split; [|done]. by intros (_ & (? & ? & _) & _). }
  case_bool_decide as Hg; cbn [andb].
  2:{ right. split; [|done]. by intros (? & _). }
  destruct (nonempty u) eqn:Hne.
  2:{ right. split; [|done]. intros (_ & (u' & [= <-] & Hu') & _).
      apply nonempty_true in Hu'. congruence. }
  apply nonempty_true in Hne.
  destruct (ttl_in_second dec feed wr) as [[ttl|]|] eqn:Ht.
  - right.
    assert (decimal dec (default "" (feed !! "ttl")) ≠ IntRaises) as Hd.
    { intros Hd. apply ttl_in_second_raises with (wr := wr) in Hd. congruence. }
    split; [by intros (_ & _ & ?)|].
    apply ttl_in_second_spec in Ht.
    destruct (Z.ltb_spec 300 ttl) as [Hgt|Hle]; [|by rewrite andb_false_r].
    rewrite truthy_true by lia. cbn [andb].
    destruct (parse u) as [updated|] eqn:Hp; [|done].
    destruct (Hnot updated ttl). split; [done|]. by exists u.
  - right. split; [|done]. intros (_ & _ & Hd).
    apply ttl_in_second_raises with (wr := wr) in Hd. congruence.
  - left. apply ttl_in_second_raises in Ht. split; [|done].
    split; [done|]. split; [by exists u | done].
Qed.

Lemma rsshub_tried_dec parse dec feed wr :
  (∃ updated ttl, rsshub_tried parse dec feed wr updated ttl)
  ∨ (∀ updated ttl, ¬ rsshub_tried parse dec feed wr updated ttl).
Proof.
  unfold rsshub_tried.
  destruct (decide (feed !! "generator" = Some "RSSHub")) as [Hg|Hg];
    [|right; by intros ? ? [? _]].
  destruct (feed !! "updated") as [u|] eqn:Hu;
    [|right; by intros ? ? (_ & ? & ? & _)].
  destruct (decide (u = "")) as [->|Hne];
    [right; by intros ? ? (_ & ? & [= <-] & ? & _)|].
  destruct (ttl_in_second dec feed wr) as [[ttl|]|] eqn:Ht.
  - destruct (decide (300 < ttl)) as [Hgt|Hle].
    + destruct (parse u) as [updated|] eqn:Hp.
      * left. exists updated, ttl. split; [done|]. exists u.
        by rewrite <- ttl_in_second_spec.
      * right. intros ? ? (_ & ? & [= <-] & _ & _ & _ & ?). congruence.
    + right. intros ? ttl' (_ & ? & _ & _ & Ht' & ? & _).
      apply ttl_in_second_spec in Ht'. rewrite Ht in Ht'.
      injection Ht' as <-. lia.
  - right. intros ? ttl' (_ & ? & _ & _ & Ht' & _).
    apply ttl_in_second_spec in Ht'. congruence.
  - right. intros ? ttl' (_ & ? & _ & _ & Ht' & _).
    apply ttl_in_second_spec in Ht'. congruence.
Qed.

Lemma rsshub_next_check_spec parse dec feed wr t :
  rsshub_next_check parse dec feed wr = Some (Some t)
  ↔ rsshub_applies parse dec feed wr t.
Proof.
  split.
  - intros Hr.
    destruct (rsshub_tried_dec parse dec feed wr) as [(updated & ttl & Ht)|Hnot].
    + rewrite (rsshub_next_check_tried _ _ _ _ _ _ Ht) in Hr.
      destruct (decide (in_range updated ttl)); [|done].
      destruct (Z.ltb_spec (web.now wr) (instant updated + ttl * 1000000));
        [|done].
      injection Hr as <-. by exists updated, ttl.
    + destruct (rsshub_next_check_not_tried _ _ _ _ Hnot) as [[_ E]|[_ E]];
        congruence.
  - intros (updated & ttl & Ht & Hin & -> & Hnow).
    rewrite (rsshub_next_check_tried _ _ _ _ _ _ Ht), decide_True by done.
    by rewrite (proj2 (Z.ltb_lt _ _) Hnow).
Qed.






Section DetectorFacts.

Variable parse : string → option AwareDatetime.
Variable dec : string → Decimal.
Variable format_datetime : Z → string.
Variable strip : string → string.
Variable calc :
  option (list string) → list (gmap string string)
  → list string * list (gmap string string).
Variable migrate : db.Feed → string → option db.Feed.
Variable default_interval : Z.

Local Abbreviation check :=
  (_do_monitor_a_feed parse dec format_datetime strip calc migrate
     default_interval).

(** Past the three early exits the check is its [try] and [finally]
    suites and, when the [try] suite falls through, the fan-out. *)
Lemma check_unfolds_when_fetch_reached now subs flood_locked wf fanout feed stat :
  fetch_reached now subs flood_locked feed →
  check now subs flood_locked wf fanout feed stat
  = let '(l, control) :=
      try_suite parse dec strip calc default_interval now feed subs wf fanout
        stat in
    let l := finally_suite migrate wf l in
    let fetched := FeedGet (db.link feed) (request_headers format_datetime feed) in
    match control with
    | Return_ => mkChecked (l_feed l) (l_stat l) (fetched :: l_effects l) None
    | Raise e => mkChecked (l_feed l) (l_stat l) (fetched :: l_effects l) (Some e)
    | FallThrough updated_entries =>
        let sent :=
          (λ entry, NotifyAll (l_feed l) subs entry) <$> reverse updated_entries in
        match fanout with
        | Returns =>
            mkChecked (l_feed l) (Stat.updated (l_stat l))
              (fetched :: l_effects l ++ sent) None
        | Raises e =>
            mkChecked (l_feed l) (l_stat l) (fetched :: l_effects l ++ sent)
              (Some e)
        end
    end.
Proof.
  intros (Hsched & Hsubs & Hflood). unfold _do_monitor_a_feed.
  destruct (db.next_check_time feed) as [t|] eqn:Et.
  - specialize (Hsched t eq_refl).
    rewrite (proj2 (Z.ltb_ge _ _)) by done.
    destruct subs; [done|]. by rewrite Hflood.
  - destruct subs; [done|]. by rewrite Hflood.
Qed.


(** C6.  A check gets to the fetch, the fetch fails, and the failure
    count after the increment is at least 10 and below 100.  With
    [interval' = feed.interval or default_interval] and
    [candidate = min(interval', 15) * min(error_count // 10 + 1, 5)], the
    feed ends with [next_check_time = now + candidate] minutes exactly
    when [candidate > interval'], and with none otherwise; [failed] (and
    [SUM]) is incremented by exactly 1 and nothing else is counted.  For
    a tenth failure of a feed with interval 10 the candidate is 20, so the
    next check is 20 minutes after [now]. *)
Theorem failed_fetch_backs_off (now : Z) (subs : list db.Sub)
    (flood_locked : Z → bool) (wf : web.WebFeed) (fanout : Awaited)
    (feed : db.Feed) (stat : MonitoringStat) :
  fetch_reached now subs flood_locked feed →
  web.status wf ≠ 304 →
  web.rss_d wf = None →
  10 ≤ db.error_count feed + 1 < 100 →
  let r := check now subs flood_locked wf fanout feed stat in
  let error_count := db.error_count feed + 1 in
  let interval' := int_or (db.interval feed) default_interval in
  let candidate := Z.min interval' 15 * Z.min (error_count / 10 + 1) 5 in
  db.error_count (feed_after r) = error_count
  ∧ (db.next_check_time (feed_after r) = Some (now + timedelta_minutes candidate)
     ↔ interval' < candidate)
  ∧ (candidate ≤ interval' → db.next_check_time (feed_after r) = None)
  ∧ (∀ key, tier2 (stat_after r) key
            = tier2 stat key
              + (if bool_decide (key ∈ ["failed"; "SUM"]) then 1 else 0))
  ∧ raised r = None
  ∧ (error_count = 10 → db.interval feed = Some 10 →
     candidate = 20
     ∧ db.next_check_time (feed_after r) = Some (now + timedelta_minutes 20)).
Proof.
  intros Hreach Hstatus Hrss Hcount r error_count interval' candidate.
  assert (feed_after r
          = set_next_check_time
              (if interval' <? candidate
               then Some (now + timedelta_minutes candidate) else None)
              (set_error_count error_count feed)
          ∧ stat_after r = Stat.failed stat ∧ raised r = None) as (Hf & Hs & Hr).
  { subst r. rewrite check_unfolds_when_fetch_reached by done.
    unfold try_suite. rewrite (proj2 (Z.eqb_neq _ _) Hstatus), Hrss.
    unfold on_fetch_failed. cbn [db.error_count set_error_count].
    rewrite (proj2 (Z.leb_gt _ _)) by lia.
    unfold next_check_interval. cbn [db.error_count db.interval set_error_count].
    rewrite (proj2 (Z.leb_le _ _)) by lia.
    fold error_count interval' candidate.
    unfold finally_suite. cbn [no_error l_feed new_next_check_time].
    destruct (interval' <? candidate); cbn;
      case_bool_decide as Hn; cbn; [|by destruct feed| |by destruct feed].
    - destruct feed; simplify_eq/=. done.
    - destruct feed; simplify_eq/=. done. }
  rewrite Hf, Hs. split; [done|]. cbn [db.next_check_time set_next_check_time].
  split; [|split; [|split; [|split]]].
  - destruct (Z.ltb_spec interval' candidate); split; (done || lia).
  - intros Hle. by rewrite (proj2 (Z.ltb_ge _ _)).
  - intros key. apply (tag_method_tier2 failed).
  - exact Hr.
  - intros Hec Hint. assert (candidate = 20) as Hc.
    { subst candidate interval'. rewrite Hec, Hint. reflexivity. }
    split; [exact Hc|].
    assert (interval' = 10) as Hi by (subst interval'; by rewrite Hint).
    rewrite Hc, Hi. reflexivity.
Qed.

(** C2, as the code has it.  A check gets to the fetch and the answer is
    a 304.  The statistics gain exactly [cached], [not_updated] and [SUM];
    the [try] suite writes no field and no exception is raised.  The
    [finally] suite then runs as after every error-free fetch: a positive
    [error_count] is reset to 0, [migrate_to_new_url] is called exactly
    when the fetched url differs from [feed.link] (and the feed it answers
    is adopted), a stored [next_check_time] is cleared, and one [save] of
    exactly the fields changed is issued when there is one.  When
    [error_count] is not positive, the url is [feed.link] and no
    [next_check_time] is stored, the feed is left as it was, nothing is
    saved and no migration is called. *)
Theorem cached_fetch_runs_cleanup (now : Z) (subs : list db.Sub)
    (flood_locked : Z → bool) (wf : web.WebFeed) (fanout : Awaited)
    (feed : db.Feed) (stat : MonitoringStat) :
  fetch_reached now subs flood_locked feed →
  web.status wf = 304 →
  let r := check now subs flood_locked wf fanout feed stat in
  let same_url := bool_decide (web.url wf = db.link feed) in
  let reset :=
    if 0 <? db.error_count feed then set_error_count 0 feed else feed in
  let adopted :=
    if same_url then reset else default reset (migrate reset (web.url wf)) in
  let cleared :=
    if db.next_check_time adopted is Some _
    then set_next_check_time None adopted else adopted in
  let fields : gset string :=
    (if 0 <? db.error_count feed then {["error_count"]} else ∅)
    ∪ (if db.next_check_time adopted is Some _ then {["next_check_time"]} else ∅) in
  (∀ key, tier2 (stat_after r) key
          = tier2 stat key
            + (if bool_decide (key ∈ ["cached"; "SUM"; "not_updated"])
               then 1 else 0))
  ∧ raised r = None
  ∧ feed_after r = cleared
  ∧ effects r
    = FeedGet (db.link feed) (request_headers format_datetime feed)
      :: LogLine logging.DEBUG "Fetched (not updated, cached)"
      :: (if same_url then [] else [MigrateToNewUrl reset (web.url wf)])
      ++ (if bool_decide (fields = ∅) then [] else [Save cleared fields])
  ∧ (db.error_count feed ≤ 0 → web.url wf = db.link feed →
     db.next_check_time feed = None →
     feed_after r = feed
     ∧ effects r
       = [FeedGet (db.link feed) (request_headers format_datetime feed);
          LogLine logging.DEBUG "Fetched (not updated, cached)"]).
Proof.
  intros Hreach Hstatus r same_url reset adopted cleared fields.
  assert (r = mkChecked cleared (Stat.cached stat)
                (FeedGet (db.link feed) (request_headers format_datetime feed)
                 :: LogLine logging.DEBUG "Fetched (not updated, cached)"
                 :: (if same_url then [] else [MigrateToNewUrl reset (web.url wf)])
                 ++ (if bool_decide (fields = ∅) then []
                     else [Save cleared fields]))
                None) as ->.
  { subst r. rewrite check_unfolds_when_fetch_reached by done.
    unfold try_suite. rewrite Hstatus. cbn [Z.eqb Pos.eqb].
    unfold finally_suite.
    cbn [no_error l_feed new_next_check_time feed_updated_fields l_effects l_stat].
    fold reset.
    assert (db.link reset = db.link feed) as Hlink
      by (subst reset; by destruct (0 <? _)).
    replace (if 0 <? db.error_count feed
             then (set_error_count 0 feed, (∅ ∪ {["error_count"]} : gset string))
             else (feed, ∅))
      with (reset, (if 0 <? db.error_count feed
                    then {["error_count"]} else ∅ : gset string))
      by (subst reset; destruct (0 <? _); [by rewrite (left_id_L ∅ (∪))|done]).
    rewrite Hlink. fold same_url.
    assert ((if 0 <? db.error_count feed then {["error_count"]} else ∅)
            ∪ (if db.next_check_time adopted is Some _
               then {["next_check_time"]} else ∅) = fields) as Hfields by done.
    clearbody fields. subst adopted cleared.
    destruct same_url; cbn [negb];
      destruct (db.next_check_time _) as [t|] eqn:Et; cbn;
      rewrite ?bool_decide_eq_false_2, ?bool_decide_eq_true_2 by done; cbn;
      rewrite ?(right_id_L ∅ (∪)) in Hfields; rewrite ?Hfields;
      case_bool_decide; reflexivity. }
  cbn [stat_after raised feed_after effects].
  split; [intros key; apply (tag_method_tier2 cached)|].
  split; [done|]. split; [done|]. split; [done|].
  intros Hec Hurl Hnct.
  assert (reset = feed) as Hreset
    by (subst reset; by rewrite (proj2 (Z.ltb_ge _ _))).
  assert (adopted = feed) as Hadopted
    by (subst adopted same_url; by rewrite bool_decide_eq_true_2).
  subst cleared fields. rewrite Hadopted, Hnct.
  subst same_url. rewrite bool_decide_eq_true_2 by done.
  rewrite (proj2 (Z.ltb_ge _ _)) by done.
  rewrite (left_id_L ∅ (∪)), bool_decide_eq_true_2 by done. done.
Qed.

End DetectorFacts.

Lemma example_fetch_reached error_count interval :
  fetch_reached 0 example_subs nobody_flood_locked
    (example_feed error_count interval (Some (-60000000))).
Proof.
  split; [|split; [discriminate | reflexivity]].
  simpl. intros t [= <-]. lia.
Defined.

Lemma example_fetch_reached_unscheduled error_count interval :
  fetch_reached 0 example_subs nobody_flood_locked
    (example_feed error_count interval None).
Proof.
  split; [|split; [discriminate | reflexivity]].
  simpl. intros t. discriminate.
Defined.

Lemma failed_fetch_backs_off_witness :
  let feed := example_feed 9 (Some 10) None in
  let r :=
    _do_monitor_a_feed example_parse example_decimal (λ _, "") (λ s, s)
      example_calculate_update example_migrate 30 0 example_subs nobody_flood_locked
      example_failed_response Returns feed Stat.init in
  fetch_reached 0 example_subs nobody_flood_locked feed
  ∧ web.status example_failed_response ≠ 304
  ∧ web.rss_d example_failed_response = None
  ∧ 10 ≤ db.error_count feed + 1 < 100
  ∧ db.error_count (feed_after r) = 10
  ∧ db.next_check_time (feed_after r) = Some (0 + timedelta_minutes 20)
  ∧ tier2 (stat_after r) "failed" = 1.
Proof.
  intros feed r.
  assert (web.status example_failed_response ≠ 304) as Hs by discriminate.
  assert (10 ≤ db.error_count feed + 1 < 100) as Hc by (simpl; lia).
  split; [apply example_fetch_reached_unscheduled|].
  split; [exact Hs|]. split; [reflexivity|]. split; [exact Hc|].
  destruct (failed_fetch_backs_off example_parse example_decimal (λ _, "") (λ s, s)
              example_calculate_update example_migrate 30 0 example_subs
              nobody_flood_locked example_failed_response Returns feed Stat.init
              (example_fetch_reached_unscheduled 9 (Some 10)) Hs eq_refl Hc)
    as (He & _ & _ & Hf & _ & Hex).
  split; [exact He|]. split; [apply Hex; reflexivity|].
  apply (Hf "failed").
Defined.

Lemma cached_fetch_runs_cleanup_witness :
  let feed := example_feed 0 None None in
  let wf := example_cached_response "https://example.org/feed" in
  let r :=
    _do_monitor_a_feed example_parse example_decimal (λ _, "") (λ s, s)
      example_calculate_update example_migrate 30 0 example_subs nobody_flood_locked wf Returns feed
      Stat.init in
  fetch_reached 0 example_subs nobody_flood_locked feed
  ∧ web.status wf = 304
  ∧ feed_after r = feed
  ∧ effects r
    = [FeedGet (db.link feed) (request_headers (λ _, "") feed);
       LogLine logging.DEBUG "Fetched (not updated, cached)"]
  ∧ tier2 (stat_after r) "cached" = 1.
Proof.
  intros feed wf r.
  split; [apply example_fetch_reached_unscheduled|]. split; [reflexivity|].
  destruct (cached_fetch_runs_cleanup example_parse example_decimal (λ _, "") (λ s, s)
              example_calculate_update example_migrate 30 0 example_subs
              nobody_flood_locked wf Returns feed Stat.init
              (example_fetch_reached_unscheduled 0 None) eq_refl)
    as (Hstat & _ & _ & _ & Hquiet).
  destruct Hquiet as [Hfeed Heff]; [simpl; lia | reflexivity | reflexivity |].
  split; [exact Hfeed|]. split; [exact Heff|]. apply (Hstat "cached").
Defined.

(** C2 as stated fails on a feed that has failed three times, has moved,
    and has a past [next_check_time] stored: the 304 resets [error_count],
    calls the migration and adopts the moved feed, clears
    [next_check_time], and saves the two changed fields. *)
Lemma cached_fetch_mutates_feed :
  let feed := example_feed 3 None (Some (-60000000)) in
  let wf := example_cached_response "https://example.org/moved" in
  let r :=
    _do_monitor_a_feed example_parse example_decimal (λ _, "") (λ s, s)
      example_calculate_update example_migrate 30 0 example_subs nobody_flood_locked wf Returns feed
      Stat.init in
  fetch_reached 0 example_subs nobody_flood_locked feed
  ∧ web.status wf = 304
  ∧ db.error_count feed = 3 ∧ db.error_count (feed_after r) = 0
  ∧ db.link feed = "https://example.org/feed"
  ∧ db.link (feed_after r) = "https://example.org/moved"
  ∧ db.next_check_time feed = Some (-60000000)
  ∧ db.next_check_time (feed_after r) = None
  ∧ effects r
    = [FeedGet (db.link feed) (request_headers (λ _, "") feed);
       LogLine logging.DEBUG "Fetched (not updated, cached)";
       MigrateToNewUrl (example_feed 0 None (Some (-60000000)))
         "https://example.org/moved";
       Save (feed_after r) ({["error_count"]} ∪ {["next_check_time"]})].
Proof.
  intros feed wf r. split; [apply example_fetch_reached|].
  repeat (split; [reflexivity|]). vm_compute. reflexivity.
Qed.

(** ** Delivery *)

Section BlockedUser.

Variable sub : db.Sub.
Local Abbreviation user := (db.user_id sub).

(** The tables once the user has failed [k] times in a row: the lock
    exists and is free, and the counter reads [k]. *)
Local Abbreviation counted k :=
  (mkDelivery {[user := false]} {[user := k]} [] []).

Lemma first_blocked_failure :
  Deliver.__send sub Deliver.FormattedPost Deliver.UserBlocked Deliver.init
  = counted 1.
Proof.
  unfold Deliver.__send, Deliver.__locked_unsub_all_and_leave_chat,
    Deliver.locked_unsub_enter, Deliver.lock_get, Deliver.init. simpl.
  rewrite lookup_empty. simpl. unfold counter_incr.
  rewrite counter_get_empty. reflexivity.
Qed.

Lemma next_blocked_failure k :
  k < 5 →
  Deliver.__send sub Deliver.FormattedPost Deliver.UserBlocked (counted k)
  = counted (k + 1).
Proof.
  intros Hk.
  unfold Deliver.__send, Deliver.__locked_unsub_all_and_leave_chat,
    Deliver.locked_unsub_enter, Deliver.lock_get. simpl.
  rewrite lookup_singleton_eq. simpl.
  unfold counter_incr, counter_get. rewrite lookup_singleton_eq. simpl.
  rewrite (proj2 (Z.ltb_lt _ _) Hk). simpl.
  by rewrite insert_singleton_eq.
Qed.

Lemma enter_at_five :
  Deliver.locked_unsub_enter user (counted 5)
  = (mkDelivery {[user := true]} ∅ [user]
       [mkLog logging.ERROR "User blocked" [user]], true).
Proof.
  unfold Deliver.locked_unsub_enter, Deliver.lock_get. simpl.
  rewrite lookup_singleton_eq. simpl.
  unfold counter_get. rewrite lookup_singleton_eq. simpl.
  by rewrite insert_singleton_eq, delete_singleton_eq.
Qed.

Lemma enter_while_held d :
  __user_unsub_all_lock_bucket d !! user = Some true →
  Deliver.locked_unsub_enter user d = (d, false).
Proof.
  intros Hheld. unfold Deliver.locked_unsub_enter, Deliver.lock_get.
  rewrite Hheld. by destruct d.
Qed.

Lemma five_blocked_failures :
  Deliver.blocked_failures 5 sub Deliver.init = counted 5.
Proof.
  cbn [Deliver.blocked_failures]. rewrite first_blocked_failure.
  by rewrite !next_blocked_failure by lia.
Qed.

(** C3, evaluated on the code.  For any subscriber, starting with empty
    tables: after five consecutive blocked-style failures the counter
    reads 5 and [unsub_all_and_leave_chat] has not been called; the sixth
    failure deletes the counter entry and calls it, once.  While that
    call is pending the user's lock is held, and an invocation that finds
    it held returns at once and changes nothing.  A send that succeeds in
    between deletes the counter entry, and an entity that cannot be
    resolved or a [TOPIC_CLOSED] bad request is handled like a blocked
    user. *)
Theorem blocked_user_unsubscribed_on_sixth_failure :
  let d5 := Deliver.blocked_failures 5 sub Deliver.init in
  let d6 := Deliver.blocked_failures 6 sub Deliver.init in
  let held := (Deliver.locked_unsub_enter user d5).1 in
  (unsub_calls d5 = [] ∧ __user_blocked_counter d5 !! user = Some 5)
  ∧ (unsub_calls d6 = [user] ∧ __user_blocked_counter d6 !! user = None)
  ∧ ((Deliver.locked_unsub_enter user d5).2 = true
     ∧ __user_unsub_all_lock_bucket held !! user = Some true
     ∧ Deliver.locked_unsub_enter user held = (held, false)
     ∧ Deliver.locked_unsub_exit user held = d6
     ∧ __user_unsub_all_lock_bucket d6 !! user = Some false)
  ∧ __user_blocked_counter
      (Deliver.__send sub Deliver.FormattedPost Deliver.Sent
         (Deliver.blocked_failures 3 sub Deliver.init)) !! user = None
  ∧ (∀ post d,
       Deliver.__send sub post Deliver.EntityNotFound d
       = Deliver.__send sub post Deliver.UserBlocked d
       ∧ Deliver.__send sub post (Deliver.BadRequest "TOPIC_CLOSED") d
         = Deliver.__send sub post Deliver.UserBlocked d).
Proof.
  intros d5 d6 held.
  assert (d5 = counted 5) as E5 by apply five_blocked_failures.
  assert (held = mkDelivery {[user := true]} ∅ [user]
                   [mkLog logging.ERROR "User blocked" [user]]) as Eh.
  { subst held. by rewrite E5, enter_at_five. }
  assert (d6 = mkDelivery {[user := false]} ∅ [user]
                 [mkLog logging.ERROR "User blocked" [user]]) as E6.
  { subst d6. change (Deliver.blocked_failures 6 sub Deliver.init)
      with (Deliver.__send sub Deliver.FormattedPost Deliver.UserBlocked d5).
    rewrite E5. unfold Deliver.__send, Deliver.__locked_unsub_all_and_leave_chat.
    rewrite enter_at_five. unfold Deliver.locked_unsub_exit. simpl.
    by rewrite insert_singleton_eq. }
  split; [|split; [|split; [|split]]].
  - rewrite E5. simpl. by rewrite lookup_singleton_eq.
  - rewrite E6. simpl. by rewrite lookup_empty.
  - rewrite E5, enter_at_five. split; [done|].
    assert (__user_unsub_all_lock_bucket held !! user = Some true) as Hheld
      by (rewrite Eh; simpl; by rewrite lookup_singleton_eq).
    split; [exact Hheld|]. split; [by apply enter_while_held|].
    rewrite Eh, E6. unfold Deliver.locked_unsub_exit. simpl.
    rewrite insert_singleton_eq. split; [done|]. by rewrite lookup_singleton_eq.
  - cbn [Deliver.blocked_failures]. rewrite first_blocked_failure.
    rewrite !next_blocked_failure by lia. simpl.
    unfold counter_get at 1. rewrite lookup_singleton_eq. simpl.
    by rewrite delete_singleton_eq.
  - intros post d. split; reflexivity.
Qed.

End BlockedUser.

(** ** Histories of the scheduler *)

Lemma state_of_insert_other m dm feed_id x g :
  Mon.state_of (Mon.set_map (<[feed_id := x]> dm) m) g
  = if decide (feed_id = g) then x else default TaskState.EMPTY (dm !! g).
Proof.
  unfold Mon.state_of. simpl. rewrite lookup_insert.
  by destruct (decide (feed_id = g)).
Qed.

Lemma submit_feed_idle mi feed m :
  Mon.state_of m (db.id feed) = TaskState.EMPTY →
  Mon.submit_feed mi feed m
  = Mon.put_nowait (of_Feed feed)
      (Mon._lock_feed_id mi (db.id feed)
         (Mon.set_map (Mon.defer_map_get (_task_defer_map m) (db.id feed)).2 m)).
Proof.
  intros He. unfold Mon.submit_feed, Mon.state_of in *.
  pose proof (defer_map_get_state (_task_defer_map m) (db.id feed)) as E1.
  destruct (Mon.defer_map_get _ _) as [st dm']. simpl in *. subst st.
  by rewrite He.
Qed.

Lemma lock_feed_id_state mi feed_id m g :
  Mon.state_of (Mon._lock_feed_id mi feed_id m) g
  = if decide (feed_id = g)
    then (if mi <=? 1 then Mon.state_of m g else TaskState.LOCKED)
    else Mon.state_of m g.
Proof.
  unfold Mon._lock_feed_id. destruct (mi <=? 1).
  - by destruct (decide _).
  - unfold Mon.state_of. simpl. rewrite lookup_insert.
    by destruct (decide (feed_id = g)).
Qed.

Lemma state_of_put_nowait item m g :
  Mon.state_of (Mon.put_nowait item m) g = Mon.state_of m g.
Proof. reflexivity. Qed.

Lemma state_of_log level text values m g :
  Mon.state_of (Mon.log level text values m) g = Mon.state_of m g.
Proof. reflexivity. Qed.

Lemma state_of_set_stat f m g :
  Mon.state_of (Mon.set_stat f m) g = Mon.state_of m g.
Proof. reflexivity. Qed.

(** How an erase moves the table: only the entry of its feed, and that
    one by [erased_state]. *)
Lemma erase_state mi feed_id flag m g :
  Mon.state_of (Mon._erase_state_for_feed_id mi feed_id flag m) g
  = if decide (feed_id = g)
    then erased_state mi (Mon.state_of m feed_id) flag
    else Mon.state_of m g.
Proof.
  unfold erased_state.
  destruct (Z.eqb_spec (Mon.state_of m feed_id) TaskState.EMPTY) as [He|Hne].
  - rewrite erase_on_empty by done.
    rewrite state_of_log, state_of_defer_map_get.
    by destruct (decide _) as [<-|].
  - destruct (Z.eqb_spec (Z.land (Mon.state_of m feed_id) (Z.lnot flag))
                TaskState.DEFERRED) as [Hd|Hd].
    + rewrite erase_resubmits by done.
      rewrite state_of_log, state_of_set_stat, state_of_put_nowait.
      rewrite lock_feed_id_state. by destruct (decide _) as [<-|].
    + rewrite erase_writes_back by done. apply state_of_insert_other.
Qed.

(** How a submit moves the table. *)
Lemma submit_state mi feed m g :
  Mon.state_of (Mon.submit_feed mi feed m) g
  = if decide (db.id feed = g)
    then submitted_state mi (Mon.state_of m (db.id feed))
    else Mon.state_of m g.
Proof.
  unfold submitted_state.
  destruct (Z.eqb_spec (Mon.state_of m (db.id feed)) TaskState.DEFERRED)
    as [Hd|Hd]; cbn [orb].
  - rewrite submit_feed_lone_deferred by done.
    rewrite state_of_put_nowait, lock_feed_id_state, !state_of_log.
    by destruct (decide _) as [<-|].
  - destruct (Z.eqb_spec (Mon.state_of m (db.id feed)) TaskState.EMPTY)
      as [He|He].
    + rewrite submit_feed_idle by done.
      rewrite state_of_put_nowait, lock_feed_id_state, state_of_defer_map_get.
      by destruct (decide _) as [<-|].
    + rewrite submit_feed_busy by done.
      rewrite state_of_log, state_of_set_stat. apply state_of_insert_other.
Qed.

Lemma mark_in_progress_state feed_id m g :
  Mon.state_of (Mon.mark_in_progress feed_id m) g
  = if decide (feed_id = g)
    then Z.lor (Mon.state_of m feed_id) TaskState.IN_PROGRESS
    else Mon.state_of m g.
Proof. rewrite mark_in_progress_spec. apply state_of_insert_other. Qed.

Lemma finish_state mi feed_id w m g :
  Mon.state_of (Mon.monitor (Mon._do_monitor_task_finish mi feed_id w m)) g
  = if decide (feed_id = g)
    then erased_state mi (Mon.state_of m feed_id) TaskState.IN_PROGRESS
    else Mon.state_of m g.
Proof.
  destruct (finish_before_erase mi feed_id w m) as (m1 & -> & _ & _ & Em & _).
  rewrite erase_state. unfold Mon.state_of. by rewrite Em.
Qed.

Lemma step_state mi m step g :
  Mon.state_of (monitor_step mi m step) g
  = if decide (step_feed_id m step = Some g)
    then stepped_state mi m step (Mon.state_of m g)
    else Mon.state_of m g.
Proof.
  destruct step as [feed| |[feed|feed_id]|feed_id [[feed|]|e]|feed_id w|n|t];
    simpl.
  - rewrite submit_state.
    destruct (decide (db.id feed = g)) as [<-|Hne];
      [by rewrite decide_True | by rewrite decide_False by congruence].
  - unfold Mon.dispatch. by destruct (_queue m).
  - rewrite mark_in_progress_state.
    destruct (decide (db.id feed = g)) as [<-|Hne];
      [by rewrite decide_True | by rewrite decide_False by congruence].
  - rewrite mark_in_progress_state.
    destruct (decide (feed_id = g)) as [<-|Hne];
      [by rewrite decide_True | by rewrite decide_False by congruence].
  - by destruct (decide _).
  - rewrite state_of_insert_other.
    destruct (decide (feed_id = g)) as [<-|Hne];
      [by rewrite decide_True | by rewrite decide_False by congruence].
  - by destruct (decide _).
  - rewrite finish_state.
    destruct (decide (feed_id = g)) as [<-|Hne];
      [by rewrite decide_True | by rewrite decide_False by congruence].
  - unfold Mon.fire_timer. destruct (loop_timers m !! n) as [t|]; simpl.
    + rewrite erase_state.
      destruct (decide (timer_feed_id t = g)) as [<-|Hne];
        [by rewrite decide_True | by rewrite decide_False by congruence].
    + reflexivity.
  - reflexivity.
Qed.

(** *** Bit facts about the three flags *)

Lemma flags_range st : Z.land st all_flags = st ↔ 0 ≤ st < 8.
Proof.
  change all_flags with (Z.ones 3). rewrite Z.land_ones by lia.
  change (2 ^ 3) with 8. split.
  - intros <-. apply Z.mod_pos_bound. lia.
  - intros. apply Z.mod_small. lia.
Qed.

Lemma flags_land st x :
  Z.land st all_flags = st → Z.land (Z.land st x) all_flags = Z.land st x.
Proof.
  intros Hst. rewrite <- Z.land_assoc, (Z.land_comm x), Z.land_assoc.
  by rewrite Hst.
Qed.

Lemma flags_lor st flag :
  Z.land st all_flags = st → Z.land flag all_flags = flag →
  Z.land (Z.lor st flag) all_flags = Z.lor st flag.
Proof. intros Hst Hflag. by rewrite Z.land_lor_distr_l, Hst, Hflag. Qed.

(** Or-ing [DEFERRED] into a state gives a lone [DEFERRED] only from the
    empty state or from a lone [DEFERRED]. *)
Lemma lor_deferred_lone st :
  Z.lor st TaskState.DEFERRED = TaskState.DEFERRED →
  st = TaskState.EMPTY ∨ st = TaskState.DEFERRED.
Proof.
  intros Hl.
  assert (∀ n, 0 ≤ n → n ≠ 2 → Z.testbit st n = false) as Hbits.
  { intros n Hn Hn2.
    assert (Z.testbit (Z.lor st TaskState.DEFERRED) n
            = Z.testbit TaskState.DEFERRED n) as Hb by (by rewrite Hl).
    rewrite Z.lor_spec in Hb.
    change TaskState.DEFERRED with (2 ^ 2) in Hb.
    rewrite Z.pow2_bits_eqb in Hb by lia.
    rewrite (proj2 (Z.eqb_neq 2 n)) in Hb by lia.
    by apply orb_false_iff in Hb as [? _]. }
  destruct (Z.testbit st 2) eqn:H2; [right|left]; apply Z.bits_inj'; intros n Hn.
  - destruct (decide (n = 2)) as [->|]; [by rewrite H2|].
    rewrite Hbits by done. change TaskState.DEFERRED with (2 ^ 2).
    rewrite Z.pow2_bits_eqb by lia. symmetry. apply Z.eqb_neq. lia.
  - destruct (decide (n = 2)) as [->|]; [by rewrite H2|].
    rewrite Hbits by done. by rewrite Z.bits_0.
Qed.

Lemma lor_in_progress_not_lone_deferred st :
  Z.lor st TaskState.IN_PROGRESS ≠ TaskState.DEFERRED.
Proof.
  intros Hl.
  assert (Z.testbit (Z.lor st TaskState.IN_PROGRESS) 1
          = Z.testbit TaskState.DEFERRED 1) as Hb by (by rewrite Hl).
  rewrite Z.lor_spec, orb_true_r in Hb. discriminate.
Qed.

Lemma entry_inv_empty mi : entry_inv mi TaskState.EMPTY.
Proof. repeat split; done. Qed.

Lemma entry_inv_locked mi : 1 < mi → entry_inv mi TaskState.LOCKED.
Proof. intros. repeat split; try done. lia. Qed.

Lemma entry_inv_erased mi st flag :
  entry_inv mi st → entry_inv mi (erased_state mi st flag).
Proof.
  intros (Hf & Hd & Hu). unfold erased_state.
  destruct (Z.eqb_spec st TaskState.EMPTY); [apply entry_inv_empty|].
  destruct (Z.eqb_spec (Z.land st (Z.lnot flag)) TaskState.DEFERRED) as [|Hne].
  - destruct (Z.leb_spec mi 1); [done|]. by apply entry_inv_locked.
  - split; [by apply flags_land|]. split; [done|].
    intros Hmi. by rewrite Z.land_spec, Hu.
Qed.

Lemma entry_inv_submitted mi st :
  entry_inv mi st → entry_inv mi (submitted_state mi st).
Proof.
  intros (Hf & Hd & Hu). unfold submitted_state.
  destruct (Z.eqb_spec st TaskState.DEFERRED); [done|]. simpl.
  destruct (Z.eqb_spec st TaskState.EMPTY) as [->|Hne].
  - destruct (Z.leb_spec mi 1); [apply entry_inv_empty|by apply entry_inv_locked].
  - split; [by apply flags_lor|]. split.
    + intros Hl. by destruct (lor_deferred_lone _ Hl).
    + intros Hmi. rewrite Z.lor_spec, Hu by done. reflexivity.
Qed.

Lemma entry_inv_entered mi st :
  entry_inv mi st → entry_inv mi (Z.lor st TaskState.IN_PROGRESS).
Proof.
  intros (Hf & Hd & Hu).
  split; [by apply flags_lor|]. split; [apply lor_in_progress_not_lone_deferred|].
  intros Hmi. rewrite Z.lor_spec, Hu by done. reflexivity.
Qed.

Lemma entry_inv_stepped mi m step st :
  entry_inv mi st → entry_inv mi (stepped_state mi m step st).
Proof.
  intros Hst.
  destruct step as [feed| |item|feed_id [[feed|]|e]|feed_id w|n|t]; simpl.
  - by apply entry_inv_submitted.
  - done.
  - by apply entry_inv_entered.
  - done.
  - apply entry_inv_empty.
  - done.
  - by apply entry_inv_erased.
  - destruct (loop_timers m !! n); [by apply entry_inv_erased|done].
  - done.
Qed.

(** *** The timers a step leaves *)

Lemma lock_feed_id_timers mi feed_id m :
  loop_timers (Mon._lock_feed_id mi feed_id m)
  = loop_timers m
    ++ (if mi <=? 1 then []
        else [mkTimer (mi * 60) feed_id TaskState.LOCKED]).
Proof.
  unfold Mon._lock_feed_id. destruct (mi <=? 1); simpl; [|done].
  by rewrite app_nil_r.
Qed.

Lemma lock_feed_id_timers_ok mi feed_id m :
  Forall (lock_timer mi) (loop_timers m) →
  Forall (lock_timer mi) (loop_timers (Mon._lock_feed_id mi feed_id m)).
Proof.
  intros Hok. rewrite lock_feed_id_timers. apply Forall_app. split; [done|].
  destruct (Z.leb_spec mi 1); [constructor|].
  apply Forall_singleton. by repeat split.
Qed.

Lemma erase_timers_ok mi feed_id flag m :
  Forall (lock_timer mi) (loop_timers m) →
  Forall (lock_timer mi)
    (loop_timers (Mon._erase_state_for_feed_id mi feed_id flag m)).
Proof.
  intros Hok.
  destruct (decide (Mon.state_of m feed_id = TaskState.EMPTY)) as [He|Hne].
  - by rewrite erase_on_empty.
  - destruct (decide (Z.land (Mon.state_of m feed_id) (Z.lnot flag)
                      = TaskState.DEFERRED)) as [Hd|Hd].
    + rewrite erase_resubmits by done.
      by apply (lock_feed_id_timers_ok mi feed_id m).
    + by rewrite erase_writes_back.
Qed.

Lemma submit_timers_ok mi feed m :
  Forall (lock_timer mi) (loop_timers m) →
  Forall (lock_timer mi) (loop_timers (Mon.submit_feed mi feed m)).
Proof.
  intros Hok.
  destruct (decide (Mon.state_of m (db.id feed) = TaskState.DEFERRED)) as [Hd|Hd].
  - rewrite submit_feed_lone_deferred by done.
    by apply (lock_feed_id_timers_ok mi (db.id feed)
                (Mon.log logging.WARNING "A deferred task was never resubmitted"
                   [TaskState.DEFERRED; db.id feed] m)).
  - destruct (decide (Mon.state_of m (db.id feed) = TaskState.EMPTY)) as [He|He].
    + rewrite submit_feed_idle by done.
      by apply (lock_feed_id_timers_ok mi (db.id feed)
                  (Mon.set_map
                     (Mon.defer_map_get (_task_defer_map m) (db.id feed)).2 m)).
    + by rewrite submit_feed_busy.
Qed.

Lemma step_timers_ok mi m step :
  Forall (lock_timer mi) (loop_timers m) →
  Forall (lock_timer mi) (loop_timers (monitor_step mi m step)).
Proof.
  intros Hok.
  destruct step as [feed| |[feed|feed_id]|feed_id [[feed|]|e]|feed_id w|n|t];
    simpl; try done.
  - by apply submit_timers_ok.
  - unfold Mon.dispatch. by destruct (_queue m).
  - by rewrite mark_in_progress_spec.
  - by rewrite mark_in_progress_spec.
  - destruct (finish_before_erase mi feed_id w m) as (m1 & -> & _ & _ & _ & Et).
    apply erase_timers_ok. by rewrite Et.
  - unfold Mon.fire_timer. destruct (loop_timers m !! n) as [t|]; [|done].
    apply erase_timers_ok. simpl. by apply Forall_delete.
Qed.

Lemma monitor_inv_entries mi m :
  monitor_inv mi m
  ↔ (∀ feed_id, entry_inv mi (Mon.state_of m feed_id))
    ∧ Forall (lock_timer mi) (loop_timers m).
Proof.
  split.
  - intros [Hf Hd Ht Hu]. split; [|done]. intros feed_id. repeat split; auto.
  - intros [He Ht]. split; [..|done|]; intros; by apply He.
Qed.

Lemma monitor_inv_init mi : monitor_inv mi Mon.init.
Proof.
  apply monitor_inv_entries. split; [|constructor].
  intros feed_id. apply entry_inv_empty.
Qed.

Lemma monitor_inv_step mi m step :
  monitor_inv mi m → monitor_inv mi (monitor_step mi m step).
Proof.
  rewrite !monitor_inv_entries. intros [He Ht]. split.
  - intros g. rewrite step_state.
    destruct (decide _); [by apply entry_inv_stepped | done].
  - by apply step_timers_ok.
Qed.

Lemma monitor_inv_steps mi steps m :
  monitor_inv mi m → monitor_inv mi (monitor_steps mi steps m).
Proof.
  unfold monitor_steps. revert m.
  induction steps as [|step steps IH]; intros m Hm; simpl; [done|].
  apply IH. by apply monitor_inv_step.
Qed.

(** *** What an erase and a submit do besides moving the table *)

Lemma erase_effects mi feed_id flag m :
  let st := Mon.state_of m feed_id in
  let m' := Mon._erase_state_for_feed_id mi feed_id flag m in
  _queue m' = _queue m ++ (if resubmits st flag then [of_id feed_id] else [])
  ∧ loop_timers m'
    = loop_timers m ++ (if resubmits st flag then lock_timers mi feed_id else [])
  ∧ _stat m' = (if resubmits st flag then Stat.resubmitted (_stat m) else _stat m).
Proof.
  intros st m'. subst st m'. unfold resubmits.
  destruct (Z.eqb_spec (Mon.state_of m feed_id) TaskState.EMPTY) as [He|Hne];
    cbn [negb andb].
  - rewrite erase_on_empty by done. simpl. by rewrite !app_nil_r.
  - destruct (Z.eqb_spec (Z.land (Mon.state_of m feed_id) (Z.lnot flag))
                TaskState.DEFERRED) as [Hd|Hd].
    + rewrite erase_resubmits by done. cbn [Mon.log Mon.set_stat _queue
        loop_timers _stat Mon.put_nowait].
      rewrite lock_feed_id_timers. unfold Mon._lock_feed_id, lock_timers.
      by destruct (mi <=? 1).
    + rewrite erase_writes_back by done. simpl. by rewrite !app_nil_r.
Qed.

Lemma submit_effects mi feed m :
  let st := Mon.state_of m (db.id feed) in
  let m' := Mon.submit_feed mi feed m in
  _queue m' = _queue m ++ (if enqueues st then [of_Feed feed] else [])
  ∧ loop_timers m'
    = loop_timers m ++ (if enqueues st then lock_timers mi (db.id feed) else [])
  ∧ _stat m' = (if enqueues st then _stat m else Stat.deferred (_stat m)).
Proof.
  intros st m'. subst st m'. unfold enqueues.
  destruct (Z.eqb_spec (Mon.state_of m (db.id feed)) TaskState.DEFERRED)
    as [Hd|Hd]; cbn [orb].
  - rewrite submit_feed_lone_deferred by done.
    cbn [_queue loop_timers _stat Mon.put_nowait].
    rewrite lock_feed_id_timers. unfold Mon._lock_feed_id, lock_timers.
    by destruct (mi <=? 1).
  - destruct (Z.eqb_spec (Mon.state_of m (db.id feed)) TaskState.EMPTY)
      as [He|He].
    + rewrite submit_feed_idle by done.
      cbn [_queue loop_timers _stat Mon.put_nowait].
      rewrite lock_feed_id_timers. unfold Mon._lock_feed_id, lock_timers.
      by destruct (mi <=? 1).
    + rewrite submit_feed_busy by done. simpl. by rewrite !app_nil_r.
Qed.

(** X1.  Whatever the producer, the dispatcher, the workers, the timers
    and the detectors do, and in whatever order, every entry of the
    task-state table stays a set of the three flags and is never a lone
    [DEFERRED]: the branch of [submit_feed] that "should not happen" is
    never taken. *)
Theorem table_entries_never_lone_deferred (minimal_interval : Z)
    (steps : list MonitorStep) (feed_id : Z) :
  let st := Mon.state_of (monitor_steps minimal_interval steps Mon.init) feed_id in
  0 ≤ st < 8 ∧ st ≠ TaskState.DEFERRED.
Proof.
  intros st.
  pose proof (monitor_inv_steps minimal_interval steps Mon.init
                (monitor_inv_init minimal_interval)) as [Hf Hd _ _].
  split; [apply flags_range, Hf | apply Hd].
Qed.

(** X2.  In every history each timer handed to the event loop is an
    erase of [LOCKED] due [minimal_interval * 60] seconds after it was
    registered; and with [minimal_interval <= 1] no timer is ever
    registered and no entry ever has the [LOCKED] bit. *)
Theorem timers_only_unlock (minimal_interval : Z) (steps : list MonitorStep) :
  let m := monitor_steps minimal_interval steps Mon.init in
  Forall (λ t, timer_flag t = TaskState.LOCKED
               ∧ delay t = minimal_interval * 60) (loop_timers m)
  ∧ if minimal_interval <=? 1
    then loop_timers m = []
         ∧ ∀ feed_id, Z.testbit (Mon.state_of m feed_id) 0 = false
    else True.
Proof.
  intros m.
  pose proof (monitor_inv_steps minimal_interval steps Mon.init
                (monitor_inv_init minimal_interval)) as [_ _ Ht Hu].
  fold m in Ht, Hu. split.
  - eapply Forall_impl; [exact Ht|]. by intros t (? & ? & _).
  - destruct (Z.leb_spec minimal_interval 1) as [Hoff|]; [|done].
    split; [|by apply Hu].
    destruct (loop_timers m) as [|t ts]; [done|].
    apply Forall_cons in Ht as [(_ & _ & ?) _]. lia.
Qed.

(** X3.  A step moves no table entry but that of the feed it works on. *)
Theorem step_leaves_other_feeds (minimal_interval : Z) (m : Monitor)
    (step : MonitorStep) (feed_id : Z) :
  step_feed_id m step ≠ Some feed_id →
  Mon.state_of (monitor_step minimal_interval m step) feed_id
  = Mon.state_of m feed_id.
Proof. intros Hne. rewrite step_state. by rewrite decide_False. Qed.

Lemma step_leaves_other_feeds_witness :
  let m := Mon.set_map {[7 := Z.lor TaskState.IN_PROGRESS TaskState.DEFERRED;
                         8 := TaskState.LOCKED]} Mon.init in
  let step := StepFinish 7 (Done Returns) in
  step_feed_id m step ≠ Some 8
  ∧ Mon.state_of (monitor_step 5 m step) 8 = TaskState.LOCKED.
Proof.
  intros m step.
  assert (step_feed_id m step ≠ Some 8) as Hne by discriminate.
  split; [exact Hne|].
  by rewrite (step_leaves_other_feeds 5 m step 8 Hne).
Defined.

(** X4.  With locking on, a second [submit_feed] for the same feed right
    after a first never enqueues: it records a deferral and leaves the
    [DEFERRED] bit set, whatever the state was before. *)
Theorem second_submit_defers (minimal_interval : Z) (feed : db.Feed)
    (m : Monitor) :
  1 < minimal_interval →
  let m1 := Mon.submit_feed minimal_interval feed m in
  let m2 := Mon.submit_feed minimal_interval feed m1 in
  _queue m2 = _queue m1
  ∧ loop_timers m2 = loop_timers m1
  ∧ tier2 (_stat m2) "deferred" = tier2 (_stat m1) "deferred" + 1
  ∧ Z.testbit (Mon.state_of m2 (db.id feed)) 2 = true.
Proof.
  intros Hon m1 m2.
  assert (Mon.state_of m1 (db.id feed) ≠ TaskState.EMPTY
          ∧ Mon.state_of m1 (db.id feed) ≠ TaskState.DEFERRED) as [Hne Hnd].
  { subst m1. rewrite submit_state, decide_True by done. unfold submitted_state.
    rewrite (proj2 (Z.leb_gt _ _)) by done.
    destruct (Z.eqb_spec (Mon.state_of m (db.id feed)) TaskState.DEFERRED);
      [done|]. simpl.
    destruct (Z.eqb_spec (Mon.state_of m (db.id feed)) TaskState.EMPTY); [done|].
    split.
    - intros H0.
      assert (Z.testbit (Z.lor (Mon.state_of m (db.id feed)) TaskState.DEFERRED) 2
              = Z.testbit TaskState.EMPTY 2) as Hb by (by rewrite H0).
      rewrite Z.lor_spec, orb_true_r in Hb. discriminate.
    - intros Hl. by destruct (lor_deferred_lone _ Hl). }
  destruct (submit_effects minimal_interval feed m1) as (Hq & Ht & Hs).
  assert (enqueues (Mon.state_of m1 (db.id feed)) = false) as Henq.
  { unfold enqueues. by rewrite !(proj2 (Z.eqb_neq _ _)). }
  rewrite Henq, app_nil_r in Hq, Ht. rewrite Henq in Hs. fold m2 in Hq, Ht, Hs.
  split; [done|]. split; [done|]. split.
  - rewrite Hs. apply (tag_method_own deferred).
  - subst m2. rewrite submit_state, decide_True by done. unfold submitted_state.
    rewrite !(proj2 (Z.eqb_neq _ _)) by done. cbn [orb].
    rewrite Z.lor_spec. apply orb_true_r.
Qed.

Lemma second_submit_defers_witness :
  let feed := feed_with_id 7 in
  let m1 := Mon.submit_feed 5 feed Mon.init in
  let m2 := Mon.submit_feed 5 feed m1 in
  1 < 5
  ∧ _queue m2 = [of_Feed feed]
  ∧ tier2 (_stat m2) "deferred" = 1.
Proof.
  intros feed m1 m2. assert (1 < 5) as Hon by lia. split; [exact Hon|].
  destruct (second_submit_defers 5 feed Mon.init Hon) as (Hq & _ & Hd & _).
  split; [exact Hq|exact Hd].
Defined.

Lemma deferred_keeps_resubmitted s :
  tier2 (Stat.deferred s) "resubmitted" = tier2 s "resubmitted".
Proof. by apply (tag_method_frame deferred). Qed.

Lemma submit_submissions mi feed m :
  submissions (Mon.submit_feed mi feed m) = submissions m + 1
  ∧ tier2 (_stat (Mon.submit_feed mi feed m)) "resubmitted"
    = tier2 (_stat m) "resubmitted".
Proof.
  destruct (submit_effects mi feed m) as (Hq & _ & Hs). unfold submissions.
  rewrite Hq, Hs. destruct (enqueues _).
  - rewrite length_app. simpl. split; [lia|done].
  - rewrite app_nil_r, deferred_keeps_resubmitted.
    pose proof (tag_method_own deferred (_stat m)) as Hd.
    change (tier2 (Stat.deferred (_stat m)) "deferred"
            = tier2 (_stat m) "deferred" + 1) in Hd.
    split; [lia|done].
Qed.

(** The submit loop adds one submission per record. *)
Lemma submit_all_submissions mi feeds m :
  submissions (submit_all mi feeds m)
  = submissions m + Z.of_nat (length feeds)
  ∧ tier2 (_stat (submit_all mi feeds m)) "resubmitted"
    = tier2 (_stat m) "resubmitted".
Proof.
  unfold submit_all.
  induction feeds as [|feed feeds IH] using rev_ind; simpl.
  - split; [unfold submissions; simpl; lia | done].
  - rewrite foldl_app. simpl. destruct IH as [IHs IHr].
    destruct (submit_submissions mi feed
                (foldl (λ m feed, Mon.submit_feed mi feed m)
                   (Mon.log logging.DEBUG "Started a periodic monitoring task."
                      [] m) feeds)) as [Hs Hr].
    rewrite Hs, Hr, IHs, IHr, length_app. simpl. split; [lia|done].
Qed.

(** X5.  The submit loop of a periodic tick accounts for every record it
    is given: each one is either put on the queue or counted as deferred,
    never both and never neither; no resubmission is counted. *)
Theorem submit_all_accounts_for_every_feed (minimal_interval : Z)
    (feeds : list db.Feed) (m : Monitor) :
  let m' := submit_all minimal_interval feeds m in
  submissions m' = submissions m + Z.of_nat (length feeds)
  ∧ tier2 (_stat m') "resubmitted" = tier2 (_stat m) "resubmitted".
Proof. intros m'. apply submit_all_submissions. Qed.

Lemma submitted_state_not_idle mi st :
  1 < mi → enqueues (submitted_state mi st) = false.
Proof.
  intros Hon. unfold submitted_state.
  rewrite (proj2 (Z.leb_gt _ _)) by done.
  destruct (Z.eqb_spec st TaskState.DEFERRED); [done|]. simpl.
  destruct (Z.eqb_spec st TaskState.EMPTY); [done|].
  unfold enqueues. apply orb_false_iff. split; apply Z.eqb_neq.
  - intros Hl. by destruct (lor_deferred_lone _ Hl).
  - intros H0.
    assert (Z.testbit (Z.lor st TaskState.DEFERRED) 2
            = Z.testbit TaskState.EMPTY 2) as Hb by (by rewrite H0).
    rewrite Z.lor_spec, orb_true_r in Hb. discriminate.
Qed.

(** The submit loop with locking on, with what it keeps true of the feeds
    it has gone through. *)
Lemma submit_all_added mi feeds m :
  1 < mi →
  ∃ added,
    _queue (submit_all mi feeds m) = _queue m ++ added
    ∧ NoDup (item_id <$> added)
    ∧ added `sublist_of` (of_Feed <$> feeds)
    ∧ ∀ feed, feed ∈ feeds →
        enqueues (Mon.state_of (submit_all mi feeds m) (db.id feed)) = false.
Proof.
  intros Hon. unfold submit_all.
  induction feeds as [|feed feeds IH] using rev_ind.
  - exists []. simpl. rewrite app_nil_r. repeat split; [constructor|done|].
    intros feed Hin. by apply elem_of_nil in Hin.
  - destruct IH as (added & Hq & Hnd & Hsub & Hidle).
    rewrite foldl_app. simpl.
    set (m1 := foldl (λ m feed, Mon.submit_feed mi feed m)
                 (Mon.log logging.DEBUG "Started a periodic monitoring task." [] m)
                 feeds) in *.
    destruct (submit_effects mi feed m1) as (Hq' & _ & _).
    assert (∀ feed', feed' ∈ feeds ++ [feed] →
              enqueues (Mon.state_of (Mon.submit_feed mi feed m1) (db.id feed'))
              = false) as Hidle'.
    { intros feed' Hin. rewrite submit_state.
      destruct (decide (db.id feed = db.id feed')) as [Heq|Hne].
      - by apply submitted_state_not_idle.
      - apply elem_of_app in Hin as [Hin|Hin]; [by apply Hidle|].
        apply list_elem_of_singleton in Hin. congruence. }
    destruct (enqueues (Mon.state_of m1 (db.id feed))) eqn:Henq.
    + exists (added ++ [of_Feed feed]).
      split; [by rewrite Hq', Hq, app_assoc|].
      split; [|split; [|done]].
      * rewrite fmap_app. apply NoDup_app. split; [done|]. split.
        -- intros x Hx Hx'. apply list_elem_of_singleton in Hx'. subst x.
           apply list_elem_of_fmap in Hx as (item & Hid & Hitem).
           apply (elem_of_sublist _ _ _ Hitem) in Hsub.
           apply list_elem_of_fmap in Hsub as (feed' & -> & Hin).
           specialize (Hidle feed' Hin). simpl in Hid.
           rewrite <- Hid in Hidle. congruence.
        -- simpl. apply NoDup_singleton.
      * rewrite fmap_app. by apply sublist_app.
    + exists added.
      split; [by rewrite Hq', Hq, app_nil_r|].
      split; [done|]. split; [|done].
      rewrite fmap_app. by apply sublist_inserts_r.
Qed.

(** X6.  With locking on, one periodic tick enqueues every feed at most
    once, however often the store's answer repeats it: what the submit
    loop appends to the queue is a subsequence of the records it was
    given, without two items for the same feed id, and afterwards none of
    those feeds is in a state from which a submit would enqueue. *)
Theorem tick_enqueues_each_feed_at_most_once (minimal_interval : Z)
    (feeds : list db.Feed) (m : Monitor) :
  1 < minimal_interval →
  ∃ added,
    _queue (submit_all minimal_interval feeds m) = _queue m ++ added
    ∧ NoDup (item_id <$> added)
    ∧ added `sublist_of` (of_Feed <$> feeds)
    ∧ ∀ feed, feed ∈ feeds →
        Mon.state_of (submit_all minimal_interval feeds m) (db.id feed)
        ≠ TaskState.EMPTY.
Proof.
  intros Hon.
  destruct (submit_all_added minimal_interval feeds m Hon)
    as (added & Hq & Hnd & Hsub & Hidle).
  exists added. repeat split; try done.
  intros feed Hin He. specialize (Hidle feed Hin).
  rewrite He in Hidle. discriminate.
Qed.

Lemma tick_enqueues_each_feed_at_most_once_witness :
  let feeds := [feed_with_id 7; feed_with_id 8; feed_with_id 7] in
  1 < 5
  ∧ ∃ added,
      _queue (submit_all 5 feeds Mon.init) = added
      ∧ NoDup (item_id <$> added)
      ∧ _queue (submit_all 5 feeds Mon.init)
        = [of_Feed (feed_with_id 7); of_Feed (feed_with_id 8)].
Proof.
  intros feeds. assert (1 < 5) as Hon by lia. split; [exact Hon|].
  destruct (tick_enqueues_each_feed_at_most_once 5 feeds Mon.init Hon)
    as (added & Hq & Hnd & _).
  exists added. split; [exact Hq|]. split; [exact Hnd|]. reflexivity.
Defined.

(** What a worker counts for its wait is never a deferral nor a
    resubmission. *)
Lemma worker_tag_keeps w s :
  tier2 (from_option tag_method (λ s, s) (worker_tag w) s) "deferred"
  = tier2 s "deferred"
  ∧ tier2 (from_option tag_method (λ s, s) (worker_tag w) s) "resubmitted"
    = tier2 s "resubmitted".
Proof.
  destruct w as [[|[]]|[|[]]|[]]; simpl; split;
    first [reflexivity
          | by apply (tag_method_frame timeout)
          | by apply (tag_method_frame timeout_unknown_error)
          | by apply (tag_method_frame cancelled)
          | by apply (tag_method_frame unknown_error)].
Qed.

Lemma finish_effects mi feed_id w m :
  let st := Mon.state_of m feed_id in
  let m' := Mon.monitor (Mon._do_monitor_task_finish mi feed_id w m) in
  _queue m' = _queue m ++ (if resubmits st TaskState.IN_PROGRESS
                           then [of_id feed_id] else [])
  ∧ loop_timers m'
    = loop_timers m ++ (if resubmits st TaskState.IN_PROGRESS
                        then lock_timers mi feed_id else [])
  ∧ _stat m'
    = (if resubmits st TaskState.IN_PROGRESS then Stat.resubmitted else λ s, s)
        (from_option tag_method (λ s, s) (worker_tag w) (_stat m)).
Proof.
  intros st m'. subst st m'.
  destruct (finish_before_erase mi feed_id w m) as (m1 & -> & Es & Eq & Em & Et).
  destruct (erase_effects mi feed_id TaskState.IN_PROGRESS m1) as (Hq & Ht & Hs).
  assert (Mon.state_of m1 feed_id = Mon.state_of m feed_id) as Est
    by (unfold Mon.state_of; by rewrite Em).
  rewrite Est, Eq in Hq. rewrite Est, Et in Ht. rewrite Est, Es in Hs.
  split; [done|]. split; [done|]. rewrite Hs. by destruct (resubmits _ _).
Qed.

Lemma fire_timer_effects mi n t m :
  loop_timers m !! n = Some t →
  let st := Mon.state_of m (timer_feed_id t) in
  let m' := Mon.fire_timer mi n m in
  _queue m' = _queue m ++ (if resubmits st (timer_flag t)
                           then [of_id (timer_feed_id t)] else [])
  ∧ loop_timers m'
    = delete n (loop_timers m)
      ++ (if resubmits st (timer_flag t)
          then lock_timers mi (timer_feed_id t) else [])
  ∧ _stat m'
    = (if resubmits st (timer_flag t) then Stat.resubmitted (_stat m)
       else _stat m)
  ∧ Mon.state_of m' (timer_feed_id t) = erased_state mi st (timer_flag t).
Proof.
  intros Hn st m'. subst st m'. unfold Mon.fire_timer. rewrite Hn.
  match goal with
  | |- context [Mon._erase_state_for_feed_id _ _ _ ?m0] =>
      destruct (erase_effects mi (timer_feed_id t) (timer_flag t) m0)
        as (Hq & Ht & Hs);
      pose proof (erase_state mi (timer_feed_id t) (timer_flag t) m0
                    (timer_feed_id t)) as Hst
  end.
  rewrite decide_True in Hst by done. by repeat split.
Qed.

(** X7.  An uncontended check, with locking on.  A feed is idle, with
    nothing queued and no timer pending.  It is submitted, dispatched and
    its worker starts: the feed is [LOCKED | IN_PROGRESS] with one unlock
    timer pending.  Whether the worker ends before the timer comes due or
    after it, and however the wait ended, the feed is idle again with
    nothing queued and no timer pending, and neither a deferral nor a
    resubmission has been counted. *)
Theorem uncontended_check_returns_to_idle (minimal_interval : Z)
    (feed : db.Feed) (w : WaitOutcome) (m : Monitor) :
  1 < minimal_interval →
  Mon.state_of m (db.id feed) = TaskState.EMPTY →
  _queue m = [] →
  loop_timers m = [] →
  let started :=
    monitor_steps minimal_interval
      [StepSubmit feed; StepDispatch; StepEnter (of_Feed feed)] m in
  let worker_first :=
    monitor_steps minimal_interval
      [StepFinish (db.id feed) w; StepTimer 0] started in
  let timer_first :=
    monitor_steps minimal_interval
      [StepTimer 0; StepFinish (db.id feed) w] started in
  (Mon.state_of started (db.id feed)
   = Z.lor TaskState.LOCKED TaskState.IN_PROGRESS
   ∧ _queue started = []
   ∧ loop_timers started
     = [mkTimer (minimal_interval * 60) (db.id feed) TaskState.LOCKED])
  ∧ (Mon.state_of worker_first (db.id feed) = TaskState.EMPTY
     ∧ _queue worker_first = [] ∧ loop_timers worker_first = []
     ∧ tier2 (_stat worker_first) "deferred" = tier2 (_stat m) "deferred"
     ∧ tier2 (_stat worker_first) "resubmitted" = tier2 (_stat m) "resubmitted")
  ∧ (Mon.state_of timer_first (db.id feed) = TaskState.EMPTY
     ∧ _queue timer_first = [] ∧ loop_timers timer_first = []
     ∧ tier2 (_stat timer_first) "deferred" = tier2 (_stat m) "deferred"
     ∧ tier2 (_stat timer_first) "resubmitted" = tier2 (_stat m) "resubmitted").
Proof.
  intros Hon Hidle Hq Ht started worker_first timer_first.
  set (f := db.id feed) in *.
  set (timer := mkTimer (minimal_interval * 60) f TaskState.LOCKED).
  (* submit *)
  set (m1 := Mon.submit_feed minimal_interval feed m).
  destruct (submit_effects minimal_interval feed m) as (Hq1 & Ht1 & Hs1).
  fold f m1 in Hq1, Ht1, Hs1.
  rewrite Hidle, Hq in Hq1. rewrite Hidle, Ht in Ht1. rewrite Hidle in Hs1.
  unfold lock_timers in Ht1. rewrite (proj2 (Z.leb_gt _ _)) in Ht1 by done.
  simpl in Hq1, Ht1, Hs1. fold timer in Ht1.
  assert (Mon.state_of m1 f = TaskState.LOCKED) as Hst1.
  { subst m1. rewrite submit_state, decide_True by done. fold f.
    rewrite Hidle. unfold submitted_state.
    by rewrite (proj2 (Z.leb_gt _ _)). }
  (* dispatch and enter *)
  assert (Mon.state_of started f = Z.lor TaskState.LOCKED TaskState.IN_PROGRESS
          ∧ _queue started = [] ∧ loop_timers started = [timer]
          ∧ _stat started = _stat m) as (Hst3 & Hq3 & Ht3 & Hs3).
  { subst started. unfold monitor_steps. cbn [foldl monitor_step].
    fold m1. unfold Mon.dispatch. rewrite Hq1. simpl.
    rewrite mark_in_progress_spec. fold f.
    split; [by rewrite state_of_insert; unfold Mon.state_of in *; simpl;
            rewrite Hst1|].
    by repeat split. }
  split; [done|].
  assert (resubmits (Z.lor TaskState.LOCKED TaskState.IN_PROGRESS)
            TaskState.IN_PROGRESS = false) as Hr3 by reflexivity.
  assert (resubmits (Z.lor TaskState.LOCKED TaskState.IN_PROGRESS)
            TaskState.LOCKED = false) as Hr3' by reflexivity.
  split.
  - (* the worker ends, then the timer comes due *)
    set (a1 := Mon.monitor
                 (Mon._do_monitor_task_finish minimal_interval f w started)).
    destruct (finish_effects minimal_interval f w started) as (Hqa & Hta & Hsa).
    fold a1 in Hqa, Hta, Hsa.
    rewrite Hst3, Hr3, Hq3 in Hqa. rewrite Hst3, Hr3, Ht3 in Hta.
    rewrite Hst3, Hr3, Hs3 in Hsa. simpl in Hqa, Hta.
    assert (Mon.state_of a1 f = TaskState.LOCKED) as Hsta.
    { subst a1. rewrite finish_state, decide_True by done. by rewrite Hst3. }
    assert (loop_timers a1 !! 0%nat = Some timer) as Hn by (by rewrite Hta).
    destruct (fire_timer_effects minimal_interval 0 timer a1 Hn)
      as (Hqb & Htb & Hsb & Hstb).
    change (timer_feed_id timer) with f in *.
    change (timer_flag timer) with TaskState.LOCKED in *.
    rewrite Hsta in Hqb, Htb, Hsb, Hstb.
    change (resubmits TaskState.LOCKED TaskState.LOCKED) with false in *.
    rewrite Hqa in Hqb. rewrite Hta in Htb. rewrite Hsa in Hsb.
    subst worker_first. unfold monitor_steps. cbn [foldl monitor_step].
    fold a1. rewrite Hstb, Hqb, Htb, Hsb.
    repeat split; try reflexivity; apply worker_tag_keeps.
  - (* the timer comes due, then the worker ends *)
    assert (loop_timers started !! 0%nat = Some timer) as Hn by (by rewrite Ht3).
    destruct (fire_timer_effects minimal_interval 0 timer started Hn)
      as (Hqb & Htb & Hsb & Hstb).
    change (timer_feed_id timer) with f in *.
    change (timer_flag timer) with TaskState.LOCKED in *.
    rewrite Hst3, ?Hr3' in Hqb, Htb, Hsb, Hstb.
    rewrite Hq3 in Hqb. rewrite Ht3 in Htb. rewrite Hs3 in Hsb.
    simpl in Hqb, Htb.
    set (b1 := Mon.fire_timer minimal_interval 0 started) in *.
    change (erased_state minimal_interval
              (Z.lor TaskState.LOCKED TaskState.IN_PROGRESS) TaskState.LOCKED)
      with TaskState.IN_PROGRESS in Hstb.
    destruct (finish_effects minimal_interval f w b1) as (Hqa & Hta & Hsa).
    rewrite Hstb in Hqa, Hta, Hsa.
    change (resubmits TaskState.IN_PROGRESS TaskState.IN_PROGRESS)
      with false in *.
    rewrite Hqb in Hqa. rewrite Htb in Hta. rewrite Hsb in Hsa.
    subst timer_first. unfold monitor_steps. cbn [foldl monitor_step].
    fold b1. rewrite finish_state, decide_True by done.
    rewrite Hstb, Hqa, Hta, Hsa.
    repeat split; try reflexivity; apply worker_tag_keeps.
Qed.

Lemma uncontended_check_returns_to_idle_witness :
  let feed := feed_with_id 7 in
  let started :=
    monitor_steps 5 [StepSubmit feed; StepDispatch; StepEnter (of_Feed feed)]
      Mon.init in
  let worker_first :=
    monitor_steps 5 [StepFinish 7 (Pending (Raises CancelledError)); StepTimer 0]
      started in
  1 < 5
  ∧ Mon.state_of Mon.init (db.id feed) = TaskState.EMPTY
  ∧ _queue Mon.init = []
  ∧ loop_timers Mon.init = []
  ∧ Mon.state_of worker_first 7 = TaskState.EMPTY
  ∧ loop_timers worker_first = []
  ∧ tier2 (_stat worker_first) "resubmitted" = 0.
Proof.
  intros feed started worker_first. assert (1 < 5) as Hon by lia.
  split; [exact Hon|]. do 3 (split; [reflexivity|]).
  destruct (uncontended_check_returns_to_idle 5 feed
              (Pending (Raises CancelledError)) Mon.init Hon eq_refl eq_refl
              eq_refl) as (_ & (Hst & _ & Ht & _ & Hr) & _).
  split; [exact Hst|]. split; [exact Ht|exact Hr].
Defined.

(** ** Windows of the statistics *)

Lemma tags_recorded s tags key :
  let s' := foldl stat_call s (CallTag <$> tags) in
  tier2 s' key = tier2 s key + recorded key tags
  ∧ _counter_tier1 s' = _counter_tier1 s
  ∧ _tier1_last_summary_time s' = _tier1_last_summary_time s
  ∧ _tier2_last_summary_time s' = _tier2_last_summary_time s
  ∧ _tier1_summary_period s' = _tier1_summary_period s.
Proof.
  revert s. induction tags as [|t tags IH]; intros s.
  - unfold recorded. simpl. repeat split. lia.
  - rewrite fmap_cons. cbn [foldl stat_call].
    destruct (IH (tag_method t s)) as (H2 & H1 & Ht1 & Ht2 & Hp).
    destruct (tag_method_times t s) as (E1 & E2 & E3 & E4).
    cbv zeta.
    split; [|by rewrite H1, Ht1, Ht2, Hp].
    rewrite H2, tag_method_tier2. unfold recorded.
    rewrite filter_cons. case_bool_decide as Hin.
    + rewrite decide_True by done. simpl length. lia.
    + rewrite decide_False by done. lia.
Qed.

Lemma recorded_SUM tags : recorded "SUM" tags = Z.of_nat (length tags).
Proof.
  unfold recorded. f_equal. induction tags as [|t tags IH]; [done|].
  rewrite filter_cons, decide_True; [simpl; by rewrite IH|].
  unfold touched_keys. set_solver.
Qed.

Lemma recorded_nonneg key tags : 0 ≤ recorded key tags.
Proof. unfold recorded. lia. Qed.

Lemma recorded_abnormal tags :
  truthy (recorded "cancelled" tags) || truthy (recorded "unknown_error" tags)
  || truthy (recorded "timeout" tags)
  || truthy (recorded "timeout_unknown_error" tags)
  = existsb abnormal tags.
Proof.
  induction tags as [|t tags IH]; [done|].
  cbn [existsb]. rewrite <- IH. unfold recorded. rewrite !filter_cons.
  pose proof (recorded_nonneg "cancelled" tags) as H1.
  pose proof (recorded_nonneg "unknown_error" tags) as H2.
  pose proof (recorded_nonneg "timeout" tags) as H3.
  pose proof (recorded_nonneg "timeout_unknown_error" tags) as H4.
  unfold recorded in *. unfold truthy.
  destruct t; unfold touched_keys; simpl tag_key; simpl also_not_updated;
    cbn [abnormal orb];
    repeat match goal with
           | |- context [decide (?k ∈ ?l)] =>
               first [rewrite (decide_False (P := k ∈ l))
                        by (rewrite ?not_elem_of_cons, elem_of_nil;
                            intuition discriminate)
                     | rewrite (decide_True (P := k ∈ l))
                         by (rewrite ?elem_of_cons; intuition)]
           end;
    try reflexivity; cbn [length];
    repeat match goal with
           | |- context [Z.of_nat (S ?n) =? 0] =>
               rewrite (proj2 (Z.eqb_neq (Z.of_nat (S n)) 0)) by lia
           end;
    cbn [negb orb]; rewrite ?orb_true_r; reflexivity.
Qed.

Lemma stat_after_calls_app calls calls' :
  stat_after_calls (calls ++ calls')
  = foldl stat_call (stat_after_calls calls) calls'.
Proof. unfold stat_after_calls. apply foldl_app. Qed.

(** The window that opens with a call of [print_summary]: tier-2 holds
    what was recorded since, on top of what was there before if that call
    was the first one. *)
Lemma window_after_summary calls now tags :
  let before := stat_after_calls calls in
  let s := stat_after_calls (calls ++ CallPrintSummary now :: (CallTag <$> tags)) in
  (∀ key,
     tier2 s key
     = (if _tier1_last_summary_time before is None then tier2 before key else 0)
       + recorded key tags)
  ∧ _tier2_last_summary_time s = Some now
  ∧ is_Some (_tier1_last_summary_time s).
Proof.
  intros before s. subst s. rewrite stat_after_calls_app. fold before.
  cbn [foldl stat_call].
  pose proof (stat_inv_after_calls calls) as Hinv. fold before in Hinv.
  destruct (print_summary_total now before Hinv) as [[s1 lines] E1].
  rewrite E1.
  destruct (tags_recorded s1 tags "SUM") as (_ & _ & Ht1 & Ht2 & _).
  assert ((∀ key, tier2 s1 key
                  = if _tier1_last_summary_time before is None
                    then tier2 before key else 0)
          ∧ _tier2_last_summary_time s1 = Some now) as [Hc Ht].
  { unfold Stat.print_summary in E1.
    destruct (_tier1_last_summary_time before) as [t1|].
    - destruct (_tier2_last_summary_time before) as [t2|]; [|done].
      destruct (_ <? _); injection E1 as <- <-; split; try done;
        intros key; unfold tier2; simpl; apply counter_get_empty.
    - injection E1 as <- <-. by split. }
  split; [|split].
  - intros key. destruct (tags_recorded s1 tags key) as (-> & _).
    by rewrite Hc.
  - by rewrite Ht2.
  - rewrite Ht1. by eapply print_summary_sets_baseline.
Qed.

(** X8.  After a call of [print_summary] that was not the first one, the
    tier-2 count of every key is the number of outcomes recorded since
    that touch the key; after the first call it is that number on top of
    what had been recorded before, because the first call clears nothing.
    The tier-2 baseline is the clock reading of that call. *)
Theorem window_counts_outcomes_since_summary (calls : list StatCall) (now : Q)
    (tags : list Tag) (key : string) :
  let before := stat_after_calls calls in
  let s := stat_after_calls (calls ++ CallPrintSummary now :: (CallTag <$> tags)) in
  tier2 s key
  = (if _tier1_last_summary_time before is None then tier2 before key else 0)
    + recorded key tags
  ∧ recorded "SUM" tags = Z.of_nat (length tags)
  ∧ _tier2_last_summary_time s = Some now.
Proof.
  intros before s.
  destruct (window_after_summary calls now tags) as (Hc & Ht & _).
  split; [apply Hc|]. split; [apply recorded_SUM | exact Ht].
Qed.

(** X9.  The tier-2 line of the next [print_summary], for a window opened
    by an earlier call that was not the first: with nothing recorded in
    the window it is the no-task line; otherwise it is a summary whose
    task count is the number of outcomes recorded in the window
    (deferrals and resubmissions included) and whose level is WARNING
    exactly when one of them was [cancelled], [unknown_error], [timeout]
    or [timeout_unknown_error], and DEBUG otherwise.  Its time span is
    [round] of the difference of the two clock readings as float
    subtraction computes it. *)
Theorem window_line_reports_window (calls : list StatCall) (now now' : Q)
    (tags : list Tag) :
  _tier1_last_summary_time (stat_after_calls calls) ≠ None →
  let s := stat_after_calls (calls ++ CallPrintSummary now :: (CallTag <$> tags)) in
  let span := Stat.py_round (Stat.float_sub now' now) in
  ∃ s' rest,
    Stat.print_summary now' s
    = Some (s',
            (match tags with
             | [] => Stat.NoTaskLine span
             | _ =>
                 Stat.SummaryLine
                   (Stat.mkSummary
                      (if existsb abnormal tags
                       then logging.WARNING else logging.DEBUG)
                      (Z.of_nat (length tags)) span
                      (Stat._stat (_counter_tier2 s)))
             end) :: rest).
Proof.
  intros Hprinted s span.
  destruct (window_after_summary calls now tags) as (Hc & Ht2 & [t1 Ht1]).
  fold s in Hc, Ht2, Ht1.
  assert (∀ key, counter_get (_counter_tier2 s) key = recorded key tags) as Hc'.
  { intros key. specialize (Hc key). unfold tier2 in Hc. rewrite Hc.
    destruct (_tier1_last_summary_time (stat_after_calls calls)); [lia|done]. }
  assert (Stat._summarize (_counter_tier2 s) logging.DEBUG span
          = match tags with
            | [] => Stat.NoTaskLine span
            | _ =>
                Stat.SummaryLine
                  (Stat.mkSummary
                     (if existsb abnormal tags
                      then logging.WARNING else logging.DEBUG)
                     (Z.of_nat (length tags)) span
                     (Stat._stat (_counter_tier2 s)))
            end) as Hline.
  { unfold Stat._summarize. rewrite !Hc', recorded_abnormal, recorded_SUM.
    by destruct tags. }
  unfold Stat.print_summary. rewrite Ht1, Ht2. fold span. rewrite Hline.
  destruct (_ <? _); eauto.
Qed.

Lemma window_line_reports_window_witness :
  let calls := [CallTag updated; CallPrintSummary 0] in
  let s :=
    stat_after_calls
      (calls ++ CallPrintSummary 60 :: (CallTag <$> [cached; timeout; deferred])) in
  _tier1_last_summary_time (stat_after_calls calls) ≠ None
  ∧ ∃ s' rest stat,
      Stat.print_summary 120 s
      = Some (s', Stat.SummaryLine (Stat.mkSummary logging.WARNING 3 60 stat)
                  :: rest).
Proof.
  intros calls s.
  assert (_tier1_last_summary_time (stat_after_calls calls) ≠ None) as Hp
    by discriminate.
  split; [exact Hp|].
  destruct (window_line_reports_window calls 60 120 [cached; timeout; deferred] Hp)
    as (s' & rest & E).
  exists s', rest, (Stat._stat (_counter_tier2 s)). exact E.
Defined.

Lemma breakdown_covered_tag t s :
  breakdown_covered (_counter_tier2 s) →
  breakdown_covered (_counter_tier2 (tag_method t s)).
Proof.
  unfold breakdown_covered.
  change (tier2 s "cached" + tier2 s "empty" ≤ tier2 s "not_updated"
          → tier2 (tag_method t s) "cached" + tier2 (tag_method t s) "empty"
            ≤ tier2 (tag_method t s) "not_updated").
  rewrite !tag_method_tier2. intros Hc.
  destruct t; unfold touched_keys; simpl tag_key; simpl also_not_updated;
    repeat match goal with
           | |- context [bool_decide ?P] =>
               first [rewrite (bool_decide_eq_true_2 P)
                        by (rewrite ?elem_of_cons; intuition)
                     | rewrite (bool_decide_eq_false_2 P)
                         by (rewrite ?not_elem_of_cons, elem_of_nil;
                             intuition discriminate)]
           end;
    lia.
Qed.

Lemma breakdown_covered_iadd (c other : gmap string Z) :
  (∀ k, 0 ≤ counter_get c k) → (∀ k, 0 ≤ counter_get other k) →
  breakdown_covered c → breakdown_covered other →
  breakdown_covered (counter_iadd c other).
Proof.
  unfold breakdown_covered. intros Hc Ho H1 H2.
  rewrite !counter_get_iadd by auto. lia.
Qed.

Lemma breakdown_covered_after_calls calls :
  breakdown_covered (_counter_tier1 (stat_after_calls calls))
  ∧ breakdown_covered (_counter_tier2 (stat_after_calls calls)).
Proof.
  induction calls as [|c calls IH] using rev_ind.
  - split; by vm_compute.
  - rewrite stat_after_calls_app. cbn [foldl].
    pose proof (stat_inv_after_calls calls) as Hinv.
    set (s := stat_after_calls calls) in *. destruct IH as [IH1 IH2].
    destruct c as [t|now]; cbn [stat_call].
    + split; [|by apply breakdown_covered_tag].
      destruct (tag_method_times t s) as (_ & _ & _ & ->). exact IH1.
    + destruct (Stat.print_summary now s) as [[s' lines]|] eqn:E; [|done].
      assert (breakdown_covered (∅ : gmap string Z)) as Hempty
        by (unfold breakdown_covered; by rewrite !counter_get_empty).
      unfold Stat.print_summary in E.
      destruct (_tier1_last_summary_time s) as [t1|].
      * destruct (_tier2_last_summary_time s) as [t2|]; [|done].
        destruct (_ <? _); injection E as <- <-; simpl; split; try done.
        apply breakdown_covered_iadd; try done;
          [apply (inv_nonneg1 _ Hinv) | apply (inv_nonneg2 _ Hinv)].
      * injection E as <- <-. by split.
Qed.

(** X10.  After any history of calls on a fresh statistics object, in
    both tiers: no count is negative, [cached] and [empty] together never
    exceed [not_updated], and [SUM] is the sum of the ten tags that feed
    it. *)
Theorem counters_stay_consistent (calls : list StatCall) (key : string) :
  let s := stat_after_calls calls in
  (0 ≤ tier1 s key ∧ 0 ≤ tier2 s key)
  ∧ (tier1 s "cached" + tier1 s "empty" ≤ tier1 s "not_updated"
     ∧ tier2 s "cached" + tier2 s "empty" ≤ tier2 s "not_updated")
  ∧ tier1 s "SUM" = sum_of_tags (_counter_tier1 s).
Proof.
  intros s.
  pose proof (stat_inv_after_calls calls) as [_ H1 N2 N1 _ _].
  destruct (breakdown_covered_after_calls calls) as [C1 C2].
  split; [split; [apply N1 | apply N2]|]. split; [by split | exact H1].
Qed.

(** ** The update detector, path by path *)

Section DetectorPaths.

Variable parse : string → option AwareDatetime.
Variable dec : string → Decimal.
Variable format_datetime : Z → string.
Variable strip : string → string.
Variable calc :
  option (list string) → list (gmap string string)
  → list string * list (gmap string string).
Variable migrate : db.Feed → string → option db.Feed.
Variable default_interval : Z.

Local Abbreviation check :=
  (_do_monitor_a_feed parse dec format_datetime strip calc migrate
     default_interval).
Local Abbreviation try_ :=
  (try_suite parse dec strip calc default_interval).
(** What the cache rules give on the answer as the check hands it over,
    with [wr.now] set. *)
Local Abbreviation cache_rules now wf wr :=
  (_defer_next_check_as_per_server_side_cache parse dec
     (web.set_web_response (web.set_now now wr) wf)).

(** A subset goal from a subset hypothesis, by membership. *)
Ltac subset_from H :=
  let x := fresh "x" in
  set_unfold in H; set_unfold; intros x; specialize (H x); tauto.

(** The [finally] suite leaves the statistics alone, and what it adds to
    the effects is at most a migration followed by at most one save of
    the final record. *)
Lemma finally_suite_shape wf l :
  let l' := finally_suite migrate wf l in
  l_stat l' = l_stat l
  ∧ ∃ mig sav,
      l_effects l' = l_effects l ++ mig ++ sav
      ∧ (mig = [] ∨ ∃ feed, mig = [MigrateToNewUrl feed (web.url wf)])
      ∧ (sav = [] ∧ feed_updated_fields l' = ∅
         ∨ sav = [Save (l_feed l') (feed_updated_fields l')]
           ∧ feed_updated_fields l' ≠ ∅)
      ∧ feed_updated_fields l'
        ⊆ feed_updated_fields l ∪ {["error_count"; "next_check_time"]}.
Proof.
  unfold finally_suite.
  set (step1 :=
         if no_error l then
           let '(feed, fields) :=
             if 0 <? db.error_count (l_feed l)
             then (set_error_count 0 (l_feed l),
                   feed_updated_fields l ∪ {["error_count"]})
             else (l_feed l, feed_updated_fields l) in
           if negb (bool_decide (web.url wf = db.link feed)) then
             (default feed (migrate feed (web.url wf)), fields,
              l_effects l ++ [MigrateToNewUrl feed (web.url wf)])
           else (feed, fields, l_effects l)
         else (l_feed l, feed_updated_fields l, l_effects l)).
  assert (∃ mig, step1.2 = l_effects l ++ mig
                 ∧ (mig = [] ∨ ∃ feed, mig = [MigrateToNewUrl feed (web.url wf)])
                 ∧ step1.1.2 ⊆ feed_updated_fields l ∪ {["error_count"]})
    as (mig & Hmig & Hshape & Hfields).
  { subst step1. destruct (no_error l).
    - destruct (0 <? db.error_count (l_feed l));
        destruct (negb (bool_decide _)); simpl;
        first [exists []; rewrite app_nil_r; split; [done|];
               split; [by left | set_solver]
              | eexists [_]; split; [done|]; split; [right; eauto | set_solver]].
    - exists []. simpl. rewrite app_nil_r. split; [done|].
      split; [by left | set_solver]. }
  destruct step1 as [[feed fields] effs]. simpl in Hmig, Hfields. subst effs.
  cbv zeta.
  destruct (negb (bool_decide (new_next_check_time l = db.next_check_time feed)));
    cbn [l_stat l_effects l_feed feed_updated_fields];
    (split; [done|]); exists mig;
    match goal with
    | |- context [bool_decide (?fs = ∅)] =>
        destruct (bool_decide_reflect (fs = ∅)) as [He|Hne];
        [exists []; rewrite !app_nil_r; split; [done|]; split; [done|];
         split; [by left | subset_from Hfields]
        |eexists [_]; rewrite <- app_assoc; split; [done|]; split; [done|];
         split; [by right | subset_from Hfields]]
    end.
Qed.

(** Membership in a literal list. *)
Ltac in_literal_list :=
  unfold detector_tags; rewrite ?elem_of_cons, ?elem_of_nil in *;
  intuition congruence.

(** What the [try] suite counts, by the way it is left. *)
Lemma try_suite_stat now feed subs wf fanout stat :
  let '(l, control) := try_ now feed subs wf fanout stat in
  match control with
  | Return_ =>
      ∃ t, t ∈ [cached; empty; not_updated; failed]
           ∧ l_stat l = tag_method t stat
  | FallThrough updated_entries => l_stat l = stat ∧ updated_entries ≠ []
  | Raise _ => l_stat l = stat
  end.
Proof.
  unfold try_suite. destruct (web.status wf =? 304).
  - exists cached. split; [in_literal_list|done].
  - destruct (web.rss_d wf) as [rss|].
    + unfold on_fetched. destruct (web.web_response wf) as [wr|]; [|done].
      destruct (match web.etag (web.set_now now wr) with
                | Some _ => _ | None => _ end) as [feed' fields].
      destruct (_defer_next_check_as_per_server_side_cache _ _ _); [|done].
      destruct (web.entries rss) eqn:Hentries.
      { exists empty. split; [in_literal_list|done]. }
      destruct (web.feed rss !! "title"); [|done].
      destruct (if bool_decide _ then _ else _) as [[feed'' fields'] effs].
      destruct (calc _ _) as [hs [|entry ue]].
      * exists not_updated. split; [in_literal_list|done].
      * done.
    + unfold on_fetch_failed. destruct (100 <=? _); [destruct fanout|];
        try done; exists failed; (split; [in_literal_list|done]).
Qed.

(** What the [try] suite never touches, and what it may. *)
Lemma try_suite_frame now feed subs wf fanout stat :
  let l := (try_ now feed subs wf fanout stat).1 in
  (db.id (l_feed l) = db.id feed
   ∧ db.link (l_feed l) = db.link feed
   ∧ db.updated_at (l_feed l) = db.updated_at feed
   ∧ db.interval (l_feed l) = db.interval feed
   ∧ db.next_check_time (l_feed l) = db.next_check_time feed)
  ∧ (omap saved (l_effects l) = []
     ∧ omap notified (l_effects l) = []
     ∧ omap migrated (l_effects l) = [])
  ∧ feed_updated_fields l
    ⊆ {["error_count"; "etag"; "title"; "last_modified"; "entry_hashes"]}
  ∧ no_error l = negb (fetch_failed wf)
  ∧ db.error_count (l_feed l)
    = (if fetch_failed wf then db.error_count feed + 1 else db.error_count feed).
Proof.
  unfold try_suite, fetch_failed. destruct (web.status wf =? 304); simpl.
  { repeat split; set_solver. }
  destruct (web.rss_d wf) as [rss|]; simpl.
  - unfold on_fetched. destruct (web.web_response wf) as [wr|];
      [|simpl; repeat split; set_solver].
    assert (∃ feed' fields,
              match web.etag (web.set_now now wr) with
              | Some etag =>
                  if nonempty etag && negb (bool_decide (Some etag = db.etag feed))
                  then (set_etag (Some etag) feed, ({["etag"]} : gset string))
                  else (feed, ∅)
              | None => (feed, ∅)
              end = (feed', fields)
              ∧ fields ⊆ {["etag"]}
              ∧ db.id feed' = db.id feed ∧ db.link feed' = db.link feed
              ∧ db.updated_at feed' = db.updated_at feed
              ∧ db.interval feed' = db.interval feed
              ∧ db.next_check_time feed' = db.next_check_time feed
              ∧ db.error_count feed' = db.error_count feed
              ∧ db.entry_hashes feed' = db.entry_hashes feed)
      as (feed' & fields & -> & Hf & H1 & H2 & H3 & H4 & H5 & H6 & H7).
    { destruct (web.etag (web.set_now now wr)) as [etag|];
        [destruct (nonempty etag && _)|]; eexists _, _;
        (split; [reflexivity|]); repeat split; set_solver. }
    destruct (_defer_next_check_as_per_server_side_cache _ _ _);
      [|simpl; repeat split; try done; set_solver].
    destruct (web.entries rss); [simpl; repeat split; try done; set_solver|].
    destruct (web.feed rss !! "title");
      [|simpl; repeat split; try done; set_solver].
    destruct (bool_decide _); destruct (calc _ _) as [hs [|entry ue]]; simpl;
      rewrite ?omap_app; simpl; repeat split; try done;
      set_unfold in Hf; set_unfold; intros x; specialize (Hf x); tauto.
  - unfold on_fetch_failed. destruct (100 <=? _); [destruct fanout|]; simpl;
      destruct (_ =? 0); simpl; repeat split; set_solver.
Qed.

Lemma omap_migrated_fetched link hs l :
  omap migrated (FeedGet link hs :: l) = omap migrated l.
Proof. reflexivity. Qed.

Lemma omap_notified_fetched link hs l :
  omap notified (FeedGet link hs :: l) = omap notified l.
Proof. reflexivity. Qed.

Lemma omap_saved_fetched link hs l :
  omap saved (FeedGet link hs :: l) = omap saved l.
Proof. reflexivity. Qed.

(** A check either leaves by one of its three early exits or gets to the
    fetch. *)
Lemma check_cases now subs flood_locked wf fanout feed stat :
  (¬ fetch_reached now subs flood_locked feed
   ∧ ∃ effs,
       check now subs flood_locked wf fanout feed stat
       = mkChecked feed (Stat.skipped stat) effs None
       ∧ (effs = []
          ∨ subs = []
            ∧ effs = [LogLine logging.WARNING "Feed has no active subscribers";
                      UpdateInterval feed]))
  ∨ fetch_reached now subs flood_locked feed.
Proof.
  unfold _do_monitor_a_feed, fetch_reached.
  destruct (db.next_check_time feed) as [t|] eqn:Et.
  - destruct (Z.ltb_spec now t) as [Hlt|Hge].
    + left. split; [|eauto]. intros [Hs _]. specialize (Hs t eq_refl). lia.
    + destruct subs as [|sub subs'].
      * left. split; [by intros (_ & ? & _)|]. eexists. split; [done|]. eauto.
      * destruct (forallb _ (sub :: subs')) eqn:Hfl.
        -- left. split; [by intros (_ & _ & ?)|]. eauto.
        -- right. split; [by intros t' [= <-]|done].
  - destruct subs as [|sub subs'].
    + left. split; [by intros (_ & ? & _)|]. eexists. split; [done|]. eauto.
    + destruct (forallb _ (sub :: subs')) eqn:Hfl.
      * left. split; [by intros (_ & _ & ?)|]. eauto.
      * right. split; [by intros t'|done].
Qed.

(** X11.  Every check that ends without an exception records exactly one
    outcome, one of [skipped], [cached], [empty], [not_updated], [failed]
    and [updated]. *)
Theorem check_records_one_outcome (now : Z) (subs : list db.Sub)
    (flood_locked : Z → bool) (wf : web.WebFeed) (fanout : Awaited)
    (feed : db.Feed) (stat : MonitoringStat) :
  let r := check now subs flood_locked wf fanout feed stat in
  raised r = None →
  ∃ t, t ∈ detector_tags ∧ stat_after r = tag_method t stat.
Proof.
  intros r. subst r.
  destruct (check_cases now subs flood_locked wf fanout feed stat)
    as [(_ & effs & -> & _)|Hreach].
  { intros _. exists skipped. split; [in_literal_list|done]. }
  rewrite check_unfolds_when_fetch_reached by done.
  pose proof (try_suite_stat now feed subs wf fanout stat) as Hstat.
  destruct (try_suite _ _ _ _ _ _ _ _ _ _ _) as [l control].
  destruct (finally_suite_shape wf l) as [Hs _]. cbv zeta in *.
  destruct control as [|ue|e]; simpl.
  - intros _. destruct Hstat as (t & Ht & Hl). exists t.
    split; [in_literal_list|]. by rewrite Hs.
  - destruct Hstat as [Hl _]. destruct fanout; simpl; [|done].
    intros _. exists updated. split; [in_literal_list|]. by rewrite Hs, Hl.
  - done.
Qed.


(** X13.  A check issues at most one [save]; when it does, the record
    saved is the one the check ends with, and the fields named are not
    empty and are among [error_count], [etag], [title], [last_modified],
    [entry_hashes] and [next_check_time]. *)
Theorem check_saves_at_most_once (now : Z) (subs : list db.Sub)
    (flood_locked : Z → bool) (wf : web.WebFeed) (fanout : Awaited)
    (feed : db.Feed) (stat : MonitoringStat) :
  let r := check now subs flood_locked wf fanout feed stat in
  omap saved (effects r) = []
  ∨ ∃ fields,
      omap saved (effects r) = [(feed_after r, fields)]
      ∧ fields ≠ ∅
      ∧ fields ⊆ writable_fields.
Proof.
  intros r. subst r.
  destruct (check_cases now subs flood_locked wf fanout feed stat)
    as [(_ & effs & -> & [->| [_ ->]])|Hreach]; [by left..|].
  rewrite check_unfolds_when_fetch_reached by done.
  destruct (try_suite_frame now feed subs wf fanout stat) as (_ & (Hsv & _) & Hfl & _).
  destruct (try_suite _ _ _ _ _ _ _ _ _ _ _) as [l control]. simpl in Hsv, Hfl.
  destruct (finally_suite_shape wf l) as (_ & mig & sav & He & Hmig & Hsav & Hf').
  cbv zeta.
  assert (omap saved mig = []) as Hm by (by destruct Hmig as [->|[? ->]]).
  assert (∀ sent : list (gmap string string),
            omap saved ((λ entry, NotifyAll (l_feed (finally_suite migrate wf l))
                                    subs entry) <$> sent) = []) as Hsent.
  { intros sent. by induction sent. }
  assert (feed_updated_fields (finally_suite migrate wf l) ⊆ writable_fields)
    as Hw.
  { unfold writable_fields. set_unfold in Hfl. set_unfold in Hf'. set_unfold.
    intros x Hx. specialize (Hf' x Hx). specialize (Hfl x). tauto. }
  assert (omap saved (l_effects (finally_suite migrate wf l)) = omap saved sav)
    as Hall by (by rewrite He, !omap_app, Hsv, Hm).
  destruct control as [|ue|e]; [|destruct fanout|]; cbn [effects feed_after];
    rewrite omap_saved_fetched, ?omap_app, ?Hsent, ?app_nil_r, Hall;
    (destruct Hsav as [[-> _]|[-> Hne]]; [by left | right; eauto]).
Qed.

(** The back-off of a failed fetch is only set from the tenth failure
    on, is longer than the interval and at most five times as long, and
    never exceeds 75 minutes. *)
Lemma next_check_interval_bounds feed minutes :
  next_check_interval default_interval feed = Some minutes →
  let interval := int_or (db.interval feed) default_interval in
  10 ≤ db.error_count feed
  ∧ 0 < interval < minutes
  ∧ minutes ≤ 5 * interval
  ∧ minutes ≤ 75.
Proof.
  unfold next_check_interval.
  destruct (Z.leb_spec 10 (db.error_count feed)) as [Hec|]; [|done].
  set (interval := int_or (db.interval feed) default_interval).
  set (k := Z.min (db.error_count feed / 10 + 1) 5).
  assert (2 ≤ k ≤ 5) as Hk.
  { subst k. assert (1 ≤ db.error_count feed / 10)
      by (apply Z.div_le_lower_bound; lia). lia. }
  destruct (Z.ltb_spec interval (Z.min interval 15 * k)) as [Hlt|]; [|done].
  intros [= <-]. cbv zeta. split; [done|].
  destruct (Z.min_spec interval 15) as [[? ->]|[? ->]]; nia.
Qed.

(** A failed fetch, spelled out. *)
Lemma failed_check now subs flood_locked wf fanout feed stat :
  fetch_reached now subs flood_locked feed →
  fetch_failed wf = true →
  let r := check now subs flood_locked wf fanout feed stat in
  let counted := set_error_count (db.error_count feed + 1) feed in
  let next :=
    if 100 <=? db.error_count feed + 1 then None
    else (λ minutes, now + timedelta_minutes minutes)
           <$> next_check_interval default_interval counted in
  let deactivation :=
    if 100 <=? db.error_count feed + 1 then fanout else Returns in
  feed_after r = set_next_check_time next counted
  ∧ stat_after r = (if deactivation is Returns then Stat.failed stat else stat)
  ∧ raised r = (if deactivation is Raises e then Some e else None)
  ∧ omap deactivated (effects r)
    = (if 100 <=? db.error_count feed + 1
       then [(counted, subs, web.error wf)] else [])
  ∧ (∃ fields, omap saved (effects r) = [(feed_after r, fields)]
               ∧ "error_count" ∈ fields)
  ∧ omap migrated (effects r) = []
  ∧ omap notified (effects r) = [].
Proof.
  intros Hreach Hfailed r counted next deactivation. subst r deactivation.
  unfold fetch_failed in Hfailed.
  apply andb_true_iff in Hfailed as [Hs Hr].
  apply negb_true_iff in Hs. apply bool_decide_eq_true in Hr.
  rewrite check_unfolds_when_fetch_reached by done.
  unfold try_suite. rewrite Hs, Hr. unfold on_fetch_failed.
  fold counted. cbn [db.error_count set_error_count counted].
  assert (∀ (fields nct : gset string),
            fields = {["error_count"]} ∨ fields = {["error_count"]} ∪ nct →
            bool_decide (fields = ∅) = false) as Hne.
  { intros fields nct Hf. apply bool_decide_eq_false.
    intros He. assert ("error_count" ∈ fields) as Hin
      by (destruct Hf as [->| ->]; set_unfold; tauto).
    rewrite He in Hin. by apply not_elem_of_empty in Hin. }
  subst next.
  destruct (100 <=? db.error_count feed + 1);
    [destruct fanout as [|e]
    |destruct (next_check_interval default_interval counted) as [minutes|];
      cbn [fmap option_fmap option_map]];
    unfold finally_suite;
    cbn [no_error l_feed new_next_check_time feed_updated_fields l_effects
         l_stat];
    (case_bool_decide as Hn; cbn [negb];
     [rewrite (Hne _ ∅) by (by left)
     |rewrite (Hne _ {["next_check_time"]}) by (by right)]);
    cbn [feed_after stat_after raised effects];
    destruct (_ mod 20 =? 0); cbn;
    repeat split;
    try (by destruct feed; simplify_eq/=);
    try (eexists; split; [reflexivity|]; set_unfold; tauto).
Qed.

(** X14.  A check whose fetch fails always adds 1 to [error_count],
    saves the record with [error_count] among the fields named, and
    neither migrates nor sends an entry.  The feed is deactivated, with
    the fetch error as the reason, exactly when the new count reaches 100.
    The check records [failed], unless that deactivation raises: then it
    records nothing.  When the count reaches 100, and also while it is
    below 10, any stored [next_check_time] is cleared. *)
Theorem failed_fetch_counts_and_deactivates (now : Z) (subs : list db.Sub)
    (flood_locked : Z → bool) (wf : web.WebFeed) (fanout : Awaited)
    (feed : db.Feed) (stat : MonitoringStat) :
  fetch_reached now subs flood_locked feed →
  fetch_failed wf = true →
  let r := check now subs flood_locked wf fanout feed stat in
  let error_count := db.error_count feed + 1 in
  let deactivation := if 100 <=? error_count then fanout else Returns in
  db.error_count (feed_after r) = error_count
  ∧ stat_after r = (if deactivation is Returns then Stat.failed stat else stat)
  ∧ omap deactivated (effects r)
    = (if 100 <=? error_count
       then [(set_error_count error_count feed, subs, web.error wf)] else [])
  ∧ (∃ fields, omap saved (effects r) = [(feed_after r, fields)]
               ∧ "error_count" ∈ fields)
  ∧ omap migrated (effects r) = []
  ∧ omap notified (effects r) = []
  ∧ (error_count < 10 ∨ 100 ≤ error_count →
     db.next_check_time (feed_after r) = None).
Proof.
  intros Hreach Hfailed r error_count deactivation.
  destruct (failed_check now subs flood_locked wf fanout feed stat Hreach Hfailed)
    as (Hf & Hs & Hr & Hd & Hsv & Hm & Hn).
  fold r in Hf, Hs, Hr, Hd, Hsv, Hm, Hn.
  repeat (split; [first [done | by rewrite Hf]|]).
  intros Hrange. rewrite Hf. cbn [db.next_check_time set_next_check_time].
  destruct (Z.leb_spec 100 (db.error_count feed + 1)); [done|].
  unfold next_check_interval. cbn [db.error_count set_error_count].
  rewrite (proj2 (Z.leb_gt _ _)); [done|]. subst error_count. lia.
Qed.

(** X15.  Whenever a failed fetch schedules the next check, the scheduled
    time is later than [now] by more than the feed's interval and by at
    most 75 minutes, and the failure count after the increment is between
    10 and 99. *)
Theorem failed_fetch_back_off_is_bounded (now : Z) (subs : list db.Sub)
    (flood_locked : Z → bool) (wf : web.WebFeed) (fanout : Awaited)
    (feed : db.Feed) (stat : MonitoringStat) (t : Z) :
  fetch_reached now subs flood_locked feed →
  fetch_failed wf = true →
  let r := check now subs flood_locked wf fanout feed stat in
  let interval := int_or (db.interval feed) default_interval in
  db.next_check_time (feed_after r) = Some t →
  10 ≤ db.error_count feed + 1 < 100
  ∧ 0 < interval
  ∧ now + timedelta_minutes interval < t ≤ now + timedelta_minutes 75.
Proof.
  intros Hreach Hfailed r interval Ht.
  destruct (failed_check now subs flood_locked wf fanout feed stat Hreach Hfailed)
    as (Hf & _).
  fold r in Hf. rewrite Hf in Ht.
  cbn [db.next_check_time set_next_check_time] in Ht.
  destruct (Z.leb_spec 100 (db.error_count feed + 1)); [done|].
  destruct (next_check_interval default_interval _) as [minutes|] eqn:Hn;
    [|done].
  apply next_check_interval_bounds in Hn as (Hec & Hi & _ & H75).
  cbn [db.error_count db.interval set_error_count] in Hec, Hi.
  fold interval in Hi. injection Ht as <-.
  unfold timedelta_minutes, timedelta_seconds. lia.
Qed.

(** When the url has not moved, the [finally] suite writes nothing but
    [error_count] and [next_check_time], and calls no migration. *)
Lemma finally_suite_same_url wf l :
  (no_error l = true → web.url wf = db.link (l_feed l)) →
  let l' := finally_suite migrate wf l in
  (db.id (l_feed l') = db.id (l_feed l)
   ∧ db.link (l_feed l') = db.link (l_feed l)
   ∧ db.title (l_feed l') = db.title (l_feed l)
   ∧ db.etag (l_feed l') = db.etag (l_feed l)
   ∧ db.last_modified (l_feed l') = db.last_modified (l_feed l)
   ∧ db.entry_hashes (l_feed l') = db.entry_hashes (l_feed l))
  ∧ db.error_count (l_feed l')
    = (if no_error l && (0 <? db.error_count (l_feed l)) then 0
       else db.error_count (l_feed l))
  ∧ l_effects l'
    = l_effects l
      ++ (if bool_decide (feed_updated_fields l' = ∅) then []
          else [Save (l_feed l') (feed_updated_fields l')]).
Proof.
  intros Hurl. unfold finally_suite.
  destruct (no_error l).
  - specialize (Hurl eq_refl).
    assert (∀ feed, db.link feed = db.link (l_feed l) →
                    bool_decide (web.url wf = db.link feed) = true) as Hsame.
    { intros feed Hl. apply bool_decide_eq_true. congruence. }
    destruct (0 <? db.error_count (l_feed l)); cbv zeta;
      rewrite Hsame by done; cbn [negb andb];
      destruct (negb (bool_decide _)); cbn;
      repeat split; try done; destruct (bool_decide _); by rewrite ?app_nil_r.
  - cbn [andb]. destruct (negb (bool_decide _)); cbn;
      repeat split; try done; destruct (bool_decide _); by rewrite ?app_nil_r.
Qed.

(** X16.  A check that gets to the fetch, is answered without a fetch
    failure by the url it asked for, ends with [error_count] at 0 if it
    was positive and untouched otherwise, whether the check then returns,
    falls through to the fan-out or raises; and it calls no migration. *)
Theorem answered_fetch_resets_error_count (now : Z) (subs : list db.Sub)
    (flood_locked : Z → bool) (wf : web.WebFeed) (fanout : Awaited)
    (feed : db.Feed) (stat : MonitoringStat) :
  fetch_reached now subs flood_locked feed →
  fetch_failed wf = false →
  web.url wf = db.link feed →
  let r := check now subs flood_locked wf fanout feed stat in
  db.error_count (feed_after r)
  = (if 0 <? db.error_count feed then 0 else db.error_count feed)
  ∧ db.link (feed_after r) = db.link feed
  ∧ omap migrated (effects r) = [].
Proof.
  intros Hreach Hok Hurl r. subst r.
  rewrite check_unfolds_when_fetch_reached by done.
  destruct (try_suite_frame now feed subs wf fanout stat)
    as ((_ & Hlink & _) & (_ & _ & Hmig) & _ & Hne & Hec).
  destruct (try_suite _ _ _ _ _ _ _ _ _ _ _) as [l control].
  simpl in Hlink, Hmig, Hne, Hec. rewrite Hok in Hne, Hec. simpl in Hne.
  destruct (finally_suite_same_url wf l) as ((_ & Hl' & _) & Hec' & Heff);
    [intros _; congruence|].
  cbv zeta in *. rewrite Hne, Hec in Hec'. cbn [andb] in Hec'.
  assert (omap migrated (l_effects (finally_suite migrate wf l)) = []) as Hm.
  { rewrite Heff, omap_app, Hmig. by destruct (bool_decide _). }
  assert (∀ f (sent : list (gmap string string)),
            omap migrated ((λ entry, NotifyAll f subs entry) <$> sent) = [])
    as Hsent by (intros f sent; by induction sent).
  destruct control as [|ue|e]; [|destruct fanout|];
    cbn [feed_after effects];
    rewrite omap_migrated_fetched, ?omap_app, ?Hsent, ?Hm;
    repeat split; congruence.
Qed.

Lemma islice_or_none_spec (new_hashes : list string) (n : Z) :
  match islice_or_none new_hashes n with
  | Some hashes =>
      hashes ≠ [] ∧ hashes = take (Z.to_nat n) new_hashes
  | None => take (Z.to_nat n) new_hashes = []
  end.
Proof.
  unfold islice_or_none. by destruct (take (Z.to_nat n) new_hashes).
Qed.

(** The [try] suite on a parsed document when the cache rules raise: it
    is left at once, with nothing counted and nothing asked for. *)
Lemma on_fetched_cache_raises now feed wf wr rss stat :
  web.web_response wf = Some wr →
  cache_rules now wf wr = None →
  ∃ l,
    on_fetched parse dec strip calc now feed wf rss stat = (l, Raise Exception_)
    ∧ l_stat l = stat
    ∧ l_effects l = []
    ∧ db.entry_hashes (l_feed l) = db.entry_hashes feed
    ∧ db.last_modified (l_feed l) = db.last_modified feed.
Proof.
  intros Hwr Hcache. unfold on_fetched. rewrite Hwr, Hcache.
  destruct (web.etag (web.set_now now wr)) as [etag|];
    [destruct (nonempty etag && _)|]; eexists; by repeat split.
Qed.

(** The [try] suite on a parsed document that has entries and a title,
    when the cache rules return: it is left by what [calculate_update]
    says is new. *)
Lemma on_fetched_parsed now feed wf wr rss title stat :
  web.web_response wf = Some wr →
  web.rss_d wf = Some rss →
  web.entries rss ≠ [] →
  web.feed rss !! "title" = Some title →
  is_Some (cache_rules now wf wr) →
  let found := calc (db.entry_hashes feed) (web.entries rss) in
  ∃ l,
    on_fetched parse dec strip calc now feed wf rss stat
    = (l, match found.2 with
          | [] => Return_
          | _ => FallThrough found.2
          end)
    ∧ l_stat l = (match found.2 with
                  | [] => Stat.not_updated stat
                  | _ => stat
                  end)
    ∧ db.entry_hashes (l_feed l)
      = (match found.2 with
         | [] => db.entry_hashes feed
         | _ =>
             islice_or_none found.1
               (Z.max (Z.of_nat (length (web.entries rss)) * 2) 100)
         end)
    ∧ db.last_modified (l_feed l)
      = (match found.2 with
         | [] => db.last_modified feed
         | _ => web.last_modified wr
         end).
Proof.
  intros Hwr Hrss Hentries Htitle [next Hnext] found.
  unfold on_fetched. rewrite Hwr.
  assert (∃ feed' fields,
            match web.etag (web.set_now now wr) with
            | Some etag =>
                if nonempty etag && negb (bool_decide (Some etag = db.etag feed))
                then (set_etag (Some etag) feed, ({["etag"]} : gset string))
                else (feed, ∅)
            | None => (feed, ∅)
            end = (feed', fields)
            ∧ db.entry_hashes feed' = db.entry_hashes feed
            ∧ db.last_modified feed' = db.last_modified feed)
    as (feed' & fields & -> & He & Hl).
  { destruct (web.etag (web.set_now now wr)) as [etag|];
      [destruct (nonempty etag && _)|]; eexists _, _; by repeat split. }
  rewrite Hnext. destruct (web.entries rss) as [|entry entries] eqn:Eent; [done|].
  rewrite Htitle.
  assert (∃ feed'' fields' effs,
            (if bool_decide
                  ((if nonempty title then strip title else "") = db.title feed')
             then (feed', fields, [])
             else (set_title (if nonempty title then strip title else "") feed',
                   fields ∪ {["title"]},
                   [LogLine logging.DEBUG "Feed title changed"]))
            = (feed'', fields', effs)
            ∧ db.entry_hashes feed'' = db.entry_hashes feed
            ∧ db.last_modified feed'' = db.last_modified feed)
    as (feed'' & fields' & effs & -> & He' & Hl').
  { destruct (bool_decide _); eexists _, _, _; by repeat split. }
  rewrite He'. subst found. rewrite <- Eent.
  destruct (calc (db.entry_hashes feed) (web.entries rss)) as [hs [|e ue]];
    eexists; (split; [reflexivity|]); simpl; by repeat split.
Qed.

(** X17.  For a check that gets to the fetch and is answered, by the url
    it asked for, with a response and a document that has entries and a
    title, and not with a 304.  If the cache rules return and
    [calculate_update] finds new entries, the check stores as
    [entry_hashes] the leading [max(2 * len(entries), 100)] of the new
    hashes: the stored list is a non-empty prefix of the new hashes no
    longer than that bound, it is all of them when they fit, and it is
    none when there are no hashes at all; and [last_modified] is taken
    from the response.  If no entry is new, or the cache rules raise,
    both fields are left as they were. *)
Theorem updated_check_bounds_entry_hashes (now : Z) (subs : list db.Sub)
    (flood_locked : Z → bool) (wf : web.WebFeed) (wr : web.WebResponse)
    (rss : web.RssD) (title : string) (fanout : Awaited) (feed : db.Feed)
    (stat : MonitoringStat) :
  fetch_reached now subs flood_locked feed →
  web.status wf ≠ 304 →
  web.web_response wf = Some wr →
  web.rss_d wf = Some rss →
  web.entries rss ≠ [] →
  web.feed rss !! "title" = Some title →
  web.url wf = db.link feed →
  let r := check now subs flood_locked wf fanout feed stat in
  let found := calc (db.entry_hashes feed) (web.entries rss) in
  let bound := Z.max (Z.of_nat (length (web.entries rss)) * 2) 100 in
  match cache_rules now wf wr, found.2 with
  | None, _ | Some _, [] =>
      db.entry_hashes (feed_after r) = db.entry_hashes feed
      ∧ db.last_modified (feed_after r) = db.last_modified feed
  | Some _, _ =>
      db.last_modified (feed_after r) = web.last_modified wr
      ∧ match db.entry_hashes (feed_after r) with
        | Some hashes =>
            hashes ≠ []
            ∧ hashes `prefix_of` found.1
            ∧ Z.of_nat (length hashes) ≤ bound
            ∧ (Z.of_nat (length found.1) ≤ bound → hashes = found.1)
        | None => found.1 = []
        end
  end.
Proof.
  intros Hreach Hstatus Hwr Hrss Hentries Htitle Hurl r found bound. subst r.
  rewrite check_unfolds_when_fetch_reached by done.
  destruct (try_suite_frame now feed subs wf fanout stat)
    as ((_ & Hlink & _) & _).
  unfold try_suite in *. rewrite (proj2 (Z.eqb_neq _ _) Hstatus), Hrss in *.
  destruct (cache_rules now wf wr) as [next|] eqn:Hcache.
  2:{ destruct (on_fetched_cache_raises now feed wf wr rss stat Hwr Hcache)
        as (l & Hon & _ & _ & He & Hl).
      rewrite Hon in Hlink |- *. simpl in Hlink.
      destruct (finally_suite_same_url wf l)
        as ((_ & _ & _ & _ & Hl' & He') & _); [intros _; congruence|].
      cbv zeta in *. cbn [feed_after]. split; congruence. }
  destruct (on_fetched_parsed now feed wf wr rss title stat Hwr Hrss Hentries
              Htitle) as (l & Hon & _ & He & Hl); [by rewrite Hcache|].
  rewrite Hon in Hlink |- *. simpl in Hlink. fold bound in He.
  destruct (finally_suite_same_url wf l)
    as ((_ & _ & _ & _ & Hl' & He') & _); [intros _; congruence|].
  cbv zeta in *. subst found.
  destruct (calc (db.entry_hashes feed) (web.entries rss)) as [new_hashes ue].
  cbn [fst snd] in *.
  destruct ue as [|entry ue].
  - cbn [feed_after]. split; congruence.
  - assert (∀ x : Checked,
              feed_after x = l_feed (finally_suite migrate wf l) →
              db.last_modified (feed_after x) = web.last_modified wr
              ∧ match db.entry_hashes (feed_after x) with
                | Some hashes =>
                    hashes ≠ [] ∧ hashes `prefix_of` new_hashes
                    ∧ Z.of_nat (length hashes) ≤ bound
                    ∧ (Z.of_nat (length new_hashes) ≤ bound
                       → hashes = new_hashes)
                | None => new_hashes = []
                end) as Hgoal.
    { intros x ->. split; [congruence|]. rewrite He', He.
      pose proof (islice_or_none_spec new_hashes bound) as Hspec.
      assert (100 ≤ bound) as Hb by (subst bound; lia).
      destruct (islice_or_none new_hashes bound) as [hashes|].
      - destruct Hspec as [Hne ->]. split; [done|].
        split; [apply prefix_take|]. split.
        + rewrite length_take. lia.
        + intros Hfit. apply take_ge. lia.
      - destruct new_hashes as [|h hs]; [done|].
        destruct (Z.to_nat bound) eqn:Hn; [lia|done]. }
    destruct fanout; by apply Hgoal.
Qed.

(** X18.  The fan-out of a check goes through the new entries in the
    reverse of the order [calculate_update] gives them, oldest first: one
    [__notify_all] per entry, each for the record the check ends with and
    for all the active subscribers.  [updated] is recorded only when there
    is a new entry and the fan-out returns; without a new entry the check
    records [not_updated] and notifies nobody.  (The answer is not a 304
    and carries a response and a document with entries and a title; when
    the cache rules raise on it, the check ends with that exception
    before it looks for new entries, notifies nobody and records
    nothing.) *)
Theorem fanout_goes_oldest_first (now : Z) (subs : list db.Sub)
    (flood_locked : Z → bool) (wf : web.WebFeed) (wr : web.WebResponse)
    (rss : web.RssD) (title : string) (fanout : Awaited) (feed : db.Feed)
    (stat : MonitoringStat) :
  fetch_reached now subs flood_locked feed →
  web.status wf ≠ 304 →
  web.web_response wf = Some wr →
  web.rss_d wf = Some rss →
  web.entries rss ≠ [] →
  web.feed rss !! "title" = Some title →
  let r := check now subs flood_locked wf fanout feed stat in
  let updated_entries := (calc (db.entry_hashes feed) (web.entries rss)).2 in
  match cache_rules now wf wr with
  | Some _ =>
      omap notified (effects r)
      = (λ entry, (feed_after r, subs, entry)) <$> reverse updated_entries
      ∧ match updated_entries, fanout with
        | [], _ => stat_after r = Stat.not_updated stat ∧ raised r = None
        | _, Returns => stat_after r = Stat.updated stat ∧ raised r = None
        | _, Raises e => stat_after r = stat ∧ raised r = Some e
        end
  | None =>
      omap notified (effects r) = []
      ∧ stat_after r = stat
      ∧ raised r = Some Exception_
  end.
Proof.
  intros Hreach Hstatus Hwr Hrss Hentries Htitle r updated_entries. subst r.
  rewrite check_unfolds_when_fetch_reached by done.
  destruct (try_suite_frame now feed subs wf fanout stat)
    as (_ & (_ & Hnot & _) & _).
  unfold try_suite in *. rewrite (proj2 (Z.eqb_neq _ _) Hstatus), Hrss in *.
  assert (∀ l, omap notified (l_effects l) = [] →
               omap notified (l_effects (finally_suite migrate wf l)) = [])
    as Hquiet.
  { intros l Hl.
    destruct (finally_suite_shape wf l) as (_ & mig & sav & He & Hmig & Hsav & _).
    rewrite He, !omap_app, Hl.
    destruct Hmig as [->|[? ->]]; destruct Hsav as [[-> _]|[-> _]]; done. }
  destruct (cache_rules now wf wr) as [next|] eqn:Hcache.
  2:{ destruct (on_fetched_cache_raises now feed wf wr rss stat Hwr Hcache)
        as (l & Hon & Hs & _).
      rewrite Hon in Hnot |- *. simpl in Hnot.
      destruct (finally_suite_shape wf l) as (Hs' & _). cbv zeta in *.
      cbn [effects stat_after raised].
      rewrite omap_notified_fetched, Hquiet by done.
      split; [done|]. split; congruence. }
  destruct (on_fetched_parsed now feed wf wr rss title stat Hwr Hrss Hentries
              Htitle) as (l & Hon & Hs & _); [by rewrite Hcache|].
  rewrite Hon in Hnot |- *. simpl in Hnot.
  destruct (finally_suite_shape wf l) as (Hs' & _).
  specialize (Hquiet l Hnot). cbv zeta in *.
  assert (∀ entries : list (gmap string string),
            omap notified
              ((λ entry, NotifyAll (l_feed (finally_suite migrate wf l)) subs
                           entry) <$> entries)
            = (λ entry, (l_feed (finally_suite migrate wf l), subs, entry))
                <$> entries) as Hsent.
  { intros entries. induction entries as [|entry entries IH]; [done|].
    rewrite !fmap_cons. cbn [omap list_omap notified]. f_equal. exact IH. }
  subst updated_entries.
  destruct (calc (db.entry_hashes feed) (web.entries rss)) as [new_hashes ue].
  cbn [fst snd] in *.
  destruct ue as [|entry ue]; [|destruct fanout];
    cbn [effects feed_after stat_after raised];
    rewrite omap_notified_fetched, ?omap_app, ?Hsent, Hquiet;
    (split; [done|]); split; congruence.
Qed.

End DetectorPaths.

(** ** The paths on the example inputs *)

Lemma check_records_one_outcome_witness :
  let feed := example_feed 0 None None in
  let r :=
    _do_monitor_a_feed example_parse example_decimal (λ _, "") (λ s, s)
      example_calculate_update example_migrate 30 0 example_subs
      nobody_flood_locked example_updated_response Returns feed Stat.init in
  raised r = None
  ∧ ∃ t, t ∈ detector_tags ∧ stat_after r = tag_method t Stat.init.
Proof.
  intros feed r.
  assert (raised r = None) as Hr by reflexivity.
  split; [exact Hr|].
  exact (check_records_one_outcome example_parse example_decimal (λ _, "")
           (λ s, s) example_calculate_update example_migrate 30 0 example_subs
           nobody_flood_locked example_updated_response Returns feed Stat.init
           Hr).
Defined.


Lemma failed_fetch_counts_and_deactivates_witness :
  let feed := example_feed 99 None None in
  let r :=
    _do_monitor_a_feed example_parse example_decimal (λ _, "") (λ s, s)
      example_calculate_update example_migrate 30 0 example_subs
      nobody_flood_locked example_failed_response (Raises Exception_) feed
      Stat.init in
  fetch_reached 0 example_subs nobody_flood_locked feed
  ∧ fetch_failed example_failed_response = true
  ∧ db.error_count (feed_after r) = 100
  ∧ stat_after r = Stat.init
  ∧ omap deactivated (effects r)
    = [(set_error_count 100 feed, example_subs, Some "timed out")]
  ∧ db.next_check_time (feed_after r) = None.
Proof.
  intros feed r.
  split; [apply example_fetch_reached_unscheduled|]. split; [reflexivity|].
  destruct (failed_fetch_counts_and_deactivates example_parse example_decimal
              (λ _, "") (λ s, s) example_calculate_update example_migrate 30 0
              example_subs nobody_flood_locked example_failed_response
              (Raises Exception_) feed Stat.init
              (example_fetch_reached_unscheduled 99 None) eq_refl)
    as (Hcount & Hstat & Hdeact & _ & _ & _ & Hnext).
  split; [exact Hcount|]. split; [exact Hstat|]. split; [exact Hdeact|].
  apply Hnext. right. simpl. lia.
Defined.

Lemma failed_fetch_back_off_is_bounded_witness :
  let feed := example_feed 9 (Some 10) None in
  let r :=
    _do_monitor_a_feed example_parse example_decimal (λ _, "") (λ s, s)
      example_calculate_update example_migrate 30 0 example_subs nobody_flood_locked
      example_failed_response Returns feed Stat.init in
  fetch_reached 0 example_subs nobody_flood_locked feed
  ∧ fetch_failed example_failed_response = true
  ∧ db.next_check_time (feed_after r) = Some (timedelta_minutes 20)
  ∧ 0 + timedelta_minutes (int_or (db.interval feed) 30)
    < timedelta_minutes 20 ≤ 0 + timedelta_minutes 75.
Proof.
  intros feed r.
  assert (db.next_check_time (feed_after r) = Some (timedelta_minutes 20))
    as Hnext by reflexivity.
  split; [apply example_fetch_reached_unscheduled|]. split; [reflexivity|].
  split; [exact Hnext|].
  exact (proj2 (proj2
    (failed_fetch_back_off_is_bounded example_parse example_decimal (λ _, "") (λ s, s)
       example_calculate_update example_migrate 30 0 example_subs
       nobody_flood_locked example_failed_response Returns feed Stat.init
       (timedelta_minutes 20) (example_fetch_reached_unscheduled 9 (Some 10))
       eq_refl Hnext))).
Defined.

Lemma answered_fetch_resets_error_count_witness :
  let feed := example_feed 3 None None in
  let r :=
    _do_monitor_a_feed example_parse example_decimal (λ _, "") (λ s, s)
      example_calculate_update example_migrate 30 0 example_subs nobody_flood_locked
      example_updated_response (Raises Exception_) feed Stat.init in
  fetch_reached 0 example_subs nobody_flood_locked feed
  ∧ fetch_failed example_updated_response = false
  ∧ web.url example_updated_response = db.link feed
  ∧ db.error_count (feed_after r) = 0
  ∧ omap migrated (effects r) = [].
Proof.
  intros feed r.
  split; [apply example_fetch_reached_unscheduled|]. split; [reflexivity|].
  split; [reflexivity|].
  destruct (answered_fetch_resets_error_count example_parse example_decimal (λ _, "")
              (λ s, s) example_calculate_update example_migrate 30 0
              example_subs nobody_flood_locked example_updated_response
              (Raises Exception_) feed Stat.init
              (example_fetch_reached_unscheduled 3 None) eq_refl eq_refl)
    as (Hcount & _ & Hmig).
  split; [exact Hcount | exact Hmig].
Defined.

Lemma updated_check_bounds_entry_hashes_witness :
  let feed := example_feed 0 None None in
  let r :=
    _do_monitor_a_feed example_parse example_decimal (λ _, "") (λ s, s)
      example_calculate_update example_migrate 30 0 example_subs nobody_flood_locked
      example_updated_response Returns feed Stat.init in
  fetch_reached 0 example_subs nobody_flood_locked feed
  ∧ web.status example_updated_response ≠ 304
  ∧ web.url example_updated_response = db.link feed
  ∧ db.last_modified (feed_after r) = Some 5000000
  ∧ db.entry_hashes (feed_after r)
    = Some ["https://example.org/1"; "https://example.org/2"].
Proof.
  intros feed r.
  assert (web.status example_updated_response ≠ 304) as Hstatus
    by discriminate.
  assert (web.entries
            (web.mkRssD {["title" := "Example"]}
               [{["link" := "https://example.org/1"]};
                {["link" := "https://example.org/2"]}]) ≠ []) as Hentries
    by discriminate.
  split; [apply example_fetch_reached_unscheduled|]. split; [exact Hstatus|].
  split; [reflexivity|].
  pose proof (updated_check_bounds_entry_hashes example_parse example_decimal (λ _, "")
                (λ s, s) example_calculate_update example_migrate 30 0
                example_subs nobody_flood_locked example_updated_response
                _ _ "Example" Returns feed Stat.init
                (example_fetch_reached_unscheduled 0 None) Hstatus eq_refl
                eq_refl Hentries eq_refl eq_refl) as H.
  cbv zeta in H. fold r in H.
  change (example_calculate_update _ _).2
    with [({["link" := "https://example.org/1"]} : gmap string string);
          {["link" := "https://example.org/2"]}] in H.
  cbv iota in H. destruct H as (Hmod & Hhashes).
  split; [exact Hmod|].
  destruct (db.entry_hashes (feed_after r)) as [hashes|].
  - destruct Hhashes as (_ & _ & _ & Hall). rewrite Hall; [reflexivity|].
    vm_compute. discriminate.
  - vm_compute in Hhashes. discriminate Hhashes.
Defined.

Lemma fanout_goes_oldest_first_witness :
  let feed := example_feed 0 None None in
  let r :=
    _do_monitor_a_feed example_parse example_decimal (λ _, "") (λ s, s)
      example_calculate_update example_migrate 30 0 example_subs nobody_flood_locked
      example_updated_response Returns feed Stat.init in
  fetch_reached 0 example_subs nobody_flood_locked feed
  ∧ web.status example_updated_response ≠ 304
  ∧ omap notified (effects r)
    = [(feed_after r, example_subs, {["link" := "https://example.org/2"]});
       (feed_after r, example_subs, {["link" := "https://example.org/1"]})].
Proof.
  intros feed r.
  assert (web.status example_updated_response ≠ 304) as Hstatus
    by discriminate.
  assert (web.entries
            (web.mkRssD {["title" := "Example"]}
               [{["link" := "https://example.org/1"]};
                {["link" := "https://example.org/2"]}]) ≠ []) as Hentries
    by discriminate.
  split; [apply example_fetch_reached_unscheduled|]. split; [exact Hstatus|].
  exact (proj1
    (fanout_goes_oldest_first example_parse example_decimal (λ _, "") (λ s, s)
       example_calculate_update example_migrate 30 0 example_subs
       nobody_flood_locked example_updated_response _ _ "Example" Returns feed
       Stat.init (example_fetch_reached_unscheduled 0 None) Hstatus eq_refl
       eq_refl Hentries eq_refl)).
Defined.

(** X19.  A next check time taken from the server-side cache is always
    later than the moment of the fetch. *)
Theorem cached_next_check_is_in_the_future
    (parse : string → option AwareDatetime) (dec : string → Decimal)
    (wf : web.WebFeed) (t : Z) :
  _defer_next_check_as_per_server_side_cache parse dec wf = Some (Some t) →
  ∃ wr, web.web_response wf = Some wr ∧ web.now wr < t.
Proof.
  unfold _defer_next_check_as_per_server_side_cache.
  destruct (web.web_response wf) as [wr|]; [|done].
  intros Hr. exists wr. split; [done|].
  destruct (cloudflare_expires wr (web.headers wf)) as [e|] eqn:Ecf.
  - injection Hr as ->. by apply cloudflare_expires_spec in Ecf as (_ & _ & ?).
  - destruct (web.rss_d wf) as [rss|]; [|done].
    apply rsshub_next_check_spec in Hr as (updated & ttl & _ & _ & -> & ?).
    done.
Qed.

Lemma cached_next_check_is_in_the_future_witness :
  _defer_next_check_as_per_server_side_cache example_parse example_decimal
    example_rsshub_response = Some (Some 1600000000)
  ∧ ∃ wr, web.web_response example_rsshub_response = Some wr
          ∧ web.now wr < 1600000000.
Proof.
  assert (_defer_next_check_as_per_server_side_cache example_parse
            example_decimal example_rsshub_response = Some (Some 1600000000))
    as H by reflexivity.
  split; [exact H|].
  exact (cached_next_check_is_in_the_future example_parse example_decimal
           example_rsshub_response 1600000000 H).
Defined.

(** ** Delivery: histories of the tables *)

(** [__send] run with nothing in between is its first part followed, when
    the unsubscription is pending, by the resumption. *)
Lemma send_is_enter_then_resume sub post outcome d :
  Deliver.__send sub post outcome d
  = let '(d', pending) := send_enter sub post outcome d in
    if pending then send_resume sub post Returns d' else d'.
Proof.
  unfold send_enter, send_resume, Deliver.__send,
    Deliver.__locked_unsub_all_and_leave_chat.
  destruct outcome as [| | |message|]; cbn [unsubscribing]; try done;
    try (by destruct (Deliver.locked_unsub_enter _ _) as [? []]).
  destruct (bool_decide _); [|done].
  by destruct (Deliver.locked_unsub_enter _ _) as [? []].
Qed.

Lemma unsubs_app d user_id calls :
  Z.of_nat (length (filter (λ u, u = user_id) (unsub_calls d ++ calls)))
  = unsubs d user_id
    + Z.of_nat (length (filter (λ u, u = user_id) calls)).
Proof. unfold unsubs. rewrite filter_app, length_app. lia. Qed.

(** What [locked_unsub_enter] does to the entries of a user. *)
Lemma enter_view user_id d u :
  user_view (Deliver.locked_unsub_enter user_id d).1 u
  = if decide (user_id = u)
    then view_step (user_view d u)
           (SendRuns (db.mkSub user_id None true) Deliver.FormattedPost
              Deliver.UserBlocked)
    else user_view d u.
Proof.
  unfold Deliver.locked_unsub_enter, Deliver.lock_get, user_view, unsubs,
    counter_incr, counter_get.
  destruct d as [bucket counter calls log]. cbn -[filter].
  destruct (decide (user_id = u)) as [->|Hne].
  - destruct (bucket !! u) as [[]|] eqn:Hb; cbn -[filter];
      rewrite ?Hb; try done;
      destruct (default 0 (counter !! u) <? 5); cbn -[filter];
      rewrite ?lookup_insert_eq, ?lookup_delete_eq, ?Hb; try done;
      rewrite filter_app, length_app, filter_cons_True, filter_nil by done;
      cbn [length]; do 2 f_equal; lia.
  - destruct (bucket !! user_id) as [[]|] eqn:Hb; cbn -[filter]; try done;
      destruct (default 0 (counter !! user_id) <? 5); cbn -[filter];
      rewrite ?lookup_insert_ne, ?lookup_delete_ne by done; try done;
      rewrite filter_app, filter_cons_False, filter_nil, app_nil_r by done;
      done.
Qed.
(** What a step of the tables does to the entries of a user: a step of
    another user leaves them alone. *)
Lemma step_view d step u :
  user_view (delivery_step d step) u
  = if decide (step_user step = u) then view_step (user_view d u) step
    else user_view d u.
Proof.
  destruct step as [sub post outcome|sub post result];
    cbn [delivery_step step_user].
  - unfold send_enter.
    destruct (unsubscribing outcome) eqn:Hout.
    + rewrite enter_view. destruct (decide _) as [_|]; [|done].
      destruct (user_view d u) as [[lock count] calls].
      cbn [view_step unsubscribing]. by rewrite Hout.
    + cbn [fst].
      assert (user_view (Deliver.__send sub post outcome d) u
              = if decide (db.user_id sub = u)
                then match outcome, post with
                     | Deliver.Sent, Deliver.FormattedPost =>
                         if truthy (counter_get (__user_blocked_counter d) u)
                         then (__user_unsub_all_lock_bucket d !! u, None,
                               unsubs d u)
                         else user_view d u
                     | _, _ => user_view d u
                     end
                else user_view d u) as ->.
      { unfold Deliver.__send.
        destruct outcome as [| | |message|]; try discriminate Hout;
          [|cbn [unsubscribing] in Hout; rewrite Hout|];
          repeat (destruct (decide _) as [<-|Hne]); try done;
          destruct post; try done;
          destruct (truthy _) eqn:Ht; try done;
          unfold user_view, unsubs; cbn -[filter];
          by rewrite ?lookup_delete_eq, ?lookup_delete_ne by done. }
      destruct (decide _) as [_|]; [|done].
      unfold user_view, counter_get. cbn [view_step]. rewrite Hout.
      by destruct outcome, post.
  - unfold lock_held, send_resume, Deliver.locked_unsub_exit.
    destruct (decide (db.user_id sub = u)) as [<-|Hne].
    + unfold user_view at 2. cbn [view_step].
      destruct (default false _); [|done].
      destruct result as [|[]], post;
        unfold user_view, unsubs, Deliver.__send;
        cbn -[filter]; by rewrite lookup_insert_eq.
    + destruct (default false _); [|done].
      destruct result as [|[]], post;
        unfold user_view, unsubs, Deliver.__send;
        cbn -[filter]; by rewrite lookup_insert_ne.
Qed.

Lemma delivery_steps_snoc steps step d :
  delivery_steps (steps ++ [step]) d
  = delivery_step (delivery_steps steps d) step.
Proof. unfold delivery_steps. by rewrite foldl_app. Qed.

Lemma failures_snoc u steps step :
  failures u (steps ++ [step])
  = failures u steps + (if is_failure u step then 1 else 0).
Proof.
  unfold failures. rewrite filter_app, length_app.
  destruct (is_failure u step) eqn:Hf.
  - rewrite filter_cons_True by done. cbn [length filter]. rewrite filter_nil.
    cbn [length]. lia.
  - rewrite filter_cons_False by (by rewrite Hf). rewrite filter_nil.
    cbn [length]. lia.
Qed.

Lemma unsub_ends_snoc u steps step :
  unsub_ends u (steps ++ [step])
  = unsub_ends u steps + (if is_end u step then 1 else 0).
Proof.
  unfold unsub_ends. rewrite filter_app, length_app.
  destruct (is_end u step) eqn:Hf.
  - rewrite filter_cons_True by done. cbn [length filter]. rewrite filter_nil.
    cbn [length]. lia.
  - rewrite filter_cons_False by (by rewrite Hf). rewrite filter_nil.
    cbn [length]. lia.
Qed.

(** A step of the user keeps the invariant of the user's entries. *)
Lemma view_inv_step view failed ended u step :
  step_user step = u →
  view_inv view failed ended →
  view_inv (view_step view step)
    (failed + (if is_failure u step then 1 else 0))
    (ended + (if is_end u step then 1 else 0)).
Proof.
  intros Hu. destruct view as [[lock count] calls].
  intros (Hrange & Hheld & Hsix & Hone).
  assert (0 ≤ default 0 count ≤ 5) as Hcount.
  { destruct count as [n|]; [|simpl; lia].
    specialize (Hrange n eq_refl). simpl. lia. }
  destruct step as [sub post outcome|sub post result];
    cbn [step_user] in Hu; cbn [view_step is_failure is_end];
    rewrite bool_decide_eq_true_2 by done; cbn [andb].
  - destruct (unsubscribing outcome).
    + destruct (default false lock) eqn:Hl.
      * cbn [view_inv]. rewrite Hl.
        split; [exact Hrange|]. split; [exact Hheld|]. lia.
      * destruct (Z.ltb_spec (default 0 count) 5) as [Hlt|Hge].
        -- cbn [view_inv default from_option id].
           split; [intros k [= <-]; lia|]. split; [done|]. lia.
        -- cbn [view_inv default from_option id]. split; [done|]. split; [done|]. lia.
    + assert (view_inv (lock, count, calls) (failed + 0) (ended + 0)) as Hsame.
      { rewrite !Z.add_0_r. cbn [view_inv]. tauto. }
      assert (view_inv (lock, None, calls) (failed + 0) (ended + 0)) as Hreset.
      { rewrite !Z.add_0_r. cbn [view_inv default from_option id].
        split; [done|]. split; [done|]. lia. }
      destruct outcome, post; try done. by destruct (truthy _).
  - destruct (default false lock) eqn:Hl.
    + cbn [view_inv default from_option id]. specialize (Hheld eq_refl). subst count.
      split; [done|]. split; [done|]. simpl in *. lia.
    + cbn [view_inv]. rewrite Hl.
      split; [exact Hrange|]. split; [exact Hheld|]. lia.
Qed.

Lemma delivery_inv_init : delivery_inv [] Deliver.init.
Proof.
  intros u. unfold user_view, unsubs, failures, unsub_ends. cbn.
  rewrite !lookup_empty. cbn. repeat split; try done; lia.
Qed.

(** The invariant holds after every history that starts with the tables
    empty. *)
Lemma delivery_inv_steps steps :
  delivery_inv steps (delivery_steps steps Deliver.init).
Proof.
  induction steps as [|step steps IH] using rev_ind;
    [apply delivery_inv_init|].
  intros u. specialize (IH u).
  rewrite delivery_steps_snoc, step_view, failures_snoc, unsub_ends_snoc.
  destruct (decide (step_user step = u)) as [Hu|Hne].
  - by apply view_inv_step.
  - assert (is_failure u step = false) as ->.
    { destruct step; cbn in Hne |- *; [|done].
      by rewrite bool_decide_eq_false_2. }
    assert (is_end u step = false) as ->.
    { destruct step; cbn in Hne |- *; [done|].
      by rewrite bool_decide_eq_false_2. }
    by rewrite !Z.add_0_r.
Qed.

(** X20.  Whatever sends run on the tables and in whatever order, starting
    with the tables empty, a user is unsubscribed only after six failed
    sends for each unsubscription: six times the calls of
    [unsub_all_and_leave_chat] made for the user, plus what the user's
    counter reads, is at most the number of sends to the user that ended
    in an unsubscribing outcome.  A counter entry is always between 1 and
    5. *)
Theorem unsubscription_takes_six_failures (steps : list DeliveryStep)
    (user_id : Z) :
  let d := delivery_steps steps Deliver.init in
  6 * unsubs d user_id + counter_get (__user_blocked_counter d) user_id
  ≤ failures user_id steps
  ∧ ∀ n, __user_blocked_counter d !! user_id = Some n → 1 ≤ n ≤ 5.
Proof.
  intros d. destruct (delivery_inv_steps steps user_id) as (Hr & _ & Hs & _).
  split; [exact Hs | exact Hr].
Qed.

(** X21.  [unsub_all_and_leave_chat] is never called for a user while an
    earlier call for that user is pending: the calls made for a user are
    at most the calls that have ended, plus one exactly while the user's
    lock is held.  While the lock is held the user's counter has no entry,
    and a send to the user that ends in an unsubscribing outcome changes
    nothing the tables hold for the user. *)
Theorem one_unsubscription_in_flight (steps : list DeliveryStep)
    (user_id : Z) :
  let d := delivery_steps steps Deliver.init in
  unsubs d user_id
  ≤ unsub_ends user_id steps + (if lock_held d user_id then 1 else 0)
  ∧ (lock_held d user_id = true →
     __user_blocked_counter d !! user_id = None
     ∧ ∀ sub post outcome,
         db.user_id sub = user_id → unsubscribing outcome = true →
         user_view (delivery_step d (SendRuns sub post outcome)) user_id
         = user_view d user_id).
Proof.
  intros d. destruct (delivery_inv_steps steps user_id) as (_ & Hh & _ & Ho).
  split; [exact Ho|]. intros Hheld. split; [by apply Hh|].
  intros sub post outcome Hu Hout. rewrite step_view. cbn [step_user].
  rewrite decide_True by done. unfold user_view, lock_held in *.
  cbn [view_step]. by rewrite Hout, Hheld.
Qed.

(** The entries of a user after a history depend only on the entries the
    history starts with and on the steps of that user. *)
Lemma user_view_steps steps u d d' :
  user_view d u = user_view d' u →
  user_view (delivery_steps steps d) u
  = user_view (delivery_steps (filter (λ step, step_user step = u) steps) d') u.
Proof.
  revert d d'. induction steps as [|step steps IH]; intros d d' Hd; [done|].
  destruct (decide (step_user step = u)) as [Hu|Hne].
  - rewrite filter_cons_True by done. cbn [delivery_steps foldl].
    apply IH. rewrite !step_view, !decide_True by done. by rewrite Hd.
  - rewrite filter_cons_False by done. cbn [delivery_steps foldl].
    apply IH. by rewrite step_view, decide_False.
Qed.

(** X22.  Sends to other users do not change what the tables hold for a
    user: the user's lock, counter entry and number of unsubscriptions
    after a history are those after the steps of that user alone. *)
Theorem users_do_not_interfere (steps : list DeliveryStep) (user_id : Z) :
  user_view (delivery_steps steps Deliver.init) user_id
  = user_view
      (delivery_steps (filter (λ step, step_user step = user_id) steps)
         Deliver.init) user_id.
Proof. by apply user_view_steps. Qed.
(** ** The periodic task *)

(** The submit loop leaves the baselines of the statistics alone. *)
Lemma submit_all_times mi feeds m :
  _tier2_last_summary_time (_stat (submit_all mi feeds m))
  = _tier2_last_summary_time (_stat m).
Proof.
  unfold submit_all.
  induction feeds as [|feed feeds IH] using rev_ind; [done|].
  rewrite foldl_app. cbn [foldl].
  destruct (submit_effects mi feed
              (foldl (λ m feed, Mon.submit_feed mi feed m)
                 (Mon.log logging.DEBUG "Started a periodic monitoring task."
                    [] m) feeds)) as (_ & _ & Hs).
  cbv zeta in Hs. rewrite Hs. destruct (enqueues _); [exact IH|].
  change (Stat.deferred ?s) with (tag_method deferred s).
  destruct (tag_method_times deferred
              (_stat (foldl (λ m feed, Mon.submit_feed mi feed m)
                 (Mon.log logging.DEBUG "Started a periodic monitoring task."
                    [] m) feeds))) as (_ & -> & _).
  exact IH.
Qed.

(** X23.  A periodic tick on statistics that tag methods and earlier
    summaries have brought about never fails on the missing baseline.  It
    prints before it submits: the lines are those of [print_summary] on
    the statistics as they were, the new window starts at [now], and the
    queue and the [deferred] count of the new window together grow by one
    per record (the window keeps its earlier counts only on the very
    first summary).  With no task to monitor it touches nothing but the
    statistics. *)
Theorem periodic_task_prints_then_submits (minimal_interval : Z) (now : Q)
    (feed_id_to_monitor : list Z) (feeds : list db.Feed) (m : Monitor)
    (calls : list StatCall) :
  _stat m = stat_after_calls calls →
  ∃ m' stat lines,
    run_periodic_task minimal_interval now feed_id_to_monitor feeds m
    = Some (m', lines)
    ∧ Stat.print_summary now (_stat m) = Some (stat, lines)
    ∧ _tier2_last_summary_time (_stat m') = Some now
    ∧ Z.of_nat (length (_queue m')) + tier2 (_stat m') "deferred"
      = Z.of_nat (length (_queue m))
        + (if _tier1_last_summary_time (_stat m) is None
           then tier2 (_stat m) "deferred" else 0)
        + (if feed_id_to_monitor is [] then 0 else Z.of_nat (length feeds))
    ∧ (feed_id_to_monitor = [] →
       m' = Mon.set_stat (λ _, stat) m).
Proof.
  intros Hstat. unfold run_periodic_task.
  pose proof (stat_inv_after_calls calls) as Hinv. rewrite <- Hstat in Hinv.
  destruct (print_summary_total now (_stat m) Hinv) as [[stat lines] Hprint].
  rewrite Hprint.
  destruct (window_after_summary calls now []) as (Hwindow & Htime & _).
  cbv zeta in Hwindow, Htime. rewrite stat_after_calls_app in Hwindow, Htime.
  cbn [foldl stat_call fmap list_fmap] in Hwindow, Htime.
  rewrite <- Hstat, Hprint in Hwindow, Htime.
  specialize (Hwindow "deferred").
  change (recorded "deferred" []) with 0 in Hwindow.
  set (m1 := Mon.set_stat (λ _, stat) m).
  destruct feed_id_to_monitor as [|feed_id ids].
  - exists m1, stat, lines. repeat split; try done.
    subst m1. cbn [_queue _stat Mon.set_stat]. lia.
  - exists (submit_all minimal_interval feeds m1), stat, lines.
    split; [done|]. split; [done|].
    split; [by rewrite submit_all_times|]. split; [|done].
    destruct (submit_all_submissions minimal_interval feeds m1) as [Hsub _].
    unfold submissions in Hsub. subst m1.
    cbn [_queue _stat Mon.set_stat] in Hsub. lia.
Qed.

Lemma periodic_task_prints_then_submits_witness :
  _stat Mon.init = stat_after_calls []
  ∧ ∃ m' stat lines,
      run_periodic_task 5 0 [3] [example_feed 0 None None] Mon.init
      = Some (m', lines)
      ∧ Stat.print_summary 0 (_stat Mon.init) = Some (stat, lines)
      ∧ _tier2_last_summary_time (_stat m') = Some 0%Q
      ∧ Z.of_nat (length (_queue m')) + tier2 (_stat m') "deferred"
        = Z.of_nat (length (_queue Mon.init))
          + (if _tier1_last_summary_time (_stat Mon.init) is None
             then tier2 (_stat Mon.init) "deferred" else 0)
          + (if [3] is [] then 0
             else Z.of_nat (length [example_feed 0 None None]))
      ∧ ([3] = [] → m' = Mon.set_stat (λ _, stat) Mon.init).
Proof.
  split; [reflexivity|].
  exact (periodic_task_prints_then_submits 5 0 [3] [example_feed 0 None None]
           Mon.init [] eq_refl).
Defined.
(** ** The worker, from the lookup to its end *)

(** An erase whose result is a lone [DEFERRED] works on that state or on
    the state that also has the erased flag. *)
Lemma erased_to_deferred st :
  Z.land st (Z.lnot TaskState.IN_PROGRESS) = TaskState.DEFERRED →
  st = TaskState.DEFERRED
  ∨ st = Z.lor TaskState.IN_PROGRESS TaskState.DEFERRED.
Proof.
  intros Hd. rewrite <- (Z.lor_ldiff_and st TaskState.IN_PROGRESS).
  rewrite Z.ldiff_land, Hd.
  assert (Z.land st TaskState.IN_PROGRESS = 0
          ∨ Z.land st TaskState.IN_PROGRESS = TaskState.IN_PROGRESS) as [->| ->].
  { change TaskState.IN_PROGRESS with (2 ^ 1).
    rewrite Z.land_comm. change (2 ^ 1) with (Z.ones 1 * 2).
    destruct (Z.testbit st 1) eqn:Hb.
    - right. apply Z.bits_inj'. intros n Hn.
      rewrite Z.land_spec. change (Z.ones 1 * 2) with (2 ^ 1).
      rewrite Z.pow2_bits_eqb by lia.
      destruct (Z.eqb_spec 1 n) as [<-|]; [by rewrite Hb | done].
    - left. apply Z.bits_inj'. intros n Hn.
      rewrite Z.land_spec, Z.bits_0. change (Z.ones 1 * 2) with (2 ^ 1).
      rewrite Z.pow2_bits_eqb by lia.
      destruct (Z.eqb_spec 1 n) as [<-|]; [by rewrite Hb | done]. }
  - by left.
  - by right.
Qed.

(** The [IN_PROGRESS] bit after an erase of [IN_PROGRESS]: it is still
    set exactly when locking is off and the erase found
    [IN_PROGRESS | DEFERRED]. *)
Lemma erased_in_progress_bit mi st :
  Z.testbit (erased_state mi st TaskState.IN_PROGRESS) 1 = true
  ↔ mi ≤ 1 ∧ st = Z.lor TaskState.IN_PROGRESS TaskState.DEFERRED.
Proof.
  unfold erased_state.
  destruct (Z.eqb_spec st TaskState.EMPTY) as [->|Hne].
  - split; [done|]. by intros [_ ?].
  - destruct (Z.eqb_spec (Z.land st (Z.lnot TaskState.IN_PROGRESS))
                TaskState.DEFERRED) as [Hd|Hd].
    + destruct (erased_to_deferred st Hd) as [->| ->];
        destruct (Z.leb_spec mi 1); split; try done;
        try (intros [? ?]; (lia || done)).
    + rewrite Z.land_spec.
      change (Z.testbit (Z.lnot TaskState.IN_PROGRESS) 1) with false.
      rewrite andb_false_r. split; [done|]. intros [_ ->]. by destruct Hd.
Qed.

(** C5.  A worker waits for its detector with a timeout of 600 seconds.
    If the detector is still pending when the wait returns, the worker
    cancels it and awaits it: a [CancelledError] from the unwind counts
    [timeout], any other [Exception] counts [timeout_unknown_error].  If
    the detector is done, a [CancelledError] it raised counts [cancelled]
    and any other [Exception] counts [unknown_error].  An [Exception] of
    the worker's own counts [unknown_error].  Nothing else is counted, and
    once the wait has been reached, whatever its outcome and whether or
    not an exception leaves the coroutine, the last thing the worker does
    is [_erase_state_for_feed_id(feed_id, IN_PROGRESS)] on the table as it
    stands.  That does not clear the bit in every case: the bit is still
    set afterwards exactly when locking is off and the feed was submitted
    again while the worker ran (the state is [IN_PROGRESS | DEFERRED]), as
    on feed 7 below; and a worker whose store lookup raises ends before
    the [try] statement, with the bit it has set still set. *)
Theorem worker_classifies_and_erases (minimal_interval feed_id : Z)
    (w : WaitOutcome) (m : Monitor) (feed : db.Feed) (e : Exc) :
  TIMEOUT = 600
  ∧ (Mon._do_monitor_task_enter (of_Feed feed) m).2
    = Mon.AwaitDetector (db.id feed) 600
  ∧ (Mon._do_monitor_task_resolved feed_id (Mon.Answered (Some feed)) m).2
    = Mon.Suspends (Mon.AwaitDetector feed_id 600)
  ∧ worker_tag (Pending (Raises CancelledError)) = Some timeout
  ∧ worker_tag (Pending (Raises Exception_)) = Some timeout_unknown_error
  ∧ worker_tag (Done (Raises CancelledError)) = Some cancelled
  ∧ worker_tag (Done (Raises Exception_)) = Some unknown_error
  ∧ worker_tag (WaitFails Exception_) = Some unknown_error
  ∧ (let r := Mon._do_monitor_task_finish minimal_interval feed_id w m in
     Mon.cancel_called r = (if w is Pending _ then true else false)
     ∧ (∃ m1,
          Mon.monitor r
          = Mon._erase_state_for_feed_id minimal_interval feed_id
              TaskState.IN_PROGRESS m1
          ∧ _stat m1 = from_option tag_method (λ s, s) (worker_tag w) (_stat m)
          ∧ _queue m1 = _queue m
          ∧ _task_defer_map m1 = _task_defer_map m
          ∧ loop_timers m1 = loop_timers m)
     ∧ (Z.testbit (Mon.state_of (Mon.monitor r) feed_id) 1 = true
        ↔ minimal_interval ≤ 1
          ∧ Mon.state_of m feed_id
            = Z.lor TaskState.IN_PROGRESS TaskState.DEFERRED))
  ∧ (let r := Mon._do_monitor_task_finish 1 7 (Done Returns)
                deferred_while_in_progress in
     Mon.state_of deferred_while_in_progress 7
     = Z.lor TaskState.IN_PROGRESS TaskState.DEFERRED
     ∧ Mon.state_of (Mon.monitor r) 7
       = Z.lor TaskState.IN_PROGRESS TaskState.DEFERRED
     ∧ Mon.propagated r = None)
  ∧ (let entered := (Mon._do_monitor_task_enter (of_id feed_id) m).1 in
     let r := Mon._do_monitor_task_resolved feed_id (Mon.LookupRaises e)
                entered in
     r = (entered, Mon.Propagates e)
     ∧ Z.testbit (Mon.state_of r.1 feed_id) 1 = true).
Proof.
  repeat (split; [reflexivity|]). cbv zeta.
  split; [|split].
  - split; [by destruct w as [[|[]]|[|[]]|[]]|].
    split; [apply finish_before_erase|].
    rewrite finish_state, decide_True by done.
    apply erased_in_progress_bit.
  - by vm_compute.
  - split; [reflexivity|].
    change (Z.testbit (Mon.state_of (Mon.mark_in_progress feed_id m) feed_id) 1
            = true).
    rewrite mark_in_progress_state, decide_True by done.
    rewrite Z.lor_spec. apply orb_true_r.
Qed.

(** ** A worker that finds its record gone *)

Lemma step_timers_of_feed mi m step f :
  step_feed_id m step ≠ Some f →
  feed_timers f (monitor_step mi m step) = feed_timers f m.
Proof.
  unfold feed_timers. intros Hother.
  assert (∀ g, g ≠ f →
            filter (λ t, timer_feed_id t = f) (lock_timers mi g) = []) as Hlock.
  { intros g Hg. unfold lock_timers. destruct (mi <=? 1); [done|].
    by rewrite filter_cons_False. }
  destruct step as [feed| |[feed|feed_id]|feed_id [[feed|]|e]|feed_id w|n|t];
    cbn [monitor_step step_feed_id Mon._do_monitor_task_enter
         Mon._do_monitor_task_resolved fst] in *.
  - destruct (submit_effects mi feed m) as (_ & -> & _).
    rewrite filter_app. destruct (enqueues _); [|by rewrite app_nil_r].
    rewrite Hlock, app_nil_r; [done|congruence].
  - unfold Mon.dispatch. by destruct (_queue m).
  - by rewrite mark_in_progress_spec.
  - by rewrite mark_in_progress_spec.
  - done.
  - done.
  - done.
  - destruct (finish_effects mi feed_id w m) as (_ & -> & _).
    rewrite filter_app. destruct (resubmits _ _); [|by rewrite app_nil_r].
    rewrite Hlock, app_nil_r; [done|congruence].
  - destruct (loop_timers m !! n) as [t|] eqn:Hn;
      [|by unfold Mon.fire_timer; rewrite Hn].
    destruct (fire_timer_effects mi n t m Hn) as (_ & -> & _).
    assert (timer_feed_id t ≠ f) as Hne by (cbn in Hother; congruence).
    rewrite filter_app.
    assert (filter (λ t, timer_feed_id t = f) (delete n (loop_timers m))
            = filter (λ t, timer_feed_id t = f) (loop_timers m)) as ->.
    { rewrite <- (take_drop_middle (loop_timers m) n t Hn) at 2.
      rewrite delete_take_drop, !filter_app, filter_cons_False by done.
      done. }
    destruct (resubmits _ _); [|by rewrite app_nil_r].
    by rewrite Hlock, app_nil_r.
  - done.
Qed.

(** A history that leaves a feed alone keeps its state and its timers. *)
Lemma leaves_alone_keeps mi f steps m :
  leaves_alone mi f steps m →
  Mon.state_of (monitor_steps mi steps m) f = Mon.state_of m f
  ∧ feed_timers f (monitor_steps mi steps m) = feed_timers f m.
Proof.
  revert m. induction steps as [|step steps IH]; intros m; [done|].
  intros [Hstep Hrest].
  change (monitor_steps mi (step :: steps) m)
    with (monitor_steps mi steps (monitor_step mi m step)).
  destruct (IH _ Hrest) as [-> ->].
  rewrite step_state, decide_False by done.
  by rewrite step_timers_of_feed.
Qed.

(** A timer that comes due for a feed whose state is empty only logs. *)
Lemma fire_timer_on_empty mi n t m :
  loop_timers m !! n = Some t →
  Mon.state_of m (timer_feed_id t) = TaskState.EMPTY →
  let fired := Mon.fire_timer mi n m in
  Mon.state_of fired (timer_feed_id t) = TaskState.EMPTY
  ∧ _queue fired = _queue m
  ∧ _stat fired = _stat m
  ∧ loop_timers fired = delete n (loop_timers m)
  ∧ logger fired
    = logger m ++ [mkLog logging.WARNING "Unexpected empty state"
                     [TaskState.EMPTY; timer_feed_id t]].
Proof.
  intros Hn He fired. subst fired. unfold Mon.fire_timer. rewrite Hn.
  rewrite erase_on_empty by done.
  rewrite state_of_log, state_of_defer_map_get.
  split; [exact He|]. by repeat split.
Qed.

(** C10.  A worker for a submitted id suspends on the store lookup; when
    the store has no such record, whatever the table holds for the id at
    that moment is overwritten by [EMPTY] and the worker returns: nothing
    is enqueued, nothing is counted, the timers stay scheduled, and one
    error line is logged.  As long as nothing else works on that id (no
    new submit, no other worker for it), its state stays empty and its
    timers stay scheduled, whatever happens to other feeds; and each of
    its timers that then comes due finds the empty state and only logs a
    warning. *)
Theorem worker_drops_state_of_missing_feed (minimal_interval feed_id : Z)
    (m0 m : Monitor) (steps : list MonitorStep) :
  let r := Mon._do_monitor_task_resolved feed_id (Mon.Answered None) m in
  let later := monitor_steps minimal_interval steps r.1 in
  leaves_alone minimal_interval feed_id steps r.1 →
  (Mon._do_monitor_task_enter (of_id feed_id) m0).2 = Mon.AwaitFeed feed_id
  ∧ r.2 = Mon.Returned
  ∧ _task_defer_map r.1 = <[feed_id := TaskState.EMPTY]> (_task_defer_map m)
  ∧ Mon.state_of r.1 feed_id = TaskState.EMPTY
  ∧ _queue r.1 = _queue m
  ∧ _stat r.1 = _stat m
  ∧ loop_timers r.1 = loop_timers m
  ∧ logger r.1
    = logger m
      ++ [mkLog logging.ERROR
            "Feed not found, but it was submitted to the monitor queue"
            [feed_id]]
  ∧ Mon.state_of later feed_id = TaskState.EMPTY
  ∧ feed_timers feed_id later = feed_timers feed_id m
  ∧ ∀ n t,
      loop_timers later !! n = Some t → timer_feed_id t = feed_id →
      let fired := Mon.fire_timer minimal_interval n later in
      Mon.state_of fired feed_id = TaskState.EMPTY
      ∧ _queue fired = _queue later
      ∧ _stat fired = _stat later
      ∧ loop_timers fired = delete n (loop_timers later)
      ∧ logger fired
        = logger later
          ++ [mkLog logging.WARNING "Unexpected empty state"
                [TaskState.EMPTY; feed_id]].
Proof.
  intros r later Halone.
  assert (Mon.state_of r.1 feed_id = TaskState.EMPTY) as He.
  { unfold Mon.state_of. simpl. by rewrite lookup_insert_eq. }
  destruct (leaves_alone_keeps _ _ _ _ Halone) as [Hstate Htimers].
  fold later in Hstate, Htimers. rewrite He in Hstate.
  split; [reflexivity|].
  repeat (split; [first [reflexivity | exact He]|]).
  split; [exact Hstate|]. split; [exact Htimers|].
  intros n t Hn <-. by apply fire_timer_on_empty.
Qed.

Lemma worker_drops_state_of_missing_feed_witness :
  let m := (Mon._do_monitor_task_enter (of_id 3)
              (monitor_steps 5
                 [StepSubmit (feed_with_id 3); StepDispatch;
                  StepEnter (of_Feed (feed_with_id 3));
                  StepSubmit (feed_with_id 3); StepTimer 0;
                  StepFinish 3 (Done Returns); StepDispatch] Mon.init)).1 in
  let steps := [StepSubmit (feed_with_id 4); StepDispatch] in
  let r := Mon._do_monitor_task_resolved 3 (Mon.Answered None) m in
  let later := monitor_steps 5 steps r.1 in
  leaves_alone 5 3 steps r.1
  ∧ Mon.state_of m 3 = Z.lor TaskState.LOCKED TaskState.IN_PROGRESS
  ∧ Mon.state_of later 3 = TaskState.EMPTY
  ∧ loop_timers later !! 0%nat = Some (mkTimer 300 3 TaskState.LOCKED)
  ∧ logger (Mon.fire_timer 5 0 later)
    = logger later
      ++ [mkLog logging.WARNING "Unexpected empty state" [TaskState.EMPTY; 3]].
Proof.
  intros m steps r later.
  assert (leaves_alone 5 3 steps r.1) as Halone.
  { cbn [leaves_alone steps step_feed_id]. repeat split; discriminate. }
  assert (loop_timers later !! 0%nat = Some (mkTimer 300 3 TaskState.LOCKED))
    as Hn by (by vm_compute).
  split; [exact Halone|]. split; [by vm_compute|].
  destruct (worker_drops_state_of_missing_feed 5 3 Mon.init m steps Halone)
    as (_ & _ & _ & _ & _ & _ & _ & _ & Hstate & _ & Hfire).
  split; [exact Hstate|]. split; [exact Hn|].
  destruct (Hfire 0%nat _ Hn eq_refl) as (_ & _ & _ & _ & Hlog). exact Hlog.
Defined.

(** C10 as stated fails once the id is submitted again before the timer
    comes due.  On [record_gone] the timer of the dropped lock is still
    scheduled and the state of feed 3 is empty.  Feed 3 is submitted:
    it is locked again and enqueued.  Then the old timer comes due: it
    finds [LOCKED], clears it and logs nothing, so the new lock ends
    early, with its own timer still scheduled; a further submit is
    enqueued beside the first. *)
Lemma stale_timer_unlocks_new_submission :
  let feed := feed_with_id 3 in
  let stale := mkTimer 300 3 TaskState.LOCKED in
  let submitted := monitor_step 5 record_gone (StepSubmit feed) in
  let fired := monitor_step 5 submitted (StepTimer 0) in
  loop_timers record_gone = [stale]
  ∧ Mon.state_of record_gone 3 = TaskState.EMPTY
  ∧ Mon.state_of submitted 3 = TaskState.LOCKED
  ∧ loop_timers submitted = [stale; mkTimer 300 3 TaskState.LOCKED]
  ∧ Mon.state_of fired 3 = TaskState.EMPTY
  ∧ logger fired = logger submitted
  ∧ loop_timers fired = [mkTimer 300 3 TaskState.LOCKED]
  ∧ _queue (monitor_step 5 fired (StepSubmit feed)) = [of_Feed feed; of_Feed feed].
Proof. by vm_compute. Qed.
